(** * e6 viewer: the proxy (server.js) and the feed controller (client script)

    A shallow embedding of the two JavaScript sources of the viewer, and the
    properties of the proxy's handlers and of the feed's window.

    - [Js]       the JavaScript values and operators the two sources rely on
                 (values parsed from JSON, truthiness, [||], [??], [?.],
                 string conversion);
    - [Proxy]    [server.js]: the posts, vote/favorite and comments handlers;
    - [Feed]     the client script: [escapeHtml], [addPost], [fetchPosts],
                 [toggleComments], [getCurrentIndexInFeed],
                 [pruneAroundCurrent], and the events of a session;
    - [Gestures] the client script: [scrollToCardIndex] and the wheel, key
                 and touch listeners;
    - [Panel]    the client script: what [toggleComments] shows once the
                 proxy answered;
    - the vocabulary the properties are stated with;
    - [Scenario], [Cases] concrete upstreams, parsers and sessions;
    - the properties, and in [Runs] the handlers and the feed evaluated on
      the scenarios.

    Modelling conventions.
    - A JavaScript string is a [string] (a sequence of characters); [slice]
      and [length] count characters.
    - A JSON number is an integer ([Z]) that a double holds exactly and
      prints without an exponent; fractional and larger numbers are outside
      the model.
    - [undefined] is [None] in [Js.value]; every other value is a [Js.json].
    - A thrown exception is the [Throw] outcome of [Js.outcome].
    - What [JSON.parse] gives is never a function: converting to a string
      an object that has an own [toString] throws, and so does converting
      an array that holds one ([Js.string_of]); any other object converts
      to ["[object Object]"]. Reading a key an object does not own finds
      the members of [Object.prototype] ([Proxy.read]).
    - Network, parser and layout are inputs: [fetch] is a function from the
      request to what the upstream answers, [JSON.parse] a function from
      text to an optional value, and the height of a card is a field the
      browser fills in. Cards are stacked in the feed: the top of a card is
      the sum of the heights of the cards before it. Once cards are removed
      the browser holds the scroll offset within what is left to scroll
      ([Feed.scrollTop_after]).
    - An asynchronous function is modelled from one [await] to the next: a
      page of posts is rendered in one step when its response arrives, and
      [toggleComments] is modelled up to its first [await]. *)

From Stdlib Require Import ZArith QArith Qabs String Ascii List Lia DecimalString.
From stdpp Require Import base option list gmap strings.

Set Warnings "-register-all".

Local Open Scope string_scope.
Local Open Scope list_scope.
Local Open Scope Z_scope.

(* ===================================================================== *)
(** * JavaScript values *)
(* ===================================================================== *)

Module Js.

Inductive json : Type :=
| JNull
| JBool (b : bool)
| JNum (n : Z)
| JStr (s : string)
| JArr (items : list json)
| JObj (fields : list (string * json)).

(** A JavaScript value: [None] is [undefined]. *)
Definition value : Type := option json.

Inductive exn : Type :=
| TypeError
| SyntaxError
| FetchError (msg : string).

Inductive outcome (A : Type) : Type :=
| Ok (a : A)
| Throw (e : exn).
Arguments Ok {A} a.
Arguments Throw {A} e.

Definition bind {A B} (m : outcome A) (k : A -> outcome B) : outcome B :=
  match m with
  | Ok a => k a
  | Throw e => Throw e
  end.

(** [Boolean(v)] *)
Definition truthy (v : value) : bool :=
  match v with
  | None | Some JNull => false
  | Some (JBool b) => b
  | Some (JNum n) => negb (n =? 0)
  | Some (JStr s) => negb (String.eqb s "")
  | Some (JArr _) | Some (JObj _) => true
  end.

(** [a || b] *)
Definition or (a b : value) : value := if truthy a then a else b.

(** [a ?? b] *)
Definition nullish (a b : value) : value :=
  match a with
  | None | Some JNull => b
  | Some _ => a
  end.

Fixpoint assoc (k : string) (fs : list (string * json)) : value :=
  match fs with
  | [] => None
  | (k', v) :: rest => if String.eqb k k' then Some v else assoc k rest
  end.

(** [j.k] on a value that is neither [null] nor [undefined]: only objects
    have the property names the sources read. *)
Definition prop (j : json) (k : string) : value :=
  match j with
  | JObj fs => assoc k fs
  | _ => None
  end.

(** [v.k]: throws on [null] and [undefined]. *)
Definition get (v : value) (k : string) : outcome value :=
  match v with
  | None | Some JNull => Throw TypeError
  | Some j => Ok (prop j k)
  end.

(** [v?.k] *)
Definition opt_get (v : value) (k : string) : value :=
  match v with
  | None | Some JNull => None
  | Some j => prop j k
  end.

(** [Array.isArray(v)] *)
Definition isArray (v : value) : bool :=
  match v with
  | Some (JArr _) => true
  | _ => false
  end.

Definition Z_to_string (n : Z) : string := NilZero.string_of_int (Z.to_int n).

Fixpoint join_strings (sep : string) (l : list string) : string :=
  match l with
  | [] => ""
  | [s] => s
  | s :: rest => s +:+ sep +:+ join_strings sep rest
  end.

(** [String(j)], where the conversion does not throw (see [string_of]). *)
Fixpoint to_string (j : json) : string :=
  match j with
  | JNull => "null"
  | JBool true => "true"
  | JBool false => "false"
  | JNum n => Z_to_string n
  | JStr s => s
  | JArr l =>
      join_strings ","
        (map (fun x => match x with JNull => "" | _ => to_string x end) l)
  | JObj _ => "[object Object]"
  end.

Definition value_to_string (v : value) : string :=
  match v with
  | None => "undefined"
  | Some j => to_string j
  end.

(** The conversion to a string throws: [toString] is looked up first, and
    an own [toString] of a parsed object is not callable; [valueOf], own or
    inherited, then gives no primitive. An array converts its elements,
    [null] apart. *)
Fixpoint unprintable (j : json) : bool :=
  match j with
  | JArr l => existsb unprintable l
  | JObj fs => existsb (fun kv => String.eqb (fst kv) "toString") fs
  | _ => false
  end.

Definition unprintable_value (v : value) : bool :=
  match v with
  | Some j => unprintable j
  | None => false
  end.

(** [String(v)], a template literal, a property key, a DOM string: the
    string of [to_string], or a [TypeError]. *)
Definition string_of (v : value) : outcome string :=
  if unprintable_value v then Throw TypeError else Ok (value_to_string v).

(** [arr.join(sep)] *)
Definition array_join (sep : string) (l : list json) : string :=
  join_strings sep
    (map (fun x => match x with JNull => "" | _ => to_string x end) l).

(** [s.slice(0, n)] *)
Fixpoint slice0 (n : nat) (s : string) : string :=
  match n, s with
  | O, _ => ""
  | S _, EmptyString => ""
  | S n', String c rest => String c (slice0 n' rest)
  end.

Arguments slice0 : simpl never.

Definition lower_ascii (c : ascii) : ascii :=
  let n := nat_of_ascii c in
  if (65 <=? n)%nat && (n <=? 90)%nat then ascii_of_nat (n + 32) else c.

(** [s.toLowerCase()] on the ASCII range; every comparison the sources
    make on a lower-cased string is against an ASCII literal. *)
Fixpoint toLowerCase (s : string) : string :=
  match s with
  | EmptyString => EmptyString
  | String c rest => String (lower_ascii c) (toLowerCase rest)
  end.

(** [(v || '').toLowerCase()]: a truthy value that is not a string has no
    such method. *)
Definition lower_or_empty (v : value) : outcome string :=
  match or v (Some (JStr "")) with
  | Some (JStr s) => Ok (toLowerCase s)
  | _ => Throw TypeError
  end.

End Js.

Notation "'let*' x ':=' m 'in' k" := (Js.bind m (fun x => k))
  (at level 10, x name, m at level 100, k at level 200).

Import Js.

(* ===================================================================== *)
(** * server.js *)
(* ===================================================================== *)

Module Proxy.

Definition AVATAR_LOOKUP_LIMIT : nat := 10.

(** [process.env]: the two optional credentials. *)
Record env : Type := {
  E621_LOGIN : option string;
  E621_API_KEY : option string
}.

(** [process.env.X || null] *)
Definition env_or_null (x : option string) : value :=
  Js.or (JStr <$> x) (Some JNull).

Definition DEFAULT_LOGIN (e : env) : value := env_or_null (E621_LOGIN e).
Definition DEFAULT_API_KEY (e : env) : value := env_or_null (E621_API_KEY e).

(** An outgoing request of [fetch(url, options)]. [req_tag] tells apart the
    avatar lookups of one run, which may ask for one URL more than once: it
    is the candidate a lookup is sent for and the place of the lookup in its
    batch, and [None] on every other request. The upstream answers the
    whole request, so two lookups of one user need not be answered alike. *)
Record request : Type := {
  req_url : string;
  req_method : string;
  req_headers : list (string * string);
  req_body : option (list (string * value));
  req_timeout : option Z;
  req_tag : option (string * nat)
}.

(** What the upstream answers: a reply, or the promise of [fetch] rejects. *)
Record reply : Type := {
  status : Z;
  content_type : option string;
  text : string
}.

Inductive fetch_result : Type :=
| Reply (r : reply)
| Failed (msg : string).

(** [r.ok] *)
Definition ok (r : reply) : bool := (200 <=? status r) && (status r <=? 299).

(** What a handler sends back: [res.status(s).json(b)]. *)
Record response : Type := {
  res_status : Z;
  res_body : json
}.

Definition error_body (msg : string) : json := JObj [("error", JStr msg)].

(** The normalized comment of the comments handler. *)
Record comment : Type := {
  id : value;
  body : value;
  creator_id : value;
  creator_name : value;
  avatar_url : value
}.

(** [lastErr] of the comments handler. *)
Inductive last_err : Type :=
| ErrNull
| ErrHttp (url : string) (st : Z) (contentType : string) (snippet : string)
| ErrThrown (url : string) (error : exn).

Inductive comments_response : Type :=
| CommentsOk (results : list comment)
| CommentsBadGateway (debug : last_err).

Definition comments_status (r : comments_response) : Z :=
  match r with
  | CommentsOk _ => 200
  | CommentsBadGateway _ => 502
  end.

(** One pass of the fallback loop: the candidate is used or the loop goes on
    with a new [lastErr]. *)
Inductive attempt_result : Type :=
| Accepted (results : list comment)
| Rejected (e : last_err).

(** [q || d] on an optional query-string parameter. *)
Definition str_or (q : option string) (d : string) : string :=
  match q with
  | Some s => if String.eqb s "" then d else s
  | None => d
  end.

Record posts_query : Type := {
  q_tags : option string;
  q_page : option string;
  q_limit : option string
}.

(** The body of a vote, favorite or unfavorite request, destructured. *)
Record mutation_body : Type := {
  b_score : value;
  b_post_id : value;
  b_login : value;
  b_api_key : value
}.

(** [data.posts = v] on an object. *)
Fixpoint set_field (k : string) (v : json) (fs : list (string * json))
  : list (string * json) :=
  match fs with
  | [] => [(k, v)]
  | (k', v') :: rest =>
      if String.eqb k k' then (k, v) :: rest else (k', v') :: set_field k v rest
  end.

(** [p => (p?.file?.ext || '').toLowerCase() !== 'swf'] *)
Definition not_swf (p : json) : outcome bool :=
  let* e := lower_or_empty (opt_get (opt_get (Some p) "file") "ext") in
  Ok (negb (String.eqb e "swf")).

(** [arr.filter(pred)] with a predicate that may throw. *)
Fixpoint filter_posts (ps : list json) : outcome (list json) :=
  match ps with
  | [] => Ok []
  | p :: rest =>
      let* keep := not_swf p in
      let* rest' := filter_posts rest in
      Ok (if keep then p :: rest' else rest')
  end.

(** [arr.map(f)] with a function that may throw. *)
Fixpoint map_outcome {A B} (f : A -> outcome B) (l : list A) : outcome (list B) :=
  match l with
  | [] => Ok []
  | a :: rest =>
      let* b := f a in
      let* rest' := map_outcome f rest in
      Ok (b :: rest')
  end.

(** SameValueZero, the equality of [Set]: primitives by value; two objects
    or arrays of a parsed tree are never the same reference. *)
Definition same_value_zero (a b : value) : bool :=
  match a, b with
  | None, None => true
  | Some JNull, Some JNull => true
  | Some (JBool x), Some (JBool y) => Bool.eqb x y
  | Some (JNum x), Some (JNum y) => x =? y
  | Some (JStr x), Some (JStr y) => String.eqb x y
  | _, _ => false
  end.

(** [Array.from(new Set(l))]: insertion order, later duplicates dropped. *)
Definition set_add (acc : list value) (x : value) : list value :=
  if existsb (same_value_zero x) acc then acc else acc ++ [x].

Definition array_from_set (l : list value) : list value :=
  fold_left set_add l [].

(** [Object.fromEntries(entries)]: each key is converted to a property
    key, which may throw; a later entry overrides an earlier one with the
    same key. *)
Definition fromEntries (entries : list (value * value))
  : outcome (gmap string value) :=
  fold_left
    (fun acc kv =>
       let* m := acc in
       let* key := string_of (fst kv) in
       Ok (<[key := snd kv]> m))
    entries (Ok ∅).

(** The names [Object.prototype] has in Node. *)
Definition object_prototype : list string :=
  ["constructor"; "__defineGetter__"; "__defineSetter__"; "hasOwnProperty";
   "__lookupGetter__"; "__lookupSetter__"; "isPrototypeOf";
   "propertyIsEnumerable"; "toString"; "valueOf"; "__proto__";
   "toLocaleString"].

(** What reading a key of a plain object finds: the own property, or a
    member of [Object.prototype], or nothing. *)
Inductive slot : Type :=
| Own (v : value)
| Inherited (member : string)
| NoSlot.

(** [avatarMap[key]] *)
Definition read (m : gmap string value) (key : string) : slot :=
  match m !! key with
  | Some v => Own v
  | None =>
      if existsb (String.eqb key) object_prototype then Inherited key
      else NoSlot
  end.

(** A member of [Object.prototype] in the JSON of a response: every member
    is a function, which [JSON.stringify] leaves out, but [__proto__],
    which reads as [Object.prototype] itself and is written [{}]. *)
Definition inherited_json (member : string) : value :=
  if String.eqb member "__proto__" then Some (JObj []) else None.

Section Handlers.

Variable cfg : env.
Variable fetch : request -> fetch_result.
Variable JSON_parse : string -> option json.
Variable encodeURIComponent : string -> string.
Variable base64 : string -> string.

Definition buildHeaders : list (string * string) :=
  let headers :=
    [("User-Agent",
      "LocalE621Viewer/1.0 (by "
        +:+ value_to_string (Js.or (DEFAULT_LOGIN cfg) (Some (JStr "unknown")))
        +:+ " on e621)");
     ("Accept", "application/json")] in
  if truthy (DEFAULT_LOGIN cfg) && truthy (DEFAULT_API_KEY cfg) then
    let token :=
      base64 (value_to_string (DEFAULT_LOGIN cfg) +:+ ":"
                +:+ value_to_string (DEFAULT_API_KEY cfg)) in
    headers ++ [("Authorization", "Basic " +:+ token)]
  else headers.

Definition get_request (url : string) (timeout : option Z) : request :=
  {| req_url := url; req_method := "GET"; req_headers := buildHeaders;
     req_body := None; req_timeout := timeout; req_tag := None |}.

(** ** Posts *)

Definition posts_url (q : posts_query) : string :=
  let tags := str_or (q_tags q) "" in
  let page := str_or (q_page q) "1" in
  let limit := str_or (q_limit q) "10" in
  let finalTags := tags +:+ " -type:swf" in
  "https://e621.net/posts.json?tags=" +:+ encodeURIComponent finalTags
    +:+ "&page=" +:+ page +:+ "&limit=" +:+ limit.

(** The [try] block of the posts handler, after the upstream answered. *)
Definition posts_try (q : posts_query) : outcome json :=
  match fetch (get_request (posts_url q) None) with
  | Failed msg => Throw (FetchError msg)
  | Reply r =>
      match JSON_parse (text r) with
      | None => Throw SyntaxError
      | Some data =>
          if truthy (Some data) && isArray (prop data "posts") then
            match data, prop data "posts" with
            | JObj fs, Some (JArr ps) =>
                let* kept := filter_posts ps in
                Ok (JObj (set_field "posts" (JArr kept) fs))
            | _, _ => Ok data
            end
          else Ok data
      end
  end.

Definition posts_handler (q : posts_query) : response :=
  match posts_try q with
  | Ok data => {| res_status := 200; res_body := data |}
  | Throw _ =>
      {| res_status := 500; res_body := error_body "Failed to fetch posts." |}
  end.

(** ** Vote, favorite, unfavorite *)

Definition merged_login (b : mutation_body) : value :=
  Js.or (DEFAULT_LOGIN cfg) (b_login b).

Definition merged_api_key (b : mutation_body) : value :=
  Js.or (DEFAULT_API_KEY cfg) (b_api_key b).

Definition mutation_request (url method : string)
    (payload : list (string * value)) : request :=
  {| req_url := url; req_method := method;
     req_headers := buildHeaders ++ [("Content-Type", "application/json")];
     req_body := Some payload; req_timeout := None; req_tag := None |}.

Definition vote_request (id : string) (b : mutation_body) : request :=
  mutation_request ("https://e621.net/posts/" +:+ id +:+ "/votes.json") "POST"
    [("score", b_score b); ("login", merged_login b);
     ("api_key", merged_api_key b)].

Definition favorite_request (b : mutation_body) : request :=
  mutation_request "https://e621.net/favorites.json" "POST"
    [("post_id", b_post_id b); ("login", merged_login b);
     ("api_key", merged_api_key b)].

Definition unfavorite_request (id : string) (b : mutation_body) : request :=
  mutation_request ("https://e621.net/favorites/" +:+ id +:+ ".json") "DELETE"
    [("login", merged_login b); ("api_key", merged_api_key b)].

(** The [try] and [catch] of a mutation handler: the request is sent, the
    upstream status and body are relayed, and any failure is a 500. The
    first component is what the handler sent upstream. *)
Definition relay (rq : request) (failure : string) : list request * response :=
  ([rq],
   match fetch rq with
   | Failed _ => {| res_status := 500; res_body := error_body failure |}
   | Reply r =>
       match JSON_parse (text r) with
       | None => {| res_status := 500; res_body := error_body failure |}
       | Some result => {| res_status := status r; res_body := result |}
       end
   end).

Definition vote_handler (id : string) (b : mutation_body)
  : list request * response :=
  relay (vote_request id b) "Vote failed.".

Definition favorite_handler (b : mutation_body) : list request * response :=
  relay (favorite_request b) "Favorite failed.".

Definition unfavorite_handler (id : string) (b : mutation_body)
  : list request * response :=
  relay (unfavorite_request id b) "Unfavorite failed.".

(** ** Comments: fallback chain, normalization, avatar enrichment *)

Definition comment_urls (postId : string) : list string :=
  ["https://e621.net/posts/" +:+ postId +:+ "/comments.json";
   "https://e621.net/comments.json?post_id=" +:+ postId;
   "https://e621.net/comments.json?search%5Bpost_id%5D=" +:+ postId].

(** The callback of [limited.map]: reading a property of [null] throws. *)
Definition normalize (c : json) : outcome comment :=
  let* c_id := get (Some c) "id" in
  Ok {| id := c_id;
        body := Js.or (Js.or (prop c "body") (prop c "body_html"))
                  (Some (JStr ""));
        creator_id := Js.or (prop c "creator_id") (Some JNull);
        creator_name := Js.or (Js.or (prop c "creator_name") (prop c "author"))
                          (Some (JStr "Unknown"));
        avatar_url := Some JNull |}.

Definition avatar_ids (results : list comment) : list value :=
  take AVATAR_LOOKUP_LIMIT
    (array_from_set (List.filter truthy (map creator_id results))).

Definition users_url (creatorId : string) : string :=
  "https://e621.net/users/" +:+ creatorId +:+ ".json".

(** The request of the lookup number [i] of the batch of [candidate]. *)
Definition lookup_request (candidate : string) (i : nat) (creatorId : value)
  : request :=
  {| req_url := users_url (value_to_string creatorId); req_method := "GET";
     req_headers := buildHeaders; req_body := None;
     req_timeout := Some 6000; req_tag := Some (candidate, i) |}.

(** What the upstream's answer to a lookup gives as the avatar. *)
Definition avatar_of (answer : fetch_result) : outcome value :=
  match answer with
  | Failed msg => Throw (FetchError msg)
  | Reply ur =>
      if negb (ok ur) then Ok (Some JNull)
      else
        match JSON_parse (text ur) with
        | None => Ok (Some JNull)
        | Some uJson =>
            let* user := get (Some uJson) "user" in
            let u := Js.or user (Some uJson) in
            Ok (Js.or
                  (Js.or
                     (Js.or (opt_get u "avatar_url")
                        (opt_get (opt_get u "avatar") "url"))
                     (opt_get u "avatar"))
                  (Some JNull))
        end
  end.

(** The [try] block of one avatar lookup: the URL is built, which converts
    the id to a string, the request is sent and the avatar is read. The
    first component is the request, when one was sent. *)
Definition lookup_try (candidate : string) (i : nat) (creatorId : value)
  : list request * outcome value :=
  match string_of creatorId with
  | Throw e => ([], Throw e)
  | Ok _ =>
      ([lookup_request candidate i creatorId],
       avatar_of (fetch (lookup_request candidate i creatorId)))
  end.

(** One entry [[creatorId, avatar]] of the batch; the [catch] gives
    [null]. *)
Definition lookup (candidate : string) (i : nat) (creatorId : value)
  : value * value :=
  match snd (lookup_try candidate i creatorId) with
  | Ok avatar => (creatorId, avatar)
  | Throw _ => (creatorId, Some JNull)
  end.

Definition with_avatar (item : comment) (avatar : value) : comment :=
  {| id := id item; body := body item; creator_id := creator_id item;
     creator_name := creator_name item; avatar_url := avatar |}.

(** The body of [for (const item of results)]. Reading [avatarMap] converts
    the creator id to a property key. [avatar_url] is what the JSON of the
    response carries: [None] when the field is left out. *)
Definition set_avatar (avatarMap : gmap string value) (item : comment)
  : outcome comment :=
  if truthy (creator_id item) then
    let* key := string_of (creator_id item) in
    match read avatarMap key with
    | Own v => Ok (if truthy v then with_avatar item v else item)
    | Inherited member => Ok (with_avatar item (inherited_json member))
    | NoSlot => Ok item
    end
  else Ok item.

(** The enrichment step: the requests it sends and the enriched list, or
    the exception that ends the candidate. *)
Definition enrich (candidate : string) (results : list comment)
  : list request * outcome (list comment) :=
  let avatarIds := avatar_ids results in
  if (length avatarIds =? 0)%nat then ([], Ok results)
  else
    let avatars := imap (lookup candidate) avatarIds in
    (concat (imap (fun i v => fst (lookup_try candidate i v)) avatarIds),
     let* avatarMap := fromEntries avatars in
     map_outcome (set_avatar avatarMap) results).

Definition http_err (url : string) (r : reply) : last_err :=
  ErrHttp url (status r) (toLowerCase (str_or (content_type r) ""))
    (slice0 250 (text r)).

(** [Array.isArray(payload) ? payload : (payload.comments || [])] *)
Definition comments_of (payload : json) : outcome value :=
  if isArray (Some payload) then Ok (Some payload)
  else
    let* cs := get (Some payload) "comments" in
    Ok (Js.or cs (Some (JArr []))).

(** The inner [try] block for one candidate, after its request was sent:
    the lookups sent, and what the loop does next or the exception the
    [catch] gets. *)
Definition attempt_try (url : string)
  : list request * outcome attempt_result :=
  match fetch (get_request url None) with
  | Failed msg => ([], Throw (FetchError msg))
  | Reply r =>
      if negb (ok r) then ([], Ok (Rejected (http_err url r)))
      else
        match JSON_parse (text r) with
        | None => ([], Ok (Rejected (http_err url r)))
        | Some payload =>
            match comments_of payload with
            | Throw e => ([], Throw e)
            | Ok (Some (JArr cs)) =>
                let limited := take 50 cs in
                match map_outcome normalize limited with
                | Throw e => ([], Throw e)
                | Ok results =>
                    let '(log, enriched) := enrich url results in
                    (log, let* rs := enriched in Ok (Accepted rs))
                end
            | Ok _ => ([], Ok (Rejected (http_err url r)))
            end
        end
  end.

Definition attempt (url : string) : list request * attempt_result :=
  let '(log, o) := attempt_try url in
  (get_request url None :: log,
   match o with
   | Ok a => a
   | Throw e => Rejected (ErrThrown url e)
   end).

(** [for (const url of urls)]: the requests issued, in order, and the
    response. *)
Fixpoint fallback (urls : list string) (lastErr : last_err)
  : list request * comments_response :=
  match urls with
  | [] => ([], CommentsBadGateway lastErr)
  | url :: rest =>
      match attempt url with
      | (log, Accepted results) => (log, CommentsOk results)
      | (log, Rejected e) =>
          let '(log', resp) := fallback rest e in (log ++ log', resp)
      end
  end.

Definition comments_handler (postId : string)
  : list request * comments_response :=
  fallback (comment_urls postId) ErrNull.

End Handlers.

End Proxy.

(* ===================================================================== *)
(** * The feed controller (client script) *)
(* ===================================================================== *)

Module Feed.

Definition POSTS_PER_PAGE : Z := 10.
Definition DEFAULT_TAGS : string := "order:score rating:s".

Definition KEEP_BEHIND : Z := 10.
Definition PRELOAD_AHEAD : Z := 5.

(** ** escapeHtml *)

Definition amp : ascii := "&"%char.
Definition lt : ascii := "<"%char.
Definition gt : ascii := ">"%char.
Definition dquote : ascii := "034"%char.
Definition squote : ascii := "'"%char.

(** [s.replaceAll(c, rep)] for a one-character pattern. *)
Fixpoint replaceAll (c : ascii) (rep : string) (s : string) : string :=
  match s with
  | EmptyString => EmptyString
  | String x rest =>
      if Ascii.eqb x c then rep +:+ replaceAll c rep rest
      else String x (replaceAll c rep rest)
  end.

(** The five replacements, in the order the source chains them. *)
Definition escape_string (s : string) : string :=
  replaceAll squote "&#039;"
    (replaceAll dquote "&quot;"
       (replaceAll gt "&gt;"
          (replaceAll lt "&lt;"
             (replaceAll amp "&amp;" s)))).

(** What [escapeHtml(s)] returns: [(s ?? '').toString()] followed by the
    replacements. *)
Definition escapeHtml (s : value) : string :=
  escape_string (value_to_string (nullish s (Some (JStr "")))).

(** The call [escapeHtml(s)]: [toString()] throws on a value that cannot
    be converted. *)
Definition escapeHtml_call (s : value) : outcome string :=
  let* _ := string_of (nullish s (Some (JStr ""))) in
  Ok (escapeHtml s).

(** ** Cards and the feed *)

Inductive media : Type :=
| Video (src : string)
| Image (src : string)
| MissingMedia.

(** A part of the template literal assigned to [info.innerHTML]: literal
    text, an interpolation inserted as it is, or an interpolation that went
    through [escapeHtml]. *)
Inductive segment : Type :=
| Lit (s : string)
| Raw (s : string)
| Escaped (s : string).

Definition segment_text (g : segment) : string :=
  match g with
  | Lit s | Raw s | Escaped s => s
  end.

Definition innerHTML (gs : list segment) : string :=
  fold_right (fun g acc => segment_text g +:+ acc) "" gs.

(** A [.post-card] element. [node] is the identity of the element,
    [offsetHeight] the height the browser laid it out with, [panel] the
    comments panel ([None]: not built yet, [Some b]: built, open iff [b]),
    [outsideTapHandler] the closure stored in [card._outsideTapHandler]. *)
Record card : Type := {
  node : nat;
  post : json;
  postId : string;
  card_media : media;
  info : list segment;
  offsetHeight : nat;
  panel : option bool;
  outsideTapHandler : option nat
}.

(** The feed element, the document's capturing click listeners and the
    globals of the script. [fresh] numbers new elements and closures. *)
Record feed_state : Type := {
  cards : list card;
  scrollTop : Z;
  clientHeight : Z;
  listeners : list nat;
  fresh : nat;
  currentPage : Z;
  loading : bool;
  isForceScrolling : bool;
  isMobile : bool
}.

Definition getCards (st : feed_state) : list card := cards st.

Definition set_cards (cs : list card) (st : feed_state) : feed_state :=
  {| cards := cs; scrollTop := scrollTop st; clientHeight := clientHeight st;
     listeners := listeners st; fresh := fresh st;
     currentPage := currentPage st; loading := loading st;
     isForceScrolling := isForceScrolling st; isMobile := isMobile st |}.

Definition set_scrollTop (top : Z) (st : feed_state) : feed_state :=
  {| cards := cards st; scrollTop := top; clientHeight := clientHeight st;
     listeners := listeners st; fresh := fresh st;
     currentPage := currentPage st; loading := loading st;
     isForceScrolling := isForceScrolling st; isMobile := isMobile st |}.

Definition set_listeners (ls : list nat) (st : feed_state) : feed_state :=
  {| cards := cards st; scrollTop := scrollTop st;
     clientHeight := clientHeight st;
     listeners := ls; fresh := fresh st;
     currentPage := currentPage st; loading := loading st;
     isForceScrolling := isForceScrolling st; isMobile := isMobile st |}.

Definition set_fresh (n : nat) (st : feed_state) : feed_state :=
  {| cards := cards st; scrollTop := scrollTop st;
     clientHeight := clientHeight st;
     listeners := listeners st; fresh := n;
     currentPage := currentPage st; loading := loading st;
     isForceScrolling := isForceScrolling st; isMobile := isMobile st |}.

Definition set_loading (b : bool) (st : feed_state) : feed_state :=
  {| cards := cards st; scrollTop := scrollTop st;
     clientHeight := clientHeight st;
     listeners := listeners st; fresh := fresh st;
     currentPage := currentPage st; loading := b;
     isForceScrolling := isForceScrolling st; isMobile := isMobile st |}.

Definition set_currentPage (p : Z) (st : feed_state) : feed_state :=
  {| cards := cards st; scrollTop := scrollTop st;
     clientHeight := clientHeight st;
     listeners := listeners st; fresh := fresh st;
     currentPage := p; loading := loading st;
     isForceScrolling := isForceScrolling st; isMobile := isMobile st |}.

Definition set_clientHeight (h : Z) (st : feed_state) : feed_state :=
  {| cards := cards st; scrollTop := scrollTop st; clientHeight := h;
     listeners := listeners st; fresh := fresh st;
     currentPage := currentPage st; loading := loading st;
     isForceScrolling := isForceScrolling st; isMobile := isMobile st |}.

(** The state after [DOMContentLoaded] set [isMobile], before the first
    page arrives. *)
Definition boot (mobile : bool) (viewport : Z) : feed_state :=
  {| cards := []; scrollTop := 0; clientHeight := viewport;
     listeners := []; fresh := 0%nat;
     currentPage := 1; loading := false;
     isForceScrolling := false; isMobile := mobile |}.

(** ** Layout: cards are stacked in the feed, which is their offset parent *)

Definition heights (cs : list card) : Z :=
  fold_right (fun c acc => Z.of_nat (offsetHeight c) + acc) 0 cs.

(** [cards[i].offsetTop] *)
Definition offsetTop (cs : list card) (i : nat) : Z := heights (take i cs).

Definition indexed {A} (l : list A) : list (nat * A) :=
  combine (seq 0 (length l)) l.

(** ** getCurrentIndexInFeed *)

(** [dist < bestDist], where [None] is [Infinity]. *)
Definition closer (dist : Q) (bestDist : option Q) : bool :=
  match bestDist with
  | None => true
  | Some b => negb (Qle_bool b dist)
  end.

(** The callback of [cards.forEach]. *)
Definition visit (cs : list card) (mid : Q) (acc : nat * option Q)
    (e : nat * card) : nat * option Q :=
  let '(i, c) := e in
  let center :=
    (inject_Z (offsetTop cs i) + inject_Z (Z.of_nat (offsetHeight c)) / 2)%Q in
  let dist := Qabs (center - mid) in
  if closer dist (snd acc) then (i, Some dist) else acc.

Definition getCurrentIndexInFeed (st : feed_state) : nat :=
  let cs := getCards st in
  if (length cs =? 0)%nat then 0%nat
  else
    let mid := (inject_Z (scrollTop st) + inject_Z (clientHeight st) / 2)%Q in
    fst (fold_left (visit cs mid) (indexed cs) (0%nat, None)).

(** [ensurePreload]: whether the next page is requested. *)
Definition ensurePreload (st : feed_state) : bool :=
  let cs := getCards st in
  let idx := Z.of_nat (getCurrentIndexInFeed st) in
  let ahead := Z.of_nat (length cs) - idx - 1 in
  ahead <? PRELOAD_AHEAD.

(** ** addPost *)

Definition nl : string := String "010"%char EmptyString.

(** [artists.length ? artists.join(', ') : 'unknown'] with
    [artists = post?.tags?.artist || []]: a string or an object with a truthy
    [length] has no [join] to call, and [join] converts the elements of an
    array to strings. *)
Definition artist_text (p : value) : outcome string :=
  match Js.or (opt_get (opt_get p "tags") "artist") (Some (JArr [])) with
  | Some (JArr l) =>
      if (length l =? 0)%nat then Ok "unknown"
      else if existsb unprintable l then Throw TypeError
      else Ok (array_join ", " l)
  | Some (JStr s) =>
      if (String.length s =? 0)%nat then Ok "unknown" else Throw TypeError
  | Some (JObj fs) =>
      if truthy (assoc "length" fs) then Throw TypeError else Ok "unknown"
  | _ => Ok "unknown"
  end.

(** [post?.description ? post.description : ''] *)
Definition description_of (p : value) : value :=
  if truthy (opt_get p "description") then opt_get p "description"
  else Some (JStr "").

Section Controller.

(** [a - b] of JavaScript on two values (operands are coerced to numbers). *)
Variable js_minus : value -> value -> value.

(** The template literal assigned to [info.innerHTML]; each interpolation
    is converted to a string, which may throw. A total that the post does
    not give is the number [up - down], whose operands are converted when it
    is computed. *)
Definition card_info (p : value) : outcome (list segment) :=
  let* artistText := artist_text p in
  let up := nullish (opt_get (opt_get p "score") "up") (Some (JNum 0)) in
  let down := nullish (opt_get (opt_get p "score") "down") (Some (JNum 0)) in
  let total :=
    nullish (opt_get (opt_get p "score") "total") (js_minus up down) in
  let desc := description_of p in
  let commentCount := nullish (opt_get p "comment_count") (Some (JNum 0)) in
  let* artistHtml := escapeHtml_call (Some (JStr artistText)) in
  let* totalText :=
    match opt_get (opt_get p "score") "total" with
    | None | Some JNull =>
        (* [up - down] converts both operands, and gives a number *)
        let* _ := string_of up in
        let* _ := string_of down in
        Ok (value_to_string total)
    | Some _ => string_of total
    end in
  let* upText := string_of up in
  let* downText := string_of down in
  let* countText := string_of commentCount in
  let* descHtml :=
    if truthy desc then
      let* html := escapeHtml_call desc in
      Ok [Lit ("<div style=" +:+ String dquote "margin-top:6px; opacity:0.95;"
                 +:+ String dquote ">");
          Escaped (slice0 300 html);
          Lit "</div>"]
    else Ok [Lit ""] in
  Ok ([Lit (nl +:+ "    <div><strong>Artist:</strong> ");
       Escaped artistHtml;
       Lit ("</div>" +:+ nl +:+ "    <div><strong>Score:</strong> ");
       Raw totalText;
       Lit " (⬆ ";
       Raw upText;
       Lit " / ⬇ ";
       Raw downText;
       Lit (")</div>" +:+ nl +:+ "    <div><strong>Comments:</strong> ");
       Raw countText;
       Lit ("</div>" +:+ nl +:+ "    ")]
      ++ descHtml
      ++ [Lit (nl +:+ "  ")]).

(** [addPost(post)]: the card is appended to the feed only if nothing threw
    before. [dataset.postId] and [src] take strings, so the id and the URL
    are converted. [h] is the height the browser gives the new element. *)
Definition addPost (h : nat -> nat) (p : json) (st : feed_state)
  : outcome feed_state :=
  let* pid := get (Some p) "id" in
  let* pidText := string_of pid in
  let* ext := lower_or_empty (opt_get (opt_get (Some p) "file") "ext") in
  let url := opt_get (opt_get (Some p) "file") "url" in
  let isVideo := existsb (String.eqb ext) ["webm"; "mp4"] in
  let* mediaEl :=
    if truthy url then
      let* src := string_of url in
      Ok (if isVideo then Video src else Image src)
    else Ok MissingMedia in
  let* html := card_info (Some p) in
  let n := fresh st in
  Ok (set_fresh (S n)
        (set_cards
           (cards st ++
              [{| node := n; post := p; postId := pidText;
                  card_media := mediaEl; info := html;
                  offsetHeight := h n; panel := None;
                  outsideTapHandler := None |}])
           st)).

(** ** fetchPosts *)

(** The [for (const post of posts)] loop; the second component is the
    exception that ended it, if any. *)
Fixpoint render_posts (h : nat -> nat) (posts : list json) (st : feed_state)
  : feed_state * option exn :=
  match posts with
  | [] => (st, None)
  | p :: rest =>
      match lower_or_empty (opt_get (opt_get (Some p) "file") "ext") with
      | Throw e => (st, Some e)
      | Ok ext =>
          if String.eqb ext "swf" then render_posts h rest st
          else
            match addPost h p st with
            | Throw e => (st, Some e)
            | Ok st' => render_posts h rest st'
            end
      end
  end.

(** [fetchPosts()], from the guard to the [finally]; [data] is what
    [await resp.json()] gives for the page requested. *)
Definition fetchPosts (data : outcome json) (h : nat -> nat)
    (st : feed_state) : feed_state :=
  if loading st then st
  else
    let st := set_loading true st in
    match data with
    | Throw _ => set_loading false st
    | Ok d =>
        match Js.or (opt_get (Some d) "posts") (Some (JArr [])) with
        | Some (JArr (p :: ps)) =>
            match render_posts h (p :: ps) st with
            | (st', None) =>
                set_loading false (set_currentPage (currentPage st' + 1) st')
            | (st', Some _) => set_loading false st'
            end
        | _ => set_loading false st
        end
    end.

(** ** toggleComments, up to its first [await]

    [n] is the element of a card. The state holds the cards that are in
    the feed, so the function is modelled on those: a call for a card that
    a prune removed, which the handler such a card left registered can
    still make, finds no card and leaves the state as it is. *)

Definition removeEventListener (h : nat) (ls : list nat) : list nat :=
  List.filter (fun x => negb (x =? h)%nat) ls.

Definition update_card (n : nat) (f : card -> card) (cs : list card)
  : list card :=
  map (fun c => if (node c =? n)%nat then f c else c) cs.

Definition set_panel (open : bool) (handler : option nat) (c : card) : card :=
  {| node := node c; post := post c; postId := postId c;
     card_media := card_media c; info := info c;
     offsetHeight := offsetHeight c; panel := Some open;
     outsideTapHandler := handler |}.

Definition toggleComments (n : nat) (st : feed_state) : feed_state :=
  match List.find (fun c => (node c =? n)%nat) (cards st) with
  | None => st
  | Some c =>
      match panel c with
      | Some true =>
          match outsideTapHandler c with
          | Some hd =>
              set_listeners (removeEventListener hd (listeners st))
                (set_cards (update_card n (set_panel false None) (cards st)) st)
          | None =>
              set_cards (update_card n (set_panel false None) (cards st)) st
          end
      | _ =>
          if isMobile st then
            let handler := fresh st in
            set_fresh (S handler)
              (set_listeners (listeners st ++ [handler])
                 (set_cards
                    (update_card n (set_panel true (Some handler)) (cards st))
                    st))
          else
            set_cards
              (update_card n (set_panel true (outsideTapHandler c)) (cards st))
              st
      end
  end.

(** ** pruneAroundCurrent *)

(** [el.remove()] *)
Definition remove_node (n : nat) (dom : list card) : list card :=
  List.filter (fun c => negb (node c =? n)%nat) dom.

(** Body of the first loop: [if (i > max) cards[i].remove()]. *)
Definition below_step (max : Z) (e : nat * card) (dom : list card)
  : list card :=
  if Z.of_nat (fst e) >? max then remove_node (node (snd e)) dom else dom.

(** Body of the second loop, on the feed's cards, the document's listeners
    and [removedAboveHeight]. *)
Definition above_step (min : Z) (acc : list card * list nat * Z)
    (e : nat * card) : list card * list nat * Z :=
  let '(dom, ls, removedAboveHeight) := acc in
  if Z.of_nat (fst e) <? min then
    (remove_node (node (snd e)) dom,
     match outsideTapHandler (snd e) with
     | Some hd => removeEventListener hd ls
     | None => ls
     end,
     removedAboveHeight + Z.of_nat (offsetHeight (snd e)))
  else acc.

(** [feed.scrollTop] once the feed holds the cards [dom] only. The feed is
    the scroll container and does not anchor its scroll position: when
    cards are removed the offset keeps its value as long as the cards left
    can scroll that far, and is brought back to the farthest they can
    otherwise. With nothing removed it is as it was. *)
Definition scrollTop_after (st : feed_state) (dom : list card) : Z :=
  if (length dom <? length (cards st))%nat then
    Z.min (scrollTop st) (Z.max 0 (heights dom - clientHeight st))
  else scrollTop st.

Definition pruneAroundCurrent (st : feed_state) : feed_state :=
  let cards1 := getCards st in
  if (length cards1 =? 0)%nat then st
  else
    let idx := Z.of_nat (getCurrentIndexInFeed st) in
    let min := Z.max 0 (idx - KEEP_BEHIND) in
    let max := Z.min (Z.of_nat (length cards1) - 1) (idx + PRELOAD_AHEAD) in
    (* for (let i = cards.length - 1; i >= 0; i--) *)
    let cards2 := fold_right (below_step max) cards1 (indexed cards1) in
    (* for (let i = 0; i < cards2.length; i++) *)
    let '(dom, ls, removedAboveHeight) :=
      fold_left (above_step min) (indexed cards2) (cards2, listeners st, 0) in
    let st' :=
      set_scrollTop (scrollTop_after st dom)
        (set_listeners ls (set_cards dom st)) in
    if removedAboveHeight >? 0 then
      (* feed.scrollTop = Math.max(0, feed.scrollTop - removedAboveHeight) *)
      set_scrollTop (Z.max 0 (scrollTop st' - removedAboveHeight)) st'
    else st'.

(** ** Events *)

Definition set_height (h : nat -> nat) (c : card) : card :=
  {| node := node c; post := post c; postId := postId c;
     card_media := card_media c; info := info c;
     offsetHeight := h (node c); panel := panel c;
     outsideTapHandler := outsideTapHandler c |}.

Inductive event : Type :=
| PageLoaded (data : outcome json) (h : nat -> nat)
| Scrolled (top : Z)
| Resized (viewport : Z)
| Relayout (h : nat -> nat)
| CommentsTapped (n : nat)
| Settled.

Definition step (st : feed_state) (ev : event) : feed_state :=
  match ev with
  | PageLoaded data h => fetchPosts data h st
  | Scrolled top => set_scrollTop top st
  | Resized viewport => set_clientHeight viewport st
  | Relayout h => set_cards (map (set_height h) (cards st)) st
  | CommentsTapped n => toggleComments n st
  | Settled => pruneAroundCurrent st
  end.

Definition run (st : feed_state) (evs : list event) : feed_state :=
  fold_left step evs st.

End Controller.

End Feed.


(* ===================================================================== *)
(** * The gestures of the client script: wheel, arrow keys, swipe *)
(* ===================================================================== *)

Module Gestures.

Import Feed.

Definition set_isForceScrolling (b : bool) (st : feed_state) : feed_state :=
  {| cards := cards st; scrollTop := scrollTop st;
     clientHeight := clientHeight st;
     listeners := listeners st; fresh := fresh st;
     currentPage := currentPage st; loading := loading st;
     isForceScrolling := b; isMobile := isMobile st |}.

(** [a < b] on numbers. *)
Definition Qlt_bool (a b : Q) : bool := negb (Qle_bool b a).

(** [scrollToCardIndex(i)], up to its timers: the flag is raised and a
    smooth scroll to the top of the card is requested; the second component
    is the [top] passed to [feed.scrollTo], [None] when the feed is empty
    and nothing is requested. *)
Definition scrollToCardIndex (i : Z) (st : feed_state)
  : feed_state * option Z :=
  let cs := getCards st in
  if (length cs =? 0)%nat then (st, None)
  else
    let idx := Z.max 0 (Z.min i (Z.of_nat (length cs) - 1)) in
    (set_isForceScrolling true st, Some (offsetTop cs (Z.to_nat idx))).

(** The [wheel] listener of the feed. *)
Definition wheel (deltaX deltaY : Q) (st : feed_state)
  : feed_state * option Z :=
  if isMobile st then (st, None)
  else if isForceScrolling st then (st, None)
  else if Qlt_bool (Qabs deltaY) (Qabs deltaX) then (st, None)
  else if Qlt_bool (Qabs deltaY) 12 then (st, None)
  else
    let idx := Z.of_nat (getCurrentIndexInFeed st) in
    scrollToCardIndex (if Qlt_bool 0 deltaY then idx + 1 else idx - 1) st.

(** The [keydown] listener of the window. *)
Definition keydown (key : string) (st : feed_state) : feed_state * option Z :=
  if String.eqb key "ArrowDown" then
    scrollToCardIndex (Z.of_nat (getCurrentIndexInFeed st) + 1) st
  else if String.eqb key "ArrowUp" then
    scrollToCardIndex (Z.of_nat (getCurrentIndexInFeed st) - 1) st
  else (st, None).

(** The [touchstart] listener: the new value of [touchStartY]. [touch] is
    [e.touches[0].clientY], [None] when there is no such touch. *)
Definition touchstart (touch : option Q) (st : feed_state)
    (touchStartY : option Q) : option Q :=
  if negb (isMobile st) then touchStartY
  else
    match touch with
    | None => touchStartY
    | Some y => Some y
    end.

(** The [touchend] listener: the state, the scroll requested and the new
    value of [touchStartY]. [changed] is [e.changedTouches[0].clientY]. *)
Definition touchend (changed : option Q) (st : feed_state)
    (touchStartY : option Q) : feed_state * option Z * option Q :=
  if negb (isMobile st) then (st, None, touchStartY)
  else
    match touchStartY with
    | None => (st, None, touchStartY)
    | Some startY =>
        let endY := match changed with Some y => y | None => startY end in
        let dy := (endY - startY)%Q in
        let idx := Z.of_nat (getCurrentIndexInFeed st) in
        let THRESH := 6%Q in
        (if Qlt_bool (Qabs dy) THRESH then scrollToCardIndex idx st
         else if Qlt_bool dy 0 then scrollToCardIndex (idx + 1) st
         else scrollToCardIndex (idx - 1) st,
         None)
    end.

End Gestures.

(* ===================================================================== *)
(** * The comments panel of the client script, fed by the proxy *)
(* ===================================================================== *)

Module Panel.

Import Proxy Feed.

Definition backslash : ascii := "\"%char.

Definition hex_digit (n : nat) : ascii :=
  nth n (list_ascii_of_string "0123456789abcdef") "0"%char.

(** One character of a string under [JSON.stringify]. *)
Definition quote_char (c : ascii) : string :=
  let n := nat_of_ascii c in
  if (n =? 34)%nat then String backslash (String dquote "")
  else if (n =? 92)%nat then String backslash (String backslash "")
  else if (n =? 8)%nat then String backslash "b"
  else if (n =? 12)%nat then String backslash "f"
  else if (n =? 10)%nat then String backslash "n"
  else if (n =? 13)%nat then String backslash "r"
  else if (n =? 9)%nat then String backslash "t"
  else if (n <? 32)%nat then
    String backslash
      ("u00" +:+ String (hex_digit (n / 16))
                   (String (hex_digit (n mod 16)) ""))
  else String c "".

Fixpoint quote_chars (s : string) : string :=
  match s with
  | EmptyString => EmptyString
  | String c rest => quote_char c +:+ quote_chars rest
  end.

(** [JSON.stringify(s)] on a string. *)
Definition quote (s : string) : string :=
  String dquote (quote_chars s +:+ String dquote "").

(** What [bodyEl] shows: markup assigned to [innerHTML], or rows whose
    texts are assigned to [textContent] and whose image gets its [src]. *)
Record row : Type := {
  row_avatar : option string;
  row_author : string;
  row_message : string
}.

Inductive panel_body : Type :=
| PanelHtml (gs : list segment)
| PanelRows (rows : list row).

Section Client.

(** [String(e)] *)
Variable describe : exn -> string.

(** [JSON.stringify(data.debug, null, 2)] on the [lastErr] the proxy put
    in the body of its 502. *)
Definition debug_text (d : last_err) : string :=
  match d with
  | ErrNull => "null"
  | ErrHttp url st contentType snippet =>
      "{" +:+ nl
        +:+ "  " +:+ quote "url" +:+ ": " +:+ quote url +:+ "," +:+ nl
        +:+ "  " +:+ quote "status" +:+ ": " +:+ Z_to_string st +:+ "," +:+ nl
        +:+ "  " +:+ quote "contentType" +:+ ": " +:+ quote contentType
        +:+ "," +:+ nl
        +:+ "  " +:+ quote "snippet" +:+ ": " +:+ quote snippet +:+ nl
        +:+ "}"
  | ErrThrown url e =>
      "{" +:+ nl
        +:+ "  " +:+ quote "url" +:+ ": " +:+ quote url +:+ "," +:+ nl
        +:+ "  " +:+ quote "error" +:+ ": " +:+ quote (describe e) +:+ nl
        +:+ "}"
  end.

(** [data?.debug ? `\n\nDebug:\n${JSON.stringify(data.debug, null, 2)}` : ''] *)
Definition dbg_of (d : last_err) : string :=
  match d with
  | ErrNull => ""
  | _ => nl +:+ nl +:+ "Debug:" +:+ nl +:+ debug_text d
  end.

Definition error_panel (dbg : string) : panel_body :=
  PanelHtml
    [Lit ("<div class=" +:+ String dquote "comments-error" +:+ String dquote ">"
            +:+ "Failed to load comments.");
     Raw dbg;
     Lit "</div>"].

Definition empty_panel : panel_body :=
  PanelHtml
    [Lit ("<div class=" +:+ String dquote "comments-empty" +:+ String dquote ">"
            +:+ "No comments.</div>")].

(** The body of [for (const c of data)]: [src] and [textContent] take
    strings, so the avatar, the name and the body are converted, which may
    throw. *)
Definition row_of (c : comment) : outcome row :=
  let* avatar :=
    if truthy (avatar_url c) then
      let* src := string_of (avatar_url c) in
      Ok (Some src)
    else Ok None in
  let* author := string_of (Js.or (creator_name c) (Some (JStr "Unknown"))) in
  let* message := string_of (Js.or (body c) (Some (JStr ""))) in
  Ok {| row_avatar := avatar; row_author := author;
        row_message := message |}.

(** [toggleComments] after its [await]s, on what the proxy answered. When
    a row throws, the [catch] replaces whatever rows were appended by the
    error markup. *)
Definition comments_panel (resp : comments_response) : panel_body :=
  match resp with
  | CommentsBadGateway d => error_panel (dbg_of d)
  | CommentsOk [] => empty_panel
  | CommentsOk data =>
      match map_outcome row_of data with
      | Ok rows => PanelRows rows
      | Throw e => error_panel (nl +:+ describe e)
      end
  end.

End Client.

End Panel.

(* ===================================================================== *)
(** * Vocabulary of the properties *)
(* ===================================================================== *)

(** ** The proxy *)

Section ProxyVocabulary.

Import Proxy.

Variable cfg : env.
Variable fetch : request -> fetch_result.
Variable JSON_parse : string -> option json.
Variable base64 : string -> string.

Local Abbreviation get_request := (Proxy.get_request cfg base64).
Local Abbreviation lookup := (Proxy.lookup cfg fetch JSON_parse base64).

(** The server-side credential, when the environment variable is set to a
    non-empty string. *)
Definition configured (x : option string) : option string :=
  match x with
  | Some s => if String.eqb s "" then None else Some s
  | None => None
  end.

Definition forwarded (server : option string) (client : value) : value :=
  match configured server with
  | Some s => Some (JStr s)
  | None => client
  end.

(** What a comment keeps through the enrichment: everything but the avatar. *)
Definition same_comment (a b : comment) : Prop :=
  id b = id a /\ body b = body a /\ creator_id b = creator_id a
  /\ creator_name b = creator_name a.

(** A normalized comment against the upstream entry it was made from. *)
Definition normalized_from (c : json) (r : comment) : Prop :=
  creator_name r
    = Js.or (Js.or (prop c "creator_name") (prop c "author"))
        (Some (JStr "Unknown"))
  /\ body r
    = Js.or (Js.or (prop c "body") (prop c "body_html")) (Some (JStr ""))
  /\ truthy (creator_name r) = true
  /\ creator_name r <> Some (JStr "")
  /\ (truthy (prop c "body") = false -> truthy (prop c "body_html") = false ->
      body r = Some (JStr "")).

(** Why the loop moves on from a candidate. *)
Inductive reject_reason (url : string) : Prop :=
| request_failed msg :
    fetch (get_request url None) = Failed msg -> reject_reason url
| status_not_ok r :
    fetch (get_request url None) = Reply r -> ok r = false ->
    reject_reason url
| body_not_json r :
    fetch (get_request url None) = Reply r -> ok r = true ->
    JSON_parse (text r) = None -> reject_reason url
| body_null r :
    fetch (get_request url None) = Reply r -> ok r = true ->
    JSON_parse (text r) = Some JNull -> reject_reason url
| comments_not_array r payload :
    fetch (get_request url None) = Reply r -> ok r = true ->
    JSON_parse (text r) = Some payload ->
    isArray (Some payload) = false ->
    truthy (prop payload "comments") = true ->
    isArray (prop payload "comments") = false ->
    reject_reason url
| comment_null r payload cs :
    fetch (get_request url None) = Reply r -> ok r = true ->
    JSON_parse (text r) = Some payload ->
    comments_of payload = Ok (Some (JArr cs)) ->
    In JNull (take 50 cs) ->
    reject_reason url
| creator_unprintable r payload cs c :
    fetch (get_request url None) = Reply r -> ok r = true ->
    JSON_parse (text r) = Some payload ->
    comments_of payload = Ok (Some (JArr cs)) ->
    In c (take 50 cs) ->
    truthy (prop c "creator_id") = true ->
    unprintable_value (prop c "creator_id") = true ->
    reject_reason url.

(** The requests of a log that ask for a candidate URL: the avatar lookups
    are the ones sent with a timeout. *)
Definition candidate_requests (log : list request) : list request :=
  List.filter (fun rq => match req_timeout rq with None => true | Some _ => false end)
    log.

Definition last_url (postId : string) : string :=
  "https://e621.net/comments.json?search%5Bpost_id%5D=" +:+ postId.

(** No two entries are the same value for [Set]. *)
Definition distinct_ids (l : list value) : Prop :=
  ForallOrdPairs (fun a b => same_value_zero a b = false) l.

(** The avatar lookups of a log: the requests sent with a timeout. *)
Definition lookup_requests (log : list request) : list request :=
  List.filter (fun rq => match req_timeout rq with None => false | Some _ => true end)
    log.

(** The place, among the ids looked up, of the last one whose property key
    is [key]. *)
Definition last_with_key (ids : list value) (key : string) : option nat :=
  fold_left (fun acc o => match o with Some i => Some i | None => acc end)
    (imap (fun i v => if String.eqb (value_to_string v) key then Some i
                      else None) ids)
    None.

(** What the enrichment of [candidate], having looked up [ids], does to one
    comment [c], giving [c']. A comment without creator id keeps its avatar.
    Otherwise the avatar is read under the property key of the creator id:
    when ids looked up have that key, the result of the last of them is
    taken if it is truthy; when none has it, a member of [Object.prototype]
    of that name is taken; in every other case the avatar stays. *)
Definition enriched_from (candidate : string) (ids : list value)
    (c c' : comment) : Prop :=
  same_comment c c'
  /\ (truthy (creator_id c) = false -> avatar_url c' = avatar_url c)
  /\ (truthy (creator_id c) = true ->
      let key := value_to_string (creator_id c) in
      match last_with_key ids key with
      | Some i =>
          exists v,
            ids !! i = Some v /\ value_to_string v = key
            /\ avatar_url c'
               = (if truthy (snd (lookup candidate i v))
                  then snd (lookup candidate i v) else avatar_url c)
      | None =>
          avatar_url c'
          = (if existsb (String.eqb key) object_prototype
             then inherited_json key else avatar_url c)
      end).

End ProxyVocabulary.


(** ** The feed *)

Section FeedVocabulary.

Import Feed.

(** The characters that open or close a tag or an attribute value. *)
Definition markup_char (c : ascii) : bool :=
  Ascii.eqb c lt || Ascii.eqb c gt || Ascii.eqb c dquote || Ascii.eqb c squote.

Fixpoint no_markup (s : string) : bool :=
  match s with
  | EmptyString => true
  | String c rest => negb (markup_char c) && no_markup rest
  end.

(** What follows the ampersand of one of the five entities. *)
Definition entity_tail (rest : string) : bool :=
  String.prefix "amp;" rest || String.prefix "lt;" rest
  || String.prefix "gt;" rest || String.prefix "quot;" rest
  || String.prefix "#039;" rest.

(** No markup character, and every ampersand starts an entity. *)
Fixpoint well_escaped (s : string) : bool :=
  match s with
  | EmptyString => true
  | String c rest =>
      negb (markup_char c)
      && (if Ascii.eqb c amp then entity_tail rest else true)
      && well_escaped rest
  end.

(** The entity of a special character; any other character stays. *)
Definition escape_char (c : ascii) : string :=
  if Ascii.eqb c amp then "&amp;"
  else if Ascii.eqb c lt then "&lt;"
  else if Ascii.eqb c gt then "&gt;"
  else if Ascii.eqb c dquote then "&quot;"
  else if Ascii.eqb c squote then "&#039;"
  else String c EmptyString.

Fixpoint escape_chars (s : string) : string :=
  match s with
  | EmptyString => EmptyString
  | String c rest => escape_char c +:+ escape_chars rest
  end.

(** The literal parts of the template. *)
Definition template_literals : list string :=
  [nl +:+ "    <div><strong>Artist:</strong> ";
   "</div>" +:+ nl +:+ "    <div><strong>Score:</strong> ";
   " (⬆ "; " / ⬇ ";
   ")</div>" +:+ nl +:+ "    <div><strong>Comments:</strong> ";
   "</div>" +:+ nl +:+ "    ";
   "<div style=" +:+ String dquote "margin-top:6px; opacity:0.95;"
     +:+ String dquote ">";
   "</div>"; ""; nl +:+ "  "].

(** A segment of a card's markup is a literal of the template, a score or
    a count, or escaped text: the artists or the cut description. *)
Definition segment_ok (js_minus : value -> value -> value)
    (artistText : string) (p : value) (g : segment) : Prop :=
  let up := nullish (opt_get (opt_get p "score") "up") (Some (JNum 0)) in
  let down := nullish (opt_get (opt_get p "score") "down") (Some (JNum 0)) in
  let total :=
    nullish (opt_get (opt_get p "score") "total") (js_minus up down) in
  let commentCount := nullish (opt_get p "comment_count") (Some (JNum 0)) in
  match g with
  | Lit t => In t template_literals
  | Raw t => In t (map value_to_string [total; up; down; commentCount])
  | Escaped t =>
      no_markup t = true
      /\ (t = escapeHtml (Some (JStr artistText))
          \/ t = slice0 300 (escapeHtml (description_of p)))
  end.

(** [(post?.file?.ext || '').toLowerCase() === 'swf'], where it does not
    throw. *)
Definition swf_post (p : json) : bool :=
  match lower_or_empty (opt_get (opt_get (Some p) "file") "ext") with
  | Ok e => String.eqb e "swf"
  | Throw _ => false
  end.

(** The elements of the feed are distinct and older than [fresh]. *)
Definition wf (st : feed_state) : Prop :=
  NoDup (map node (cards st))
  /\ Forall (fun c => (node c < fresh st)%nat) (cards st).

(** The posts a page brings: [data?.posts || []] when it is an array. *)
Definition page_posts (data : outcome json) : list json :=
  match data with
  | Ok d =>
      match Js.or (opt_get (Some d) "posts") (Some (JArr [])) with
      | Some (JArr ps) => ps
      | _ => []
      end
  | Throw _ => []
  end.

(** The posts fetched during a session, in the order they arrived. *)
Definition fetched_posts (evs : list event) : list json :=
  flat_map (fun ev => match ev with
                      | PageLoaded data _ => page_posts data
                      | _ => []
                      end) evs.

(** The listeners left once the handlers of the cards [removed] are
    unregistered. *)
Definition unregister (removed : list card) (ls : list nat) : list nat :=
  fold_left
    (fun ls c =>
       match outsideTapHandler c with
       | Some hd => removeEventListener hd ls
       | None => ls
       end)
    removed ls.

Definition window_min (st : feed_state) : Z :=
  Z.max 0 (Z.of_nat (getCurrentIndexInFeed st) - KEEP_BEHIND).

Definition window_max (st : feed_state) : Z :=
  Z.min (Z.of_nat (length (cards st)) - 1)
        (Z.of_nat (getCurrentIndexInFeed st) + PRELOAD_AHEAD).

(** The cards before the window, the cards of the window, the cards after. *)
Definition above (st : feed_state) : list card :=
  take (Z.to_nat (window_min st)) (cards st).

Definition kept (st : feed_state) : list card :=
  drop (Z.to_nat (window_min st))
    (take (Z.to_nat (window_max st + 1)) (cards st)).

Definition below (st : feed_state) : list card :=
  drop (Z.to_nat (window_max st + 1)) (cards st).

(** The state a prune leaves. *)
Definition pruned (st : feed_state) : feed_state :=
  let st' := set_scrollTop (scrollTop_after st (kept st))
               (set_listeners (unregister (above st) (listeners st))
                  (set_cards (kept st) st)) in
  if heights (above st) >? 0 then
    set_scrollTop (Z.max 0 (scrollTop st' - heights (above st))) st'
  else st'.

(** The distance the callback of [forEach] computes for an entry. *)
Definition entry_dist (cs : list card) (mid : Q) (e : nat * card) : Q :=
  Qabs (inject_Z (offsetTop cs (fst e))
        + inject_Z (Z.of_nat (offsetHeight (snd e))) / 2 - mid).

(** The posts response of the scenario. *)
Definition webm_post : json :=
  JObj [("id", JNum 1);
        ("file", JObj [("ext", JStr "webm"); ("url", JStr "a.webm")])].

Definition swf_post_2 : json :=
  JObj [("id", JNum 2);
        ("file", JObj [("ext", JStr "swf"); ("url", JStr "b.swf")])].

Definition scenario_posts : json :=
  JObj [("posts", JArr [webm_post; swf_post_2])].

End FeedVocabulary.

(** ** More vocabulary: the proxy *)

Section MoreProxyVocabulary.

Import Proxy.

Variable cfg : env.
Variable fetch : request -> fetch_result.
Variable JSON_parse : string -> option json.
Variable encodeURIComponent : string -> string.
Variable base64 : string -> string.

(** The extension of the post is a truthy value that is not a string: the
    callback of the filter throws on it. *)
Definition ext_not_string (p : json) : Prop :=
  exists e, not_swf p = Throw e.

(** When the posts handler answers 500. *)
Definition posts_failure (q : posts_query) : Prop :=
  match fetch (Proxy.get_request cfg base64 (posts_url encodeURIComponent q) None)
  with
  | Failed _ => True
  | Reply r =>
      match JSON_parse (text r) with
      | None => True
      | Some data =>
          match prop data "posts" with
          | Some (JArr ps) => Exists ext_not_string ps
          | _ => False
          end
      end
  end.

(** A value is [null] or truthy. *)
Definition null_or_truthy (v : value) : Prop :=
  v = Some JNull \/ truthy v = true.

(** The name, the body and the avatar of the comment, when it has one,
    can be converted to strings. *)
Definition row_printable (c : comment) : bool :=
  negb (unprintable_value (creator_name c))
  && negb (unprintable_value (body c))
  && negb (truthy (avatar_url c) && unprintable_value (avatar_url c)).



End MoreProxyVocabulary.

(** ** More vocabulary: the feed *)

Section MoreFeedVocabulary.

Import Feed.

(** The centre of the viewport, as [getCurrentIndexInFeed] computes it. *)
Definition viewport_mid (st : feed_state) : Q :=
  (inject_Z (scrollTop st) + inject_Z (clientHeight st) / 2)%Q.

(** The closures the cards hold in [_outsideTapHandler], in feed order. *)
Definition handlers (cs : list card) : list nat :=
  flat_map (fun c => match outsideTapHandler c with
                     | Some hd => [hd]
                     | None => []
                     end) cs.

(** What holds of the click listeners of the document along a session:
    they are distinct closures created earlier; the cards of the feed hold
    distinct handlers; a card that holds a handler has it registered and
    its panel open; off a phone nothing is registered. *)
Definition listeners_ok (st : feed_state) : Prop :=
  NoDup (listeners st)
  /\ Forall (fun x => (x < fresh st)%nat) (listeners st)
  /\ NoDup (handlers (cards st))
  /\ Forall (fun c => forall hd, outsideTapHandler c = Some hd ->
                       In hd (listeners st) /\ panel c = Some true)
       (cards st)
  /\ (isMobile st = false -> listeners st = [] /\ handlers (cards st) = []).

(** How often a character occurs in a text. *)
Fixpoint occurrences (c : ascii) (s : string) : nat :=
  match s with
  | EmptyString => 0
  | String x rest => (if Ascii.eqb x c then 1 else 0) + occurrences c rest
  end.

(** The characters that matter in the text of an element. *)
Definition text_markup : list ascii := [lt; gt; amp; squote].

(** The five characters [escapeHtml] replaces. *)
Definition special_char (c : ascii) : bool :=
  Ascii.eqb c amp || markup_char c.

(** A text without any of them. *)
Fixpoint plain_text (s : string) : bool :=
  match s with
  | EmptyString => true
  | String c rest => negb (special_char c) && plain_text rest
  end.

(** The pages that arrive during a run of events. *)
Definition pages_loaded (evs : list event) : nat :=
  length (List.filter (fun ev => match ev with
                                 | PageLoaded _ _ => true
                                 | _ => false
                                 end) evs).

(** The four values [addPost] interpolates without [escapeHtml]: the
    total, the up and the down score, and the comment count. *)
Definition raw_values (js_minus : value -> value -> value) (p : value)
  : list value :=
  let up := nullish (opt_get (opt_get p "score") "up") (Some (JNum 0)) in
  let down := nullish (opt_get (opt_get p "score") "down") (Some (JNum 0)) in
  let total :=
    nullish (opt_get (opt_get p "score") "total") (js_minus up down) in
  let commentCount := nullish (opt_get p "comment_count") (Some (JNum 0)) in
  [total; up; down; commentCount].

(** The values of the post among them: a total that the post does not
    give is computed from the up and the down score. *)
Definition printed_values (p : value) : list value :=
  [opt_get (opt_get p "score") "total";
   nullish (opt_get (opt_get p "score") "up") (Some (JNum 0));
   nullish (opt_get (opt_get p "score") "down") (Some (JNum 0));
   nullish (opt_get p "comment_count") (Some (JNum 0))].

Definition is_number (v : value) : Prop := exists n, v = Some (JNum n).

(** The evaluation did not throw. *)
Definition succeeds {A} (o : outcome A) : bool :=
  match o with
  | Ok _ => true
  | Throw _ => false
  end.

(** The artists of the post can be joined: they are an array of elements
    that can be converted to strings, or anything that is neither a
    non-empty string nor an object with a truthy [length]. *)
Definition artists_ok (p : value) : bool :=
  match Js.or (opt_get (opt_get p "tags") "artist") (Some (JArr [])) with
  | Some (JStr _) => false
  | Some (JObj fs) => negb (truthy (assoc "length" fs))
  | Some (JArr l) => negb (existsb unprintable l)
  | _ => true
  end.

(** The markup of the card can be built: the artists can be joined, and
    the scores, the count and the description, when the post has one, can
    be converted to strings. *)
Definition info_ok (p : value) : bool :=
  artists_ok p
  && forallb (fun v => negb (unprintable_value v)) (printed_values p)
  && negb (truthy (opt_get p "description")
           && unprintable_value (opt_get p "description")).

(** [addPost] goes through on the post: the post is not null; its id and
    its URL, when it has one, can be converted to strings; its extension is
    a string or falsy; and the markup of the card can be built. *)
Definition renderable (p : json) : bool :=
  match p with JNull => false | _ => true end
  && negb (unprintable_value (prop p "id"))
  && match Js.or (opt_get (opt_get (Some p) "file") "ext") (Some (JStr "")) with
     | Some (JStr _) => true
     | _ => false
     end
  && (negb (truthy (opt_get (opt_get (Some p) "file") "url"))
      || negb (unprintable_value (opt_get (opt_get (Some p) "file") "url")))
  && info_ok (Some p).

(** The loop of [fetchPosts] gets past the post: it is skipped as swf, or
    rendered. *)
Definition passes (p : json) : bool := swf_post p || renderable p.

(** The interpolations of a card's markup that did not go through
    [escapeHtml]. *)
Definition raw_texts (gs : list segment) : list string :=
  flat_map (fun g => match g with Raw t => [t] | _ => [] end) gs.

End MoreFeedVocabulary.

(* ===================================================================== *)
(** * Concrete upstreams and feeds *)
(* ===================================================================== *)

Module Scenario.

Import Proxy.

(** ** An upstream and a parser given by tables *)

Definition no_credentials : env :=
  {| E621_LOGIN := None; E621_API_KEY := None |}.

(** Stands for the base64 encoder; no run below has credentials to encode. *)
Definition plain (s : string) : string := s.

Fixpoint table_get {A} (k : string) (t : list (string * A)) : option A :=
  match t with
  | [] => None
  | (k', v) :: rest => if String.eqb k k' then Some v else table_get k rest
  end.

(** A parser that knows the texts of the table only. *)
Definition parse_table (t : list (string * json)) (s : string) : option json :=
  table_get s t.

(** An upstream that answers the URLs of the table and refuses any other
    connection. *)
Definition serve (t : list (string * fetch_result)) (rq : request)
  : fetch_result :=
  match table_get (req_url rq) t with
  | Some r => r
  | None => Failed "ECONNREFUSED"
  end.

Definition int_minus (a b : value) : value :=
  match a, b with
  | Some (JNum x), Some (JNum y) => Some (JNum (x - y))
  | _, _ => None
  end.

Definition json_reply (st : Z) (body : string) : fetch_result :=
  Reply {| status := st; content_type := Some "application/json";
           text := body |}.

Definition url1 : string := "https://e621.net/posts/7/comments.json".
Definition url2 : string := "https://e621.net/comments.json?post_id=7".
Definition url3 : string :=
  "https://e621.net/comments.json?search%5Bpost_id%5D=7".

Definition candidate (url : string) : request :=
  get_request no_credentials plain url None.

(** ** Comments: two 404 and a wrapped list *)

Definition wrapped_comments : json :=
  JObj [("comments",
         JArr [JObj [("id", JNum 9); ("body", JStr "hi");
                     ("creator_id", JNum 5)]])].

Definition user5 : json :=
  JObj [("id", JNum 5); ("avatar_url", JStr "https://static.e621.net/a5.png")].

Definition texts : list (string * json) :=
  [("WRAPPED", wrapped_comments); ("USER5", user5); ("{}", JObj [])].

Definition upstream_404_404_wrapped : request -> fetch_result :=
  serve [(url1, json_reply 404 "not found");
         (url2, json_reply 404 "not found");
         (url3, json_reply 200 "WRAPPED");
         ("https://e621.net/users/5.json", json_reply 200 "USER5")].

Definition comment9 : comment :=
  {| id := Some (JNum 9); body := Some (JStr "hi");
     creator_id := Some (JNum 5); creator_name := Some (JStr "Unknown");
     avatar_url := Some (JStr "https://static.e621.net/a5.png") |}.

(** ** Comments: an object without a comments field *)

Definition upstream_empty_object : request -> fetch_result :=
  serve [(url1, json_reply 200 "{}")].

(** The reading of C2: a reply is passed over when its status is not a
    success, or its body is not JSON, or the parsed body is neither an array
    nor an object with a "comments" array. *)
Definition claimed_rejected (JSON_parse : string -> option json) (r : reply)
  : bool :=
  negb (ok r)
  || match JSON_parse (text r) with
     | None => true
     | Some payload =>
         negb (isArray (Some payload) || isArray (prop payload "comments"))
     end.

(** ** Comments: an upstream that cannot be reached *)

Definition upstream_down : request -> fetch_result := serve [].

(** The reading of C6: the debug field carries the URL, the status, the
    content type and a snippet of the body. *)
Definition has_http_detail (d : last_err) : bool :=
  match d with
  | ErrHttp _ _ _ _ => true
  | _ => false
  end.

(** ** Comments: replies *)

Definition not_found : reply :=
  {| status := 404; content_type := Some "application/json";
     text := "not found" |}.

Definition upstream_not_found : request -> fetch_result :=
  serve [(url1, Reply not_found); (url2, Reply not_found);
         (url3, Reply not_found)].

Definition empty_object_reply : reply :=
  {| status := 200; content_type := Some "application/json"; text := "{}" |}.

(** ** Feeds *)

Import Feed.

Definition image_post (n : nat) : json :=
  JObj [("id", JNum (Z.of_nat n));
        ("file", JObj [("ext", JStr "png"); ("url", JStr "a.png")])].

(** A page of ten posts, numbered from [from]. *)
Definition page (from : nat) : outcome json :=
  Ok (JObj [("posts", JArr (map image_post (seq from 10)))]).

Definition h100 (_ : nat) : nat := 100%nat.

Definition post_number (p : json) : string := value_to_string (prop p "id").

(** [k] is a contiguous run of [l]. *)
Fixpoint prefixb (k l : list string) : bool :=
  match k, l with
  | [], _ => true
  | _ :: _, [] => false
  | x :: k', y :: l' => String.eqb x y && prefixb k' l'
  end.

Fixpoint infixb (k l : list string) : bool :=
  prefixb k l
  || match l with
     | [] => false
     | _ :: l' => infixb k l'
     end.

(** The user reaches card 5, page 2 arrives, the next scroll event prunes;
    the user reaches card 6 and page 3 arrives. All cards are as tall as
    the viewport. *)
Definition three_pages : list event :=
  [PageLoaded (page 0) h100; Scrolled 500; Settled;
   PageLoaded (page 10) h100; Scrolled 510; Settled;
   Scrolled 600; Settled; PageLoaded (page 20) h100].

(** On a phone: the user opens the comments of card 7, then goes back to
    card 0. *)
Definition comments_left_open : feed_state :=
  run int_minus (boot true 100)
    [PageLoaded (page 0) h100; Scrolled 700; Settled; CommentsTapped 7;
     Scrolled 0].

(** An upstream that answers the first page with the scenario's posts. *)
Definition upstream_posts : Proxy.request -> Proxy.fetch_result :=
  serve [("https://e621.net/posts.json?tags=order:score rating:s -type:swf"
            +:+ "&page=1&limit=10",
          json_reply 200 "POSTS")].

Definition first_page : Proxy.posts_query :=
  {| Proxy.q_tags := Some DEFAULT_TAGS; Proxy.q_page := Some "1";
     Proxy.q_limit := Some "10" |}.

End Scenario.

(* ===================================================================== *)
(** * More upstreams and feeds *)
(* ===================================================================== *)

Module Cases.

Import Scenario.
Import Proxy.

(** A posts reply with status 404 whose body is JSON all the same. *)
Definition posts_404 : reply :=
  {| status := 404; content_type := Some "application/json";
     text := "POSTS" |}.

Definition posts_page_url : string :=
  "https://e621.net/posts.json?tags=order:score rating:s -type:swf"
    +:+ "&page=1&limit=10".

Definition upstream_posts_404 : request -> fetch_result :=
  serve [(posts_page_url, Reply posts_404)].

(** A posts object with a field beside the posts. *)
Definition posts_with_meta : json :=
  JObj [("meta", JStr "m"); ("posts", JArr [webm_post; swf_post_2])].

(** Comments without a creator. *)
Definition anonymous_comments : list comment :=
  [{| id := Some (JNum 1); body := Some (JStr "a");
      creator_id := Some JNull; creator_name := Some (JStr "Unknown");
      avatar_url := Some JNull |}].

Definition anonymous_payload : json :=
  JArr [JObj [("id", JNum 1); ("body", JStr "a")]].

Definition upstream_anonymous : request -> fetch_result :=
  serve [(url1, json_reply 200 "ANON")].

(** An upstream that answers every candidate with an HTML error page. *)
Definition html_404 : reply :=
  {| status := 404; content_type := Some "text/html";
     text := "<h1>Not Found</h1>" |}.

Definition upstream_html_404 : request -> fetch_result :=
  serve [(url1, Reply html_404); (url2, Reply html_404);
         (url3, Reply html_404)].

(** ** Comments: two creators whose ids print alike *)

Definition twins_payload : json :=
  JArr [JObj [("id", JNum 1); ("body", JStr "a"); ("creator_id", JNum 1)];
        JObj [("id", JNum 2); ("body", JStr "b"); ("creator_id", JStr "1")]].

Definition user1 : json :=
  JObj [("avatar_url", JStr "https://static.e621.net/a1.png")].

Definition more_texts : list (string * json) :=
  [("TWINS", twins_payload); ("USER1", user1);
   ("SHAPE", JObj [("comments", JStr "none")])].



(** ** Comments: a last candidate that answers 200 with another shape *)

Definition shape_reply : reply :=
  {| status := 200; content_type := Some "application/json";
     text := "SHAPE" |}.

Definition upstream_404_404_shape : request -> fetch_result :=
  serve [(url1, Reply not_found); (url2, Reply not_found);
         (url3, Reply shape_reply)].

(** ** Mutations: an upstream that accepts a vote *)

Definition vote_body : mutation_body :=
  {| b_score := Some (JNum 1); b_post_id := None;
     b_login := Some (JStr "x"); b_api_key := Some (JStr "y") |}.

Definition upstream_votes : request -> fetch_result :=
  serve [("https://e621.net/posts/7/votes.json", json_reply 200 "VOTED")].

Definition voted : json := JObj [("score", JNum 1)].

(** A comment whose body is an object with a toString field. *)
Definition odd_body : json := JObj [("toString", JNum 1)].

Definition odd_payload : json :=
  JArr [JObj [("id", JNum 1); ("body", odd_body)]].

Definition odd_comment : comment :=
  {| id := Some (JNum 1); body := Some odd_body;
     creator_id := Some JNull; creator_name := Some (JStr "Unknown");
     avatar_url := Some JNull |}.

Definition upstream_odd : request -> fetch_result :=
  serve [(url1, json_reply 200 "ODD")].

(** Stands for [String(e)]. *)
Definition error_text (e : exn) : string :=
  match e with
  | TypeError => "TypeError"
  | SyntaxError => "SyntaxError"
  | FetchError msg => "FetchError: " +:+ msg
  end.

Import Feed.

(** Twenty cards as tall as the viewport, the user on the last one. *)
Definition twenty_at_19 : list event :=
  [PageLoaded (page 0) h100; PageLoaded (page 10) h100; Scrolled 1900].

(** A last page of two posts. *)
Definition last_two : outcome json :=
  Ok (JObj [("posts", JArr (map image_post [10%nat; 11%nat]))]).

(** Cards as tall as the viewport. The user is on card 9 when the last
    page arrives, goes on to card 10, where the prune finds nothing to
    remove, and then to card 11, the last of twelve. *)
Definition twelve_at_11 : list event :=
  [PageLoaded (page 0) h100; Scrolled 900; Settled;
   PageLoaded last_two h100; Scrolled 1000; Settled; Scrolled 1100].

(** Twenty cards as tall as the viewport, the user on the twelfth. *)
Definition twenty_at_11 : list event :=
  [PageLoaded (page 0) h100; PageLoaded (page 10) h100; Scrolled 1100].

(** A page whose second post is null. *)
Definition broken_page : outcome json :=
  Ok (JObj [("posts", JArr [image_post 0; JNull; image_post 2])]).

(** One page on a phone. *)
Definition one_page_phone : list event := [PageLoaded (page 0) h100].

Definition no_card : card :=
  {| node := 0; post := JNull; postId := ""; card_media := MissingMedia;
     info := []; offsetHeight := 0; panel := None;
     outsideTapHandler := None |}.

(** The fourth card of that page. *)
Definition card3 : card :=
  nth 3 (cards (run int_minus (boot true 100) one_page_phone)) no_card.

(** A post whose total score is a text with markup. *)
Definition injected_post : json :=
  JObj [("id", JNum 1);
        ("score", JObj [("total", JStr "<b>hi</b>"); ("up", JNum 1);
                        ("down", JNum 0)])].

(** A post whose up score is a text. *)
Definition scored_post : json :=
  JObj [("id", JNum 1); ("score", JObj [("up", JStr "<b>")])].

Definition scored_card_state : feed_state :=
  match addPost int_minus h100 scored_post (boot false 100) with
  | Ok st => st
  | Throw _ => boot false 100
  end.

End Cases.
(* ===================================================================== *)
(** * Properties of the proxy *)
(* ===================================================================== *)

Section ProxyFacts.

Import Proxy.

Variable cfg : env.
Variable fetch : request -> fetch_result.
Variable JSON_parse : string -> option json.
Variable encodeURIComponent : string -> string.
Variable base64 : string -> string.

Local Abbreviation attempt := (Proxy.attempt cfg fetch JSON_parse base64).
Local Abbreviation attempt_try := (Proxy.attempt_try cfg fetch JSON_parse base64).
Local Abbreviation enrich := (Proxy.enrich cfg fetch JSON_parse base64).
Local Abbreviation lookup := (Proxy.lookup cfg fetch JSON_parse base64).
Local Abbreviation lookup_try := (Proxy.lookup_try cfg fetch JSON_parse base64).
Local Abbreviation lookup_request := (Proxy.lookup_request cfg base64).
Local Abbreviation set_avatar := Proxy.set_avatar.
Local Abbreviation vote_handler :=
  (Proxy.vote_handler cfg fetch JSON_parse base64).
Local Abbreviation favorite_handler :=
  (Proxy.favorite_handler cfg fetch JSON_parse base64).
Local Abbreviation unfavorite_handler :=
  (Proxy.unfavorite_handler cfg fetch JSON_parse base64).
Local Abbreviation get_request := (Proxy.get_request cfg base64).
Local Abbreviation fallback := (Proxy.fallback cfg fetch JSON_parse base64).
Local Abbreviation rejected :=
  (reject_reason cfg fetch JSON_parse base64).
Local Abbreviation enriched :=
  (enriched_from cfg fetch JSON_parse base64).
Local Abbreviation comments_handler :=
  (Proxy.comments_handler cfg fetch JSON_parse base64).

Lemma env_or_null_configured x client :
  Js.or (env_or_null x) client = forwarded x client.
Proof.
  unfold env_or_null, forwarded, configured, Js.or.
  destruct x as [s|]; simpl; [|reflexivity].
  destruct (String.eqb s "") eqn:E; simpl; rewrite ?E; reflexivity.
Qed.

(** C7. Each of the vote, favorite and unfavorite handlers sends exactly one
    request upstream and relays what the upstream answers; the body of that
    request carries the server's login and api_key whenever these are
    configured, and the client's own values, unchanged, otherwise. *)
Theorem mutation_credentials (postId : string) (b : mutation_body) :
  let login := forwarded (E621_LOGIN cfg) (b_login b) in
  let api_key := forwarded (E621_API_KEY cfg) (b_api_key b) in
  let failed msg := {| res_status := 500; res_body := error_body msg |} in
  let sends (h : list request * response) url method payload msg :=
    exists rq,
      fst h = [rq]
      /\ req_url rq = url /\ req_method rq = method
      /\ req_body rq = Some payload
      /\ snd h
         = match fetch rq with
           | Failed _ => failed msg
           | Reply r =>
               match JSON_parse (text r) with
               | None => failed msg
               | Some result =>
                   {| res_status := status r; res_body := result |}
               end
           end in
  sends (vote_handler postId b)
    ("https://e621.net/posts/" +:+ postId +:+ "/votes.json") "POST"
    [("score", b_score b); ("login", login); ("api_key", api_key)]
    "Vote failed."
  /\ sends (favorite_handler b)
       "https://e621.net/favorites.json" "POST"
       [("post_id", b_post_id b); ("login", login); ("api_key", api_key)]
       "Favorite failed."
  /\ sends (unfavorite_handler postId b)
       ("https://e621.net/favorites/" +:+ postId +:+ ".json") "DELETE"
       [("login", login); ("api_key", api_key)]
       "Unfavorite failed."
  /\ (E621_LOGIN cfg = None -> E621_API_KEY cfg = None ->
      login = b_login b /\ api_key = b_api_key b).
Proof.
  cbv zeta.
  assert (Hbody : forall rq msg,
            exists rq0,
              fst (Proxy.relay fetch JSON_parse rq msg) = [rq0]
              /\ req_url rq0 = req_url rq /\ req_method rq0 = req_method rq
              /\ req_body rq0 = req_body rq
              /\ snd (Proxy.relay fetch JSON_parse rq msg)
                 = match fetch rq0 with
                   | Failed _ =>
                       {| res_status := 500; res_body := error_body msg |}
                   | Reply r =>
                       match JSON_parse (text r) with
                       | None =>
                           {| res_status := 500; res_body := error_body msg |}
                       | Some result =>
                           {| res_status := status r; res_body := result |}
                       end
                   end).
  { intros rq msg. exists rq. unfold Proxy.relay. simpl. auto. }
  split; [|split; [|split]].
  - destruct (Hbody (vote_request cfg base64 postId b) "Vote failed.")
      as (rq & H1 & H2 & H3 & H4 & H5).
    exists rq. split; [exact H1|]. rewrite H2, H3, H4.
    split; [reflexivity|]. split; [reflexivity|]. split; [|exact H5].
    unfold vote_request, mutation_request, merged_login, merged_api_key,
      DEFAULT_LOGIN, DEFAULT_API_KEY. simpl.
    rewrite !env_or_null_configured. reflexivity.
  - destruct (Hbody (favorite_request cfg base64 b) "Favorite failed.")
      as (rq & H1 & H2 & H3 & H4 & H5).
    exists rq. split; [exact H1|]. rewrite H2, H3, H4.
    split; [reflexivity|]. split; [reflexivity|]. split; [|exact H5].
    unfold favorite_request, mutation_request, merged_login, merged_api_key,
      DEFAULT_LOGIN, DEFAULT_API_KEY. simpl.
    rewrite !env_or_null_configured. reflexivity.
  - destruct (Hbody (unfavorite_request cfg base64 postId b)
                "Unfavorite failed.")
      as (rq & H1 & H2 & H3 & H4 & H5).
    exists rq. split; [exact H1|]. rewrite H2, H3, H4.
    split; [reflexivity|]. split; [reflexivity|]. split; [|exact H5].
    unfold unfavorite_request, mutation_request, merged_login,
      merged_api_key, DEFAULT_LOGIN, DEFAULT_API_KEY. simpl.
    rewrite !env_or_null_configured. reflexivity.
  - intros Hlogin Hkey. unfold forwarded. rewrite Hlogin, Hkey.
    split; reflexivity.
Qed.


(** ** The fallback loop and one candidate *)

Lemma map_outcome_Forall2 {A B} (f : A -> outcome B) l l' :
  map_outcome f l = Ok l' -> Forall2 (fun a b => f a = Ok b) l l'.
Proof.
  revert l'. induction l as [|a l IH]; simpl; intros l' H.
  - inversion H. constructor.
  - destruct (f a) as [b|e] eqn:Hfa; simpl in H; [|discriminate].
    destruct (map_outcome f l) as [bs|e] eqn:Hl; simpl in H; [|discriminate].
    inversion H; subst. constructor; auto.
Qed.

Lemma map_outcome_Throw {A B} (f : A -> outcome B) l e :
  map_outcome f l = Throw e -> exists a, In a l /\ f a = Throw e.
Proof.
  induction l as [|a l IH]; simpl; intros H; [discriminate|].
  destruct (f a) as [b|e'] eqn:Hfa; simpl in H.
  - destruct (map_outcome f l) as [bs|e''] eqn:Hl; simpl in H; [discriminate|].
    inversion H; subst. destruct (IH eq_refl) as (a' & Hin & Ha').
    exists a'. auto.
  - inversion H; subst. exists a. auto.
Qed.

Lemma map_outcome_total {A B} (f : A -> outcome B) l :
  (forall a, In a l -> exists b, f a = Ok b) ->
  exists l', map_outcome f l = Ok l'.
Proof.
  induction l as [|a l IH]; simpl; intros H; [eauto|].
  destruct (H a) as [b Hb]; [auto|]. rewrite Hb. simpl.
  destruct IH as [l' Hl']; [auto|]. rewrite Hl'. simpl. eauto.
Qed.

Lemma normalize_Ok c r :
  normalize c = Ok r ->
  c <> JNull
  /\ id r = prop c "id"
  /\ body r = Js.or (Js.or (prop c "body") (prop c "body_html")) (Some (JStr ""))
  /\ creator_id r = Js.or (prop c "creator_id") (Some JNull)
  /\ creator_name r
     = Js.or (Js.or (prop c "creator_name") (prop c "author"))
         (Some (JStr "Unknown"))
  /\ avatar_url r = Some JNull.
Proof.
  unfold normalize. destruct c; simpl; intros H; inversion H; subst; simpl;
    repeat split; congruence.
Qed.

Lemma normalize_Throw c e : normalize c = Throw e -> c = JNull /\ e = TypeError.
Proof.
  unfold normalize. destruct c; simpl; intros H; inversion H; auto.
Qed.

Lemma normalize_null : normalize JNull = Throw TypeError.
Proof. reflexivity. Qed.

Lemma same_comment_refl c : same_comment c c.
Proof. unfold same_comment. auto. Qed.

Lemma set_avatar_same m c c' : set_avatar m c = Ok c' -> same_comment c c'.
Proof.
  unfold Proxy.set_avatar, same_comment.
  destruct (truthy (creator_id c)); [|intros H; inversion H; auto].
  destruct (string_of (creator_id c)) as [key|e]; simpl; [|discriminate].
  destruct (read m key) as [v|member|]; intros H; inversion H; subst; auto.
  destruct (truthy v); simpl; auto.
Qed.

Lemma map_set_avatar_same m rs rs' :
  map_outcome (set_avatar m) rs = Ok rs' -> Forall2 same_comment rs rs'.
Proof.
  intros H. apply map_outcome_Forall2 in H.
  induction H; constructor; eauto using set_avatar_same.
Qed.

Lemma enrich_same url rs rs' :
  snd (enrich url rs) = Ok rs' -> Forall2 same_comment rs rs'.
Proof.
  unfold Proxy.enrich.
  destruct (length (avatar_ids rs) =? 0)%nat; simpl.
  - intros H. inversion H; subst. clear.
    induction rs'; constructor; auto using same_comment_refl.
  - destruct (fromEntries _) as [m|e]; simpl; [|discriminate].
    apply map_set_avatar_same.
Qed.

Lemma enrich_log url rs :
  fst (enrich url rs)
  = concat (imap (fun i v => fst (lookup_try url i v)) (avatar_ids rs)).
Proof.
  unfold Proxy.enrich.
  destruct (length (avatar_ids rs) =? 0)%nat eqn:E; simpl; [|reflexivity].
  apply Nat.eqb_eq in E. destruct (avatar_ids rs); [reflexivity|discriminate].
Qed.

(** An accepted candidate, read back from the code. *)
Lemma attempt_accepted url log rs :
  attempt url = (log, Accepted rs) ->
  exists r payload cs normalized,
    fetch (get_request url None) = Reply r
    /\ ok r = true
    /\ JSON_parse (text r) = Some payload
    /\ comments_of payload = Ok (Some (JArr cs))
    /\ map_outcome normalize (take 50 cs) = Ok normalized
    /\ snd (enrich url normalized) = Ok rs
    /\ log = get_request url None :: fst (enrich url normalized).
Proof.
  unfold Proxy.attempt, Proxy.attempt_try.
  destruct (fetch (get_request url None)) as [r|msg] eqn:Hf; simpl;
    [|intros H; inversion H].
  destruct (ok r) eqn:Hok; simpl; [|intros H; inversion H].
  destruct (JSON_parse (text r)) as [payload|] eqn:Hp; simpl;
    [|intros H; inversion H].
  destruct (comments_of payload) as [cv|e] eqn:Hc; simpl;
    [|intros H; inversion H].
  destruct cv as [[| | | |cs|]|]; simpl; try (intros H; inversion H; fail).
  destruct (map_outcome normalize (take 50 cs)) as [normalized|e] eqn:Hn;
    simpl; [|intros H; inversion H].
  destruct (Proxy.enrich cfg fetch JSON_parse base64 url normalized)
    as [elog [enriched|e]] eqn:He; simpl; intros H; inversion H; subst.
  exists r, payload, cs, normalized. rewrite He. repeat split; auto.
Qed.

Lemma fallback_ok urls e0 log rs :
  fallback urls e0 = (log, CommentsOk rs) ->
  exists url log', In url urls /\ attempt url = (log', Accepted rs).
Proof.
  revert e0 log. induction urls as [|u urls IH]; simpl; intros e0 log H.
  - inversion H.
  - destruct (attempt u) as [alog [rs'|e]] eqn:Ha.
    + inversion H; subst. exists u, log. auto.
    + destruct (fallback urls e) as [log' resp] eqn:Hfb.
      inversion H; subst.
      destruct (IH _ _ Hfb) as (url & l & Hin & Hat). exists url, l. auto.
Qed.

Lemma or_default_truthy a d : truthy d = true -> truthy (Js.or a d) = true.
Proof. unfold Js.or. destruct (truthy a) eqn:E; auto. Qed.

Lemma normalize_from c r : normalize c = Ok r -> normalized_from c r.
Proof.
  intros H. apply normalize_Ok in H.
  destruct H as (_ & _ & Hb & _ & Hn & _).
  unfold normalized_from. rewrite Hn, Hb.
  assert (Ht : truthy (Js.or (Js.or (prop c "creator_name") (prop c "author"))
                         (Some (JStr "Unknown"))) = true)
    by (apply or_default_truthy; reflexivity).
  repeat split; auto.
  - intros Heq. rewrite Heq in Ht. discriminate.
  - intros H1 H2. unfold Js.or. rewrite H1, H2. reflexivity.
Qed.

(** C4. A successful comments response has at most 50 entries; each one
    carries the upstream creator_name, else the author field, else "Unknown"
    (never empty), and the upstream body, else body_html, else the empty
    string. *)
Theorem comments_normalized (postId : string) log results :
  comments_handler postId = (log, CommentsOk results) ->
  (length results <= 50)%nat
  /\ exists url r payload cs,
       In url (comment_urls postId)
       /\ fetch (get_request url None) = Reply r
       /\ JSON_parse (text r) = Some payload
       /\ comments_of payload = Ok (Some (JArr cs))
       /\ Forall2 normalized_from (take 50 cs) results.
Proof.
  unfold Proxy.comments_handler. intros H.
  apply fallback_ok in H. destruct H as (url & log' & Hin & Hat).
  apply attempt_accepted in Hat.
  destruct Hat as (r & payload & cs & normalized & Hf & Hok & Hp & Hc & Hn & Hrs & _).
  apply map_outcome_Forall2 in Hn.
  pose proof (enrich_same _ _ _ Hrs) as Hsame.
  assert (HF : Forall2 normalized_from (take 50 cs) results).
  { clear - Hn Hsame. revert results Hsame.
    induction Hn as [|c n cs' ns Hcn _ IH]; intros results Hsame.
    - inversion Hsame; subst. constructor.
    - inversion Hsame as [|? r' ? rs' Hr Hrest]; subst. constructor; auto.
      apply normalize_from in Hcn.
      destruct Hr as (_ & Hb & _ & Hnm).
      unfold normalized_from in *. rewrite Hb, Hnm. exact Hcn. }
  split.
  - apply Forall2_length in HF. rewrite <- HF. rewrite length_take. lia.
  - exists url, r, payload, cs. auto.
Qed.

(** ** The ids looked up *)

Lemma same_value_zero_eq a b : same_value_zero a b = true -> a = b.
Proof.
  destruct a as [[| x | x | x | x | x]|], b as [[| y | y | y | y | y]|];
    simpl; try discriminate; auto; intros H.
  - apply Bool.eqb_prop in H. congruence.
  - apply Z.eqb_eq in H. congruence.
  - apply String.eqb_eq in H. congruence.
Qed.

Lemma same_value_zero_sym a b : same_value_zero a b = same_value_zero b a.
Proof.
  destruct a as [[| x | x | x | x | x]|], b as [[| y | y | y | y | y]|];
    simpl; auto.
  - destruct x, y; reflexivity.
  - apply Z.eqb_sym.
  - apply String.eqb_sym.
Qed.

Lemma distinct_ids_snoc acc x :
  distinct_ids acc -> existsb (same_value_zero x) acc = false ->
  distinct_ids (acc ++ [x]).
Proof.
  unfold distinct_ids. intros Hd Hx.
  induction Hd as [|a l Ha Hl IH]; simpl.
  - constructor; constructor.
  - simpl in Hx. apply Bool.orb_false_iff in Hx. destruct Hx as [Hxa Hxl].
    constructor; [|auto].
    apply List.Forall_app. split; [exact Ha|].
    constructor; [|constructor]. rewrite same_value_zero_sym. exact Hxa.
Qed.

Lemma array_from_set_fold l acc :
  distinct_ids acc ->
  distinct_ids (fold_left set_add l acc)
  /\ (forall v, In v (fold_left set_add l acc) <-> In v acc \/ In v l).
Proof.
  revert acc. induction l as [|x l IH]; simpl; intros acc Hacc.
  - split; [exact Hacc|]. intros v. tauto.
  - unfold set_add at 2 4.
    destruct (existsb (same_value_zero x) acc) eqn:Hx.
    + destruct (IH acc Hacc) as [Hd Hin]. split; [exact Hd|].
      intros v. rewrite Hin.
      apply List.existsb_exists in Hx. destruct Hx as (y & Hy & Hxy).
      apply same_value_zero_eq in Hxy. subst y.
      split; [tauto|]. intros [?|[<-|?]]; auto.
    + destruct (IH (acc ++ [x]) (distinct_ids_snoc _ _ Hacc Hx)) as [Hd Hin].
      split; [exact Hd|].
      intros v. rewrite Hin, List.in_app_iff. simpl. tauto.
Qed.

Lemma array_from_set_spec l :
  distinct_ids (array_from_set l)
  /\ (forall v, In v (array_from_set l) <-> In v l).
Proof.
  destruct (array_from_set_fold l []) as [Hd Hin]; [constructor|].
  split; [exact Hd|]. intros v. rewrite (Hin v). simpl. tauto.
Qed.

Lemma distinct_ids_take n l : distinct_ids l -> distinct_ids (take n l).
Proof.
  unfold distinct_ids. intros H. revert n.
  induction H as [|a l Ha Hl IH]; intros [|n]; simpl; try constructor; auto.
  clear - Ha. revert n. induction Ha; intros [|n]; simpl; constructor; auto.
Qed.

Lemma In_take {A} n (l : list A) x : In x (take n l) -> In x l.
Proof.
  revert n. induction l as [|a l IH]; intros [|n]; simpl; try tauto.
  intros [?|?]; eauto.
Qed.

Lemma avatar_ids_spec results :
  (length (avatar_ids results) <= 10)%nat
  /\ distinct_ids (avatar_ids results)
  /\ (forall v, In v (avatar_ids results) ->
        truthy v = true /\ exists c, In c results /\ creator_id c = v)
  /\ ((length (array_from_set (List.filter truthy (map creator_id results)))
       <= 10)%nat ->
      forall c, In c results -> truthy (creator_id c) = true ->
                In (creator_id c) (avatar_ids results)).
Proof.
  unfold avatar_ids, AVATAR_LOOKUP_LIMIT.
  destruct (array_from_set_spec (List.filter truthy (map creator_id results)))
    as [Hd Hin].
  split; [rewrite length_take; lia|].
  split; [apply distinct_ids_take; exact Hd|].
  split.
  - intros v Hv. apply In_take, Hin, List.filter_In in Hv.
    destruct Hv as [Hv Ht]. split; [exact Ht|].
    apply List.in_map_iff in Hv. destruct Hv as (c & Hc & Hcin). eauto.
  - intros Hlen c Hc Ht. rewrite take_ge by lia.
    apply Hin, List.filter_In. split; [|exact Ht].
    apply List.in_map. exact Hc.
Qed.

Lemma avatar_ids_empty results :
  avatar_ids results = [] ->
  Forall (fun c => truthy (creator_id c) = false) results.
Proof.
  intros Hnil. apply List.Forall_forall. intros c Hc.
  destruct (truthy (creator_id c)) eqn:Ht; [|reflexivity]. exfalso.
  destruct (array_from_set_spec (List.filter truthy (map creator_id results)))
    as [_ Hin].
  assert (Hm : In (creator_id c)
                 (array_from_set (List.filter truthy (map creator_id results)))).
  { apply Hin, List.filter_In. split; [apply List.in_map; exact Hc|exact Ht]. }
  unfold avatar_ids, AVATAR_LOOKUP_LIMIT in Hnil.
  destruct (array_from_set _); [destruct Hm|discriminate].
Qed.

(** ** Conversions that throw *)

Lemma string_of_cases v :
  (unprintable_value v = true /\ string_of v = Throw TypeError)
  \/ (unprintable_value v = false /\ string_of v = Ok (value_to_string v)).
Proof. unfold string_of. destruct (unprintable_value v); auto. Qed.

Lemma map_outcome_Throw_at {A B} (f : A -> outcome B) l a e :
  In a l -> f a = Throw e ->
  (forall x e', f x = Throw e' -> e' = e) ->
  map_outcome f l = Throw e.
Proof.
  intros Hin Ha Hall. induction l as [|x l IH]; [destruct Hin|].
  simpl. destruct (f x) as [y|e'] eqn:Hx; simpl.
  - destruct Hin as [->|Hin]; [congruence|]. rewrite (IH Hin). reflexivity.
  - f_equal. eauto.
Qed.

Lemma fromEntries_snoc l kv :
  fromEntries (l ++ [kv])
  = (let* m := fromEntries l in
     let* key := string_of (fst kv) in
     Ok (<[key := snd kv]> m)).
Proof. unfold fromEntries. rewrite fold_left_app. reflexivity. Qed.

Lemma fromEntries_outcome entries :
  if existsb (fun kv => unprintable_value (fst kv)) entries
  then fromEntries entries = Throw TypeError
  else exists m, fromEntries entries = Ok m.
Proof.
  induction entries as [|kv l IH] using rev_ind; simpl; [eauto|].
  rewrite List.existsb_app, fromEntries_snoc. simpl.
  rewrite Bool.orb_false_r.
  destruct (existsb _ l).
  - rewrite IH. reflexivity.
  - destruct IH as [m ->]. simpl.
    destruct (string_of_cases (fst kv)) as [[-> ->]|[-> ->]]; simpl; eauto.
Qed.

Lemma set_avatar_outcome m c :
  if truthy (creator_id c) && unprintable_value (creator_id c)
  then set_avatar m c = Throw TypeError
  else exists c', set_avatar m c = Ok c'.
Proof.
  unfold Proxy.set_avatar.
  destruct (truthy (creator_id c)); simpl; [|eauto].
  destruct (string_of_cases (creator_id c)) as [[-> ->]|[-> ->]]; simpl; auto.
  destruct (read m _); eauto.
Qed.

Lemma lookup_fst url i v : fst (lookup url i v) = v.
Proof.
  unfold Proxy.lookup. destruct (snd (lookup_try url i v)); reflexivity.
Qed.

Lemma imap_snoc {A B} (f : nat -> A -> B) l x :
  imap f (l ++ [x]) = imap f l ++ [f (length l) x].
Proof. rewrite imap_app. simpl. rewrite Nat.add_0_r. reflexivity. Qed.

Lemma In_imap {A B} (f : nat -> A -> B) l y :
  In y (imap f l) -> exists i x, l !! i = Some x /\ y = f i x.
Proof.
  intros H. apply list_elem_of_In, elem_of_lookup_imap in H.
  destruct H as (i & x & -> & Hl). eauto.
Qed.

Lemma In_lookup {A} (l : list A) i x : l !! i = Some x -> In x l.
Proof. intros H. eapply list_elem_of_In, list_elem_of_lookup_2, H. Qed.

(** The enrichment throws exactly when a comment has a creator id that
    cannot be converted to a string; what the upstream answers to the
    lookups plays no part. *)
Lemma enrich_outcome url results :
  if existsb (fun c => truthy (creator_id c)
                       && unprintable_value (creator_id c)) results
  then snd (enrich url results) = Throw TypeError
  else exists rs, snd (enrich url results) = Ok rs.
Proof.
  destruct (existsb _ results) eqn:Hex.
  - apply List.existsb_exists in Hex. destruct Hex as (c & Hc & Hbad).
    unfold Proxy.enrich.
    destruct (length (avatar_ids results) =? 0)%nat eqn:E; simpl.
    + exfalso. apply Nat.eqb_eq in E.
      assert (Hnil : avatar_ids results = [])
        by (destruct (avatar_ids results); [reflexivity|discriminate]).
      pose proof (avatar_ids_empty _ Hnil) as Hall.
      rewrite List.Forall_forall in Hall. rewrite (Hall c Hc) in Hbad.
      discriminate.
    + pose proof (fromEntries_outcome
                    (imap (lookup url) (avatar_ids results))) as Hfe.
      destruct (existsb _ (imap (lookup url) (avatar_ids results))).
      * rewrite Hfe. reflexivity.
      * destruct Hfe as [m ->]. simpl.
        apply (map_outcome_Throw_at _ _ c); auto.
        -- pose proof (set_avatar_outcome m c) as H. rewrite Hbad in H.
           exact H.
        -- intros x e' Hx. pose proof (set_avatar_outcome m x) as H.
           destruct (truthy (creator_id x) && unprintable_value (creator_id x)).
           ++ congruence.
           ++ destruct H as [? H]. congruence.
  - assert (Hgood : forall c, In c results ->
              truthy (creator_id c) && unprintable_value (creator_id c)
              = false).
    { intros c Hc.
      destruct (truthy (creator_id c) && unprintable_value (creator_id c))
        eqn:Hb; [|reflexivity].
      assert (existsb (fun c => truthy (creator_id c)
                                && unprintable_value (creator_id c)) results
              = true) by (apply List.existsb_exists; eauto).
      congruence. }
    unfold Proxy.enrich.
    destruct (length (avatar_ids results) =? 0)%nat eqn:E; simpl; [eauto|].
    pose proof (fromEntries_outcome
                  (imap (lookup url) (avatar_ids results))) as Hfe.
    destruct (existsb _ (imap (lookup url) (avatar_ids results))) eqn:Hk.
    + exfalso. apply List.existsb_exists in Hk.
      destruct Hk as (kv & Hkv & Hun).
      apply In_imap in Hkv. destruct Hkv as (i & v & Hv & ->).
      rewrite lookup_fst in Hun. apply In_lookup in Hv.
      destruct (avatar_ids_spec results) as (_ & _ & Hids & _).
      destruct (Hids v Hv) as (Ht & c & Hc & <-).
      pose proof (Hgood c Hc) as Hb. rewrite Ht, Hun in Hb. discriminate.
    + destruct Hfe as [m ->]. simpl.
      apply map_outcome_total. intros c Hc.
      pose proof (set_avatar_outcome m c) as H. rewrite (Hgood c Hc) in H.
      exact H.
Qed.

(** ** One candidate *)

Lemma comments_of_cases payload :
  (payload = JNull /\ comments_of payload = Throw TypeError)
  \/ (exists cs, comments_of payload = Ok (Some (JArr cs)))
  \/ (isArray (Some payload) = false
      /\ truthy (prop payload "comments") = true
      /\ isArray (prop payload "comments") = false
      /\ comments_of payload = Ok (prop payload "comments")).
Proof.
  unfold comments_of.
  destruct payload as [| b | n | s | items | fs]; simpl; auto;
    try (right; left; exists []; reflexivity).
  - right. left. eauto.
  - unfold Js.or.
    destruct (truthy (assoc "comments" fs)) eqn:Ht.
    + destruct (assoc "comments" fs) as [[| | | |cs|]|] eqn:Ha;
        try (right; right; repeat split; auto; fail).
      right. left. eauto.
    + right. left. eauto.
Qed.

Lemma comments_of_default payload :
  payload <> JNull -> isArray (Some payload) = false ->
  truthy (prop payload "comments") = false ->
  comments_of payload = Ok (Some (JArr [])).
Proof.
  unfold comments_of.
  destruct payload as [| b | n | s | items | fs]; simpl; auto;
    try congruence.
  intros _ _ Ht. unfold Js.or. rewrite Ht. reflexivity.
Qed.

(** A candidate whose body gives an array of comments. *)
Lemma attempt_array url r payload cs :
  fetch (get_request url None) = Reply r -> ok r = true ->
  JSON_parse (text r) = Some payload ->
  comments_of payload = Ok (Some (JArr cs)) ->
  attempt url
  = match map_outcome normalize (take 50 cs) with
    | Throw e => ([get_request url None], Rejected (ErrThrown url e))
    | Ok ns =>
        (get_request url None :: fst (enrich url ns),
         match snd (enrich url ns) with
         | Ok rs => Accepted rs
         | Throw e => Rejected (ErrThrown url e)
         end)
    end.
Proof.
  intros Hf Hok Hp Hc. unfold Proxy.attempt, Proxy.attempt_try.
  rewrite Hf, Hok, Hp, Hc. simpl.
  destruct (map_outcome normalize (take 50 cs)) as [ns|e]; [|reflexivity].
  destruct (Proxy.enrich cfg fetch JSON_parse base64 url ns)
    as [elog [rs|e]]; reflexivity.
Qed.

Lemma or_null_bad a :
  truthy (Js.or a (Some JNull)) && unprintable_value (Js.or a (Some JNull))
  = truthy a && unprintable_value a.
Proof. unfold Js.or. destruct (truthy a) eqn:E; rewrite ?E; reflexivity. Qed.

(** The creator ids that cannot be printed, before and after the
    normalization. *)
Lemma normalized_unprintable cs ns :
  map_outcome normalize cs = Ok ns ->
  existsb (fun c => truthy (creator_id c)
                    && unprintable_value (creator_id c)) ns
  = existsb (fun c => truthy (prop c "creator_id")
                      && unprintable_value (prop c "creator_id")) cs.
Proof.
  intros H. apply map_outcome_Forall2 in H.
  induction H as [|c n cs' ns' Hc _ IH]; simpl; [reflexivity|].
  apply normalize_Ok in Hc. destruct Hc as (_ & _ & _ & Hcr & _).
  rewrite Hcr, or_null_bad, IH. reflexivity.
Qed.

Lemma attempt_rejected_iff url :
  (exists e, snd (attempt url) = Rejected e) <-> rejected url.
Proof.
  split.
  - intros [e0 H].
    destruct (fetch (get_request url None)) as [r|msg] eqn:Hf;
      [|eapply request_failed; eauto].
    destruct (ok r) eqn:Hok; [|eapply status_not_ok; eauto].
    destruct (JSON_parse (text r)) as [payload|] eqn:Hp;
      [|eapply body_not_json; eauto].
    destruct (comments_of_cases payload)
      as [[Hnull _] | [[cs Hcs] | (Hna & Ht & Hnc & _)]].
    + subst. eapply body_null; eauto.
    + rewrite (attempt_array _ _ _ _ Hf Hok Hp Hcs) in H.
      destruct (map_outcome normalize (take 50 cs)) as [ns|e] eqn:Hn.
      * simpl in H. pose proof (enrich_outcome url ns) as Hen.
        rewrite (normalized_unprintable _ _ Hn) in Hen.
        destruct (existsb _ (take 50 cs)) eqn:Hex.
        -- apply List.existsb_exists in Hex. destruct Hex as (c & Hin & Hb).
           apply andb_prop in Hb. destruct Hb as [Ht Hu].
           eapply creator_unprintable; eauto.
        -- destruct Hen as [rs Hrs]. rewrite Hrs in H. discriminate.
      * apply map_outcome_Throw in Hn. destruct Hn as (c & Hin & Hc).
        apply normalize_Throw in Hc. destruct Hc as [-> _].
        eapply comment_null; eauto.
    + eapply comments_not_array; eauto.
  - intros [msg Hf | r Hf Hok | r Hf Hok Hp | r Hf Hok Hp
            | r payload Hf Hok Hp Hna Ht Hnc | r payload cs Hf Hok Hp Hcs Hin
            | r payload cs c Hf Hok Hp Hcs Hin Ht Hu];
      try (unfold Proxy.attempt, Proxy.attempt_try;
           rewrite Hf; simpl; try rewrite Hok; simpl; try rewrite Hp; simpl;
           eauto; fail).
    + unfold Proxy.attempt, Proxy.attempt_try. rewrite Hf, Hok, Hp. simpl.
      destruct (comments_of_cases payload)
        as [[Hnull Hc] | [[cs Hcs] | (_ & _ & _ & Hc)]].
      * rewrite Hc. simpl. eauto.
      * exfalso. unfold comments_of in Hcs. rewrite Hna in Hcs. simpl in Hcs.
        destruct payload; simpl in *; try discriminate.
        unfold Js.or in Hcs. rewrite Ht in Hcs. inversion Hcs as [Hc].
        rewrite Hc in Hnc. discriminate.
      * rewrite Hc. simpl.
        destruct (prop payload "comments") as [[| | | |cs|]|]; simpl; eauto.
        discriminate.
    + rewrite (attempt_array _ _ _ _ Hf Hok Hp Hcs).
      destruct (map_outcome normalize (take 50 cs)) as [ns|e] eqn:Hn;
        simpl; eauto.
      exfalso. apply map_outcome_Forall2 in Hn.
      clear - Hn Hin. induction Hn as [|c n l l' Hc _ IH]; simpl in Hin; auto.
      destruct Hin as [->|Hin]; auto. discriminate.
    + rewrite (attempt_array _ _ _ _ Hf Hok Hp Hcs).
      destruct (map_outcome normalize (take 50 cs)) as [ns|e] eqn:Hn;
        simpl; eauto.
      pose proof (enrich_outcome url ns) as Hen.
      rewrite (normalized_unprintable _ _ Hn) in Hen.
      assert (Hex : existsb (fun c => truthy (prop c "creator_id")
                       && unprintable_value (prop c "creator_id"))
                      (take 50 cs) = true).
      { apply List.existsb_exists. exists c. rewrite Ht, Hu. auto. }
      rewrite Hex in Hen. rewrite Hen. eauto.
Qed.

(** ** The requests of a candidate *)

Lemma candidate_requests_app l1 l2 :
  candidate_requests (l1 ++ l2) = candidate_requests l1 ++ candidate_requests l2.
Proof. unfold candidate_requests. apply List.filter_app. Qed.

Lemma lookup_requests_app l1 l2 :
  lookup_requests (l1 ++ l2) = lookup_requests l1 ++ lookup_requests l2.
Proof. unfold lookup_requests. apply List.filter_app. Qed.

Lemma lookup_try_log url i v :
  fst (lookup_try url i v)
  = if unprintable_value v then [] else [lookup_request url i v].
Proof.
  unfold Proxy.lookup_try, string_of. destruct (unprintable_value v);
    reflexivity.
Qed.

(** Every request of the enrichment is a lookup, sent with the timeout. *)
Lemma enrich_log_timeouts url rs :
  Forall (fun rq => req_timeout rq = Some 6000) (fst (enrich url rs)).
Proof.
  rewrite enrich_log. generalize (avatar_ids rs). intros ids.
  induction ids as [|x ids IH] using rev_ind; [constructor|].
  rewrite imap_snoc, concat_app. apply List.Forall_app. split; [exact IH|].
  simpl. rewrite lookup_try_log.
  destruct (unprintable_value x); simpl; repeat constructor.
Qed.

Lemma candidate_requests_timeouts log :
  Forall (fun rq => req_timeout rq = Some 6000) log ->
  candidate_requests log = [] /\ lookup_requests log = log.
Proof.
  unfold candidate_requests, lookup_requests.
  induction 1 as [|rq l Hrq _ [IH1 IH2]]; simpl; [auto|].
  rewrite Hrq, IH1, IH2. auto.
Qed.

Lemma attempt_log url :
  exists log,
    fst (attempt url) = get_request url None :: log
    /\ Forall (fun rq => req_timeout rq = Some 6000) log.
Proof.
  unfold Proxy.attempt, Proxy.attempt_try.
  destruct (fetch (get_request url None)) as [r|msg]; simpl; eauto.
  destruct (ok r); simpl; eauto.
  destruct (JSON_parse (text r)) as [payload|]; simpl; eauto.
  destruct (comments_of payload) as [[[| | | |cs|]|]|]; simpl; eauto.
  destruct (map_outcome normalize (take 50 cs)) as [ns|]; simpl; eauto.
  pose proof (enrich_log_timeouts url ns) as H.
  destruct (Proxy.enrich cfg fetch JSON_parse base64 url ns) as [elog o].
  simpl in *. eauto.
Qed.

Lemma attempt_candidate_requests url :
  candidate_requests (fst (attempt url)) = [get_request url None].
Proof.
  destruct (attempt_log url) as (log & -> & Hlog).
  apply candidate_requests_timeouts in Hlog. destruct Hlog as [Hc _].
  change (get_request url None :: log)
    with ([get_request url None] ++ log)%list.
  rewrite candidate_requests_app, Hc. reflexivity.
Qed.

Lemma candidate_requests_attempts urls :
  candidate_requests (concat (map (fun u => fst (attempt u)) urls))
  = map (fun u => get_request u None) urls.
Proof.
  induction urls as [|u urls IH]; simpl; [reflexivity|].
  rewrite candidate_requests_app, attempt_candidate_requests, IH. reflexivity.
Qed.

Lemma fallback_first pre url post e0 log rs :
  Forall rejected pre ->
  attempt url = (log, Accepted rs) ->
  fallback (pre ++ url :: post) e0
  = (concat (map (fun u => fst (attempt u)) pre) ++ log, CommentsOk rs).
Proof.
  intros Hpre Hat. revert e0.
  induction Hpre as [|u pre Hu _ IH]; simpl; intros e0.
  - rewrite Hat. reflexivity.
  - apply attempt_rejected_iff in Hu. destruct Hu as [e He].
    destruct (attempt u) as [ulog ures]. simpl in He. subst.
    rewrite IH. simpl. rewrite <- app_assoc. reflexivity.
Qed.

(** C2 (as the code has it). The candidates are three. A candidate is
    passed over exactly when its request fails, its status is not a success,
    its body is not JSON, the parsed body is null, the parsed body is not an
    array and has a truthy "comments" field that is not an array, one of the
    first 50 comments is null, or one of them has a creator id that cannot
    be converted to a string. A body that is neither null nor an array and
    has no truthy "comments" field counts as the empty list: the candidate
    is used and answers the empty list, with no other request. The first
    candidate that is not passed over gives the response, and no later
    candidate is requested. *)
Theorem comments_fallback (postId : string) :
  length (comment_urls postId) = 3%nat
  /\ (forall url, (exists e, snd (attempt url) = Rejected e) <-> rejected url)
  /\ (forall url r payload,
        fetch (get_request url None) = Reply r -> ok r = true ->
        JSON_parse (text r) = Some payload ->
        payload <> JNull -> isArray (Some payload) = false ->
        truthy (prop payload "comments") = false ->
        attempt url = ([get_request url None], Accepted []))
  /\ (forall pre url post log rs,
        comment_urls postId = pre ++ url :: post ->
        Forall rejected pre ->
        attempt url = (log, Accepted rs) ->
        snd (comments_handler postId) = CommentsOk rs
        /\ candidate_requests (fst (comments_handler postId))
           = map (fun u => get_request u None) (pre ++ [url])).
Proof.
  split; [reflexivity|].
  split; [exact attempt_rejected_iff|].
  split.
  - intros url r payload Hf Hok Hp Hnn Hna Ht.
    rewrite (attempt_array _ _ _ [] Hf Hok Hp);
      [reflexivity | apply comments_of_default; assumption].
  - intros pre url post log rs Hurls Hpre Hat.
    unfold Proxy.comments_handler. rewrite Hurls.
    rewrite (fallback_first pre url post ErrNull log rs Hpre Hat). simpl.
    split; [reflexivity|].
    rewrite candidate_requests_app, candidate_requests_attempts, map_app.
    f_equal.
    pose proof (attempt_candidate_requests url) as Hc. rewrite Hat in Hc.
    exact Hc.
Qed.

(** ** Exhausted fallback *)

Lemma fallback_exhausted urls u e0 :
  Forall rejected (urls ++ [u]) ->
  exists d,
    snd (attempt u) = Rejected d
    /\ fallback (urls ++ [u]) e0
       = (concat (map (fun x => fst (attempt x)) (urls ++ [u])),
          CommentsBadGateway d).
Proof.
  revert e0. induction urls as [|x urls IH]; simpl; intros e0 H.
  - inversion H as [|? ? Hu _]; subst.
    apply attempt_rejected_iff in Hu. destruct Hu as [d Hd].
    exists d. split; [exact Hd|].
    destruct (attempt u) as [ulog ures]. simpl in Hd. subst. reflexivity.
  - inversion H as [|? ? Hx Hrest]; subst.
    apply attempt_rejected_iff in Hx. destruct Hx as [e He].
    destruct (attempt x) as [xlog xres]. simpl in He. subst.
    destruct (IH e Hrest) as (d & Hd & Hfb). exists d. split; [exact Hd|].
    rewrite Hfb. reflexivity.
Qed.

(** What a passed-over candidate leaves in [lastErr], case by case. *)
Lemma attempt_rejected_err url d :
  snd (attempt url) = Rejected d ->
  match fetch (get_request url None) with
  | Failed msg => d = ErrThrown url (FetchError msg)
  | Reply r =>
      (ok r = false -> d = http_err url r)
      /\ (JSON_parse (text r) = None -> d = http_err url r)
      /\ (forall payload,
            ok r = true -> JSON_parse (text r) = Some payload ->
            (isArray (Some payload) = false ->
             truthy (prop payload "comments") = true ->
             isArray (prop payload "comments") = false ->
             d = http_err url r)
            /\ (payload = JNull -> d = ErrThrown url TypeError)
            /\ (forall cs, comments_of payload = Ok (Some (JArr cs)) ->
                           d = ErrThrown url TypeError))
  end.
Proof.
  intros Hd.
  destruct (fetch (get_request url None)) as [r|msg] eqn:Hf.
  - split; [|split].
    + intros Hok. revert Hd. unfold Proxy.attempt, Proxy.attempt_try.
      rewrite Hf, Hok. simpl. congruence.
    + intros Hp. revert Hd. unfold Proxy.attempt, Proxy.attempt_try.
      rewrite Hf, Hp. simpl. destruct (negb (ok r)); simpl; congruence.
    + intros payload Hok Hp. split; [|split].
      * intros Hna Ht Hnc. revert Hd.
        unfold Proxy.attempt, Proxy.attempt_try. rewrite Hf, Hok, Hp. simpl.
        destruct (comments_of_cases payload)
          as [[Hnull Hc] | [[cs Hcs] | (_ & _ & _ & Hc)]].
        -- subst payload. simpl in Ht. discriminate.
        -- exfalso. unfold comments_of in Hcs. rewrite Hna in Hcs.
           destruct payload; simpl in *; try discriminate.
           unfold Js.or in Hcs. rewrite Ht in Hcs. inversion Hcs as [Hc].
           rewrite Hc in Hnc. discriminate.
        -- rewrite Hc.
           destruct (prop payload "comments") as [[| | | |cs|]|]; simpl;
             try congruence.
           discriminate.
      * intros ->. revert Hd.
        unfold Proxy.attempt, Proxy.attempt_try. rewrite Hf, Hok, Hp. simpl.
        congruence.
      * intros cs Hcs. rewrite (attempt_array _ _ _ _ Hf Hok Hp Hcs) in Hd.
        destruct (map_outcome normalize (take 50 cs)) as [ns|e] eqn:Hn.
        -- simpl in Hd. pose proof (enrich_outcome url ns) as Hen.
           destruct (existsb _ ns).
           ++ rewrite Hen in Hd. congruence.
           ++ destruct Hen as [rs Hrs]. rewrite Hrs in Hd. discriminate.
        -- apply map_outcome_Throw in Hn. destruct Hn as (c & _ & Hc).
           apply normalize_Throw in Hc. destruct Hc as [_ ->].
           simpl in Hd. congruence.
  - revert Hd. unfold Proxy.attempt, Proxy.attempt_try. rewrite Hf. simpl.
    congruence.
Qed.

(** C6 (as the code has it). When all three candidates are passed over the
    response is a 502 whose debug field describes the last candidate. When
    the upstream answered it with a status that is not a success, with a
    body that is not JSON, or with a body that is not an array and has a
    truthy "comments" field that is not an array, the field holds the URL,
    the status, the lower-cased content type and the first 250 characters
    of the body. When the request failed it holds the URL and that error.
    When the parsed body is null or gives an array of comments (of which
    one is null or has a creator id that cannot be printed) it holds the
    URL and a TypeError. *)
Theorem comments_exhausted (postId : string) :
  Forall rejected (comment_urls postId) ->
  exists d,
    snd (comments_handler postId) = CommentsBadGateway d
    /\ comments_status (snd (comments_handler postId)) = 502
    /\ candidate_requests (fst (comments_handler postId))
       = map (fun u => get_request u None) (comment_urls postId)
    /\ match fetch (get_request (last_url postId) None) with
       | Failed msg => d = ErrThrown (last_url postId) (FetchError msg)
       | Reply r =>
           let http :=
             ErrHttp (last_url postId) (status r)
               (toLowerCase (str_or (content_type r) ""))
               (slice0 250 (text r)) in
           (ok r = false -> d = http)
           /\ (JSON_parse (text r) = None -> d = http)
           /\ (forall payload,
                 ok r = true -> JSON_parse (text r) = Some payload ->
                 (isArray (Some payload) = false ->
                  truthy (prop payload "comments") = true ->
                  isArray (prop payload "comments") = false ->
                  d = http)
                 /\ (payload = JNull ->
                     d = ErrThrown (last_url postId) TypeError)
                 /\ (forall cs, comments_of payload = Ok (Some (JArr cs)) ->
                                d = ErrThrown (last_url postId) TypeError))
       end.
Proof.
  intros H. unfold Proxy.comments_handler.
  change (comment_urls postId)
    with ((["https://e621.net/posts/" +:+ postId +:+ "/comments.json";
            "https://e621.net/comments.json?post_id=" +:+ postId]
           ++ [last_url postId])%list) in *.
  destruct (fallback_exhausted _ _ ErrNull H) as (d & Hd & Hfb).
  exists d. rewrite Hfb. cbn [fst snd].
  split; [reflexivity|]. split; [reflexivity|].
  split; [apply candidate_requests_attempts|].
  exact (attempt_rejected_err _ _ Hd).
Qed.

(** ** Avatar enrichment *)

Lemma or_null a :
  Js.or a (Some JNull) = Some JNull \/ truthy (Js.or a (Some JNull)) = true.
Proof. unfold Js.or. destruct (truthy a) eqn:E; auto. Qed.


Lemma last_with_key_snoc ids x key :
  last_with_key (ids ++ [x]) key
  = if String.eqb (value_to_string x) key then Some (length ids)
    else last_with_key ids key.
Proof.
  unfold last_with_key. rewrite imap_snoc, fold_left_app. simpl.
  destruct (String.eqb _ key); reflexivity.
Qed.

Lemma last_with_key_Some ids key i :
  last_with_key ids key = Some i ->
  exists v, ids !! i = Some v /\ value_to_string v = key.
Proof.
  induction ids as [|x ids IH] using rev_ind; [discriminate|].
  rewrite last_with_key_snoc.
  destruct (String.eqb (value_to_string x) key) eqn:E.
  - intros H. inversion H; subst. exists x. apply String.eqb_eq in E.
    split; [|exact E]. rewrite lookup_app_r by lia.
    rewrite Nat.sub_diag. reflexivity.
  - intros H. destruct (IH H) as (v & Hv & Hk). exists v. split; [|exact Hk].
    rewrite lookup_app_l; [exact Hv|]. eapply lookup_lt_Some, Hv.
Qed.

(** The entry [Object.fromEntries] keeps under a key is the one of the last
    id looked up that has this key. *)
Lemma fromEntries_lookup url ids m key :
  fromEntries (imap (lookup url) ids) = Ok m ->
  m !! key
  = match last_with_key ids key with
    | Some i =>
        match ids !! i with
        | Some v => Some (snd (lookup url i v))
        | None => None
        end
    | None => None
    end.
Proof.
  revert m. induction ids as [|x ids IH] using rev_ind; intros m.
  - intros H. inversion H; subst. reflexivity.
  - rewrite imap_snoc, fromEntries_snoc.
    destruct (fromEntries (imap (lookup url) ids)) as [m0|] eqn:Hm0;
      simpl; [|discriminate].
    rewrite lookup_fst.
    destruct (string_of_cases x) as [[_ ->]|[_ ->]]; simpl; [discriminate|].
    intros H. inversion H; subst. rewrite last_with_key_snoc.
    destruct (String.eqb (value_to_string x) key) eqn:E.
    + apply String.eqb_eq in E. subst key. rewrite lookup_insert_eq.
      rewrite lookup_app_r by lia. rewrite Nat.sub_diag. reflexivity.
    + assert (Hne : value_to_string x <> key)
        by (intros Heq; apply String.eqb_eq in Heq; congruence).
      rewrite lookup_insert_ne by exact Hne. rewrite (IH m0 eq_refl).
      destruct (last_with_key ids key) as [i|] eqn:Hl; [|reflexivity].
      destruct (last_with_key_Some _ _ _ Hl) as (v & Hv & _).
      rewrite lookup_app_l; [reflexivity|]. eapply lookup_lt_Some, Hv.
Qed.

Lemma set_avatar_enriched url ids m c c' :
  fromEntries (imap (lookup url) ids) = Ok m ->
  set_avatar m c = Ok c' ->
  enriched url ids c c'.
Proof.
  intros Hm Hset. unfold enriched_from.
  split; [eapply set_avatar_same; eauto|].
  revert Hset. unfold Proxy.set_avatar.
  destruct (truthy (creator_id c)) eqn:Hc.
  - destruct (string_of_cases (creator_id c)) as [[_ ->]|[_ ->]];
      cbn [Js.bind]; [discriminate|].
    unfold read. rewrite (fromEntries_lookup _ _ _ _ Hm).
    intros Hset. split; [discriminate|]. intros _.
    destruct (last_with_key ids (value_to_string (creator_id c)))
      as [i|] eqn:Hl.
    + destruct (last_with_key_Some _ _ _ Hl) as (v & Hv & Hk).
      rewrite Hv in Hset. exists v. repeat split; auto.
      inversion Hset; subst.
      destruct (truthy (snd (lookup url i v))); reflexivity.
    + destruct (existsb _ object_prototype); inversion Hset; reflexivity.
  - intros Hset. inversion Hset; subst. split; [reflexivity|discriminate].
Qed.

Lemma enrich_enriched url results rs :
  snd (enrich url results) = Ok rs ->
  Forall2 (enriched url (avatar_ids results)) results rs.
Proof.
  unfold Proxy.enrich.
  destruct (length (avatar_ids results) =? 0)%nat eqn:E; simpl.
  - intros H. inversion H; subst. apply Nat.eqb_eq in E.
    assert (Hnil : avatar_ids rs = [])
      by (destruct (avatar_ids rs); [reflexivity|discriminate]).
    pose proof (avatar_ids_empty _ Hnil) as Hall. rewrite Hnil. clear - Hall.
    induction Hall as [|c l Hc _ IH]; constructor; auto.
    unfold enriched_from. split; [apply same_comment_refl|].
    split; [reflexivity|]. rewrite Hc. discriminate.
  - destruct (fromEntries (imap (lookup url) (avatar_ids results)))
      as [m|] eqn:Hm; simpl; [|discriminate].
    generalize dependent (avatar_ids results). intros ids _ Hm H.
    apply map_outcome_Forall2 in H.
    induction H; constructor; eauto using set_avatar_enriched.
Qed.

(** When the enrichment goes through, every id was looked up. *)
Lemma enrich_log_Ok url results rs :
  snd (enrich url results) = Ok rs ->
  fst (enrich url results) = imap (lookup_request url) (avatar_ids results).
Proof.
  intros H. rewrite enrich_log.
  pose proof (enrich_outcome url results) as Hen.
  destruct (existsb _ results) eqn:Hex; [congruence|]. clear Hen H.
  destruct (avatar_ids_spec results) as (_ & _ & Hids & _).
  assert (Hp : forall v, In v (avatar_ids results) ->
                         unprintable_value v = false).
  { intros v Hv. destruct (Hids v Hv) as (Ht & c & Hc & <-).
    destruct (unprintable_value (creator_id c)) eqn:Hu; [|reflexivity].
    assert (existsb (fun c => truthy (creator_id c)
                              && unprintable_value (creator_id c)) results
            = true)
      by (apply List.existsb_exists; exists c; rewrite Ht, Hu; auto).
    congruence. }
  clear Hids Hex. revert Hp. generalize (avatar_ids results). intros ids.
  induction ids as [|x ids IH] using rev_ind; intros Hp; [reflexivity|].
  rewrite !imap_snoc, concat_app, IH
    by (intros v Hv; apply Hp, List.in_app_iff; auto).
  simpl. rewrite lookup_try_log, Hp by (apply List.in_app_iff; simpl; auto).
  reflexivity.
Qed.

Lemma normalize_avatar cs ns :
  map_outcome normalize cs = Ok ns ->
  Forall (fun n => avatar_url n = Some JNull) ns.
Proof.
  intros H. apply map_outcome_Forall2 in H.
  induction H as [|c n cs' ns' Hc _ IH]; constructor; auto.
  unfold normalize in Hc. destruct (get (Some c) "id"); simpl in Hc;
    inversion Hc; reflexivity.
Qed.

(** The facts about the ids, the log and the avatars of a candidate that is
    used. *)
Lemma attempt_enriched url log rs :
  attempt url = (log, Accepted rs) ->
  exists r payload cs ns,
    fetch (get_request url None) = Reply r
    /\ JSON_parse (text r) = Some payload
    /\ comments_of payload = Ok (Some (JArr cs))
    /\ map_outcome normalize (take 50 cs) = Ok ns
    /\ Forall (fun n => avatar_url n = Some JNull) ns
    /\ log = get_request url None :: imap (lookup_request url) (avatar_ids ns)
    /\ Forall2 (enriched url (avatar_ids ns)) ns rs.
Proof.
  intros H. apply attempt_accepted in H.
  destruct H as (r & payload & cs & ns & Hf & Hok & Hp & Hc & Hn & Hrs & Hlog).
  exists r, payload, cs, ns. repeat (split; [assumption|]).
  split; [eapply normalize_avatar; eauto|].
  split; [rewrite Hlog, (enrich_log_Ok _ _ _ Hrs); reflexivity|].
  apply enrich_enriched. exact Hrs.
Qed.

End ProxyFacts.





(* ===================================================================== *)
(** * Properties of the feed controller *)
(* ===================================================================== *)

Section EscapeFacts.

Import Feed.

(** ** escapeHtml *)

Lemma append_nil b : "" +:+ b = b.
Proof. reflexivity. Qed.

Lemma append_cons c a b : String c a +:+ b = String c (a +:+ b).
Proof. reflexivity. Qed.

Lemma append_assoc a b c : a +:+ (b +:+ c) = (a +:+ b) +:+ c.
Proof.
  induction a as [|x a IH]; [reflexivity|].
  rewrite !append_cons, IH. reflexivity.
Qed.

Lemma prefix_nil t : String.prefix "" t = true.
Proof. destruct t; reflexivity. Qed.

Ltac string_simpl := repeat (rewrite ?append_cons, ?append_nil; simpl).

Ltac entity_case :=
  string_simpl; unfold entity_tail; simpl; rewrite prefix_nil.

Lemma replaceAll_app c rep a b :
  replaceAll c rep (a +:+ b) = replaceAll c rep a +:+ replaceAll c rep b.
Proof.
  induction a as [|x a IH]; [reflexivity|].
  rewrite append_cons. simpl.
  destruct (Ascii.eqb x c); rewrite IH;
    [apply append_assoc | rewrite append_cons; reflexivity].
Qed.

Lemma escape_string_cons c s :
  escape_string (String c s) = escape_char c +:+ escape_string s.
Proof.
  unfold escape_string, escape_char.
  change (String c s) with (String c EmptyString +:+ s).
  rewrite !replaceAll_app. f_equal.
  destruct (Ascii.eqb c amp) eqn:E1;
    [apply Ascii.eqb_eq in E1; subst; reflexivity|].
  destruct (Ascii.eqb c lt) eqn:E2;
    [apply Ascii.eqb_eq in E2; subst; reflexivity|].
  destruct (Ascii.eqb c gt) eqn:E3;
    [apply Ascii.eqb_eq in E3; subst; reflexivity|].
  destruct (Ascii.eqb c dquote) eqn:E4;
    [apply Ascii.eqb_eq in E4; subst; reflexivity|].
  destruct (Ascii.eqb c squote) eqn:E5;
    [apply Ascii.eqb_eq in E5; subst; reflexivity|].
  simpl. rewrite E1. simpl. rewrite E2. simpl. rewrite E3. simpl.
  rewrite E4. simpl. rewrite E5. reflexivity.
Qed.

Lemma escape_string_chars s : escape_string s = escape_chars s.
Proof.
  induction s as [|c s IH]; [reflexivity|].
  rewrite escape_string_cons, IH. reflexivity.
Qed.

Lemma well_escaped_char c t :
  well_escaped t = true -> well_escaped (escape_char c +:+ t) = true.
Proof.
  intros H. unfold escape_char.
  destruct (Ascii.eqb c amp) eqn:E1; [entity_case; exact H|].
  destruct (Ascii.eqb c lt) eqn:E2; [entity_case; exact H|].
  destruct (Ascii.eqb c gt) eqn:E3; [entity_case; exact H|].
  destruct (Ascii.eqb c dquote) eqn:E4; [entity_case; exact H|].
  destruct (Ascii.eqb c squote) eqn:E5; [entity_case; exact H|].
  string_simpl. unfold markup_char. rewrite E1, E2, E3, E4, E5. simpl. exact H.
Qed.

Lemma escape_chars_well_escaped s : well_escaped (escape_chars s) = true.
Proof.
  induction s as [|c s IH]; [reflexivity|].
  simpl. apply well_escaped_char. exact IH.
Qed.

Lemma well_escaped_no_markup s : well_escaped s = true -> no_markup s = true.
Proof.
  induction s as [|c s IH]; simpl; [reflexivity|].
  intros H. apply andb_prop in H. destruct H as [H Hs].
  apply andb_prop in H. destruct H as [Hc _].
  rewrite Hc. simpl. auto.
Qed.

Lemma no_markup_slice0 n s : no_markup s = true -> no_markup (slice0 n s) = true.
Proof.
  revert s. induction n as [|n IH]; intros [|c s]; simpl; auto.
  unfold slice0; fold slice0. simpl.
  intros H. apply andb_prop in H. destruct H as [Hc Hs].
  rewrite Hc. simpl. auto.
Qed.

Lemma escapeHtml_well_escaped v : well_escaped (escapeHtml v) = true.
Proof.
  unfold escapeHtml. rewrite escape_string_chars.
  apply escape_chars_well_escaped.
Qed.

(** ** The markup of a card *)

Ltac bind_Ok H x E :=
  match type of H with
  | Js.bind ?m _ = Ok _ =>
      destruct m as [x|] eqn:E; cbn [Js.bind] in H; [|discriminate H]
  end.

Lemma string_of_Ok v t :
  string_of v = Ok t -> t = value_to_string v /\ unprintable_value v = false.
Proof.
  unfold string_of. destruct (unprintable_value v); intros H; inversion H; auto.
Qed.

Lemma string_of_printable v :
  unprintable_value v = false -> string_of v = Ok (value_to_string v).
Proof. unfold string_of. intros ->. reflexivity. Qed.

Lemma escapeHtml_call_Ok s t : escapeHtml_call s = Ok t -> t = escapeHtml s.
Proof.
  unfold escapeHtml_call. destruct (string_of _); simpl; intros H;
    inversion H; auto.
Qed.

(** The markup of a card, when building it does not throw. *)
Lemma card_info_Ok js_minus p html :
  card_info js_minus p = Ok html ->
  exists artistText,
    artist_text p = Ok artistText
    /\ forallb (fun v => negb (unprintable_value v)) (printed_values p)
       = true
    /\ html
       = [Lit (nl +:+ "    <div><strong>Artist:</strong> ");
          Escaped (escapeHtml (Some (JStr artistText)));
          Lit ("</div>" +:+ nl +:+ "    <div><strong>Score:</strong> ")]
         ++ match raw_values js_minus p with
            | [total; up; down; commentCount] =>
                [Raw (value_to_string total);
                 Lit " (⬆ ";
                 Raw (value_to_string up);
                 Lit " / ⬇ ";
                 Raw (value_to_string down);
                 Lit (")</div>" +:+ nl
                      +:+ "    <div><strong>Comments:</strong> ");
                 Raw (value_to_string commentCount)]
            | _ => []
            end
         ++ [Lit ("</div>" +:+ nl +:+ "    ")]
         ++ (if truthy (description_of p)
             then [Lit ("<div style="
                        +:+ String dquote "margin-top:6px; opacity:0.95;"
                        +:+ String dquote ">");
                   Escaped (slice0 300 (escapeHtml (description_of p)));
                   Lit "</div>"]
             else [Lit ""])
         ++ [Lit (nl +:+ "  ")].
Proof.
  unfold card_info, raw_values. intros H.
  bind_Ok H artistText Ea. bind_Ok H artistHtml Eh.
  bind_Ok H totalText E1. bind_Ok H upText E2. bind_Ok H downText E3.
  bind_Ok H countText E4. bind_Ok H descHtml E5.
  apply escapeHtml_call_Ok in Eh.
  apply string_of_Ok in E2, E3, E4.
  destruct E2 as [-> U2], E3 as [-> U3], E4 as [-> U4].
  assert (Ht : totalText
               = value_to_string
                   (nullish (opt_get (opt_get p "score") "total")
                      (js_minus
                         (nullish (opt_get (opt_get p "score") "up")
                            (Some (JNum 0)))
                         (nullish (opt_get (opt_get p "score") "down")
                            (Some (JNum 0)))))
               /\ unprintable_value (opt_get (opt_get p "score") "total")
                  = false).
  { destruct (opt_get (opt_get p "score") "total") as [[| | | | |]|];
      try (apply string_of_Ok in E1; exact E1);
      cbv beta iota in E1; cbn [Js.bind] in E1; inversion E1; auto. }
  destruct Ht as [-> U1]. clear E1.
  exists artistText. split; [reflexivity|].
  split; [unfold printed_values; cbn [forallb]; rewrite U1, U2, U3, U4;
          reflexivity|].
  inversion H; subst; clear H.
  destruct (truthy (description_of p)).
  - bind_Ok E5 html Ed. apply escapeHtml_call_Ok in Ed. inversion E5; subst.
    reflexivity.
  - inversion E5; subst. reflexivity.
Qed.

Lemma card_info_segments js_minus p html :
  card_info js_minus p = Ok html ->
  exists artistText,
    artist_text p = Ok artistText
    /\ Forall (segment_ok js_minus artistText p) html.
Proof.
  intros H. apply card_info_Ok in H.
  destruct H as (artistText & Ha & _ & ->). exists artistText.
  split; [exact Ha|].
  assert (Hn : no_markup (escapeHtml (Some (JStr artistText))) = true)
    by apply well_escaped_no_markup, escapeHtml_well_escaped.
  assert (Hd : no_markup (slice0 300 (escapeHtml (description_of p))) = true)
    by apply no_markup_slice0, well_escaped_no_markup, escapeHtml_well_escaped.
  unfold raw_values.
  destruct (truthy (description_of p)); simpl app;
    repeat (apply List.Forall_cons;
            [unfold segment_ok, template_literals; simpl; tauto|]);
    apply List.Forall_nil.
Qed.

Lemma card_info_raw js_minus p html :
  card_info js_minus p = Ok html ->
  raw_texts html = map value_to_string (raw_values js_minus p).
Proof.
  intros H. apply card_info_Ok in H.
  destruct H as (artistText & _ & _ & ->). unfold raw_values.
  destruct (truthy (description_of p)); reflexivity.
Qed.

(** What [addPost] appends, when it does not throw. *)
Lemma addPost_appends js_minus h p st st' :
  addPost js_minus h p st = Ok st' ->
  exists c,
    st' = set_fresh (S (fresh st)) (set_cards (cards st ++ [c]) st)
    /\ node c = fresh st /\ post c = p
    /\ postId c = value_to_string (prop p "id")
    /\ offsetHeight c = h (fresh st)
    /\ panel c = None /\ outsideTapHandler c = None
    /\ card_info js_minus (Some p) = Ok (info c).
Proof.
  unfold addPost. intros H.
  bind_Ok H pid Ei. bind_Ok H pidText Et. bind_Ok H ext Ee.
  bind_Ok H mediaEl Em. bind_Ok H html Ec.
  inversion H; subst; clear H. eexists. split; [reflexivity|]. simpl.
  apply string_of_Ok in Et. destruct Et as [-> _].
  repeat split; auto.
  destruct p; simpl in Ei; inversion Ei; reflexivity.
Qed.

(** C10 (as the code has it). The output of [escapeHtml] holds none of the
    characters that open or close a tag or an attribute value, every
    ampersand in it starts one of the five entities, and on a string it is
    the string with each special character replaced by its entity. In the
    markup [addPost] gives a card, the text of the artists and of the
    description appears only as escaped segments, none of which holds a
    markup character; the total, the up and the down score and the comment
    count are interpolated as they print, without escaping, so a string
    among them is in the markup as it is. *)
Theorem escape_no_injection :
  (forall v : value, well_escaped (escapeHtml v) = true
                     /\ no_markup (escapeHtml v) = true)
  /\ (forall s : string, escapeHtml (Some (JStr s)) = escape_chars s)
  /\ (forall js_minus h p st st',
        addPost js_minus h p st = Ok st' ->
        exists c artistText,
          cards st' = cards st ++ [c]
          /\ artist_text (Some p) = Ok artistText
          /\ card_info js_minus (Some p) = Ok (info c)
          /\ Forall (segment_ok js_minus artistText (Some p)) (info c)
          /\ raw_texts (info c)
             = map value_to_string (raw_values js_minus (Some p))
          /\ (forall s, In (Some (JStr s)) (raw_values js_minus (Some p)) ->
                        In s (raw_texts (info c)))).
Proof.
  split; [|split].
  - intros v. split; [|apply well_escaped_no_markup];
      apply escapeHtml_well_escaped.
  - intros s. unfold escapeHtml. simpl. apply escape_string_chars.
  - intros js_minus h p st st' H. apply addPost_appends in H.
    destruct H as (c & -> & _ & _ & _ & _ & _ & _ & Hinfo).
    destruct (card_info_segments _ _ _ Hinfo) as (artistText & Ha & Hseg).
    exists c, artistText. split; [reflexivity|].
    rewrite (card_info_raw _ _ _ Hinfo). repeat split; auto.
    intros s Hin. apply List.in_map_iff. exists (Some (JStr s)).
    split; [reflexivity|exact Hin].
Qed.

End EscapeFacts.

Section PruneFacts.

Import Feed.

(** ** The current index *)

Lemma indexed_In {A} (l : list A) i x : In (i, x) (indexed l) -> (i < length l)%nat.
Proof.
  unfold indexed. intros H. apply in_combine_l in H. apply in_seq in H. lia.
Qed.

Lemma visit_fold_bound cs mid n es acc :
  (forall e, In e es -> (fst e < n)%nat) ->
  (fst acc < n)%nat ->
  (fst (fold_left (visit cs mid) es acc) < n)%nat.
Proof.
  revert acc. induction es as [|e es IH]; simpl; intros acc Hes Hacc; auto.
  apply IH; [auto|].
  unfold visit. destruct e as [i c].
  destruct (closer _ (snd acc)); simpl; auto.
  apply (Hes (i, c)). auto.
Qed.

Lemma getCurrentIndexInFeed_lt st :
  cards st <> [] -> (getCurrentIndexInFeed st < length (cards st))%nat.
Proof.
  intros Hne. unfold getCurrentIndexInFeed, getCards.
  destruct (cards st) as [|c cs] eqn:E; [congruence|].
  change (length (c :: cs) =? 0)%nat with false. cbv iota.
  apply visit_fold_bound; [|simpl; lia].
  intros [i x] Hin. apply indexed_In in Hin. exact Hin.
Qed.

(** ** The two removal loops *)

Lemma remove_node_fresh n dom :
  ~ In n (map node dom) -> remove_node n dom = dom.
Proof.
  unfold remove_node. induction dom as [|c dom IH]; simpl; intros H; auto.
  destruct (Nat.eqb_spec (node c) n) as [Heq|Hne]; simpl.
  - exfalso. auto.
  - f_equal. auto.
Qed.

Lemma remove_node_head c dom :
  ~ In (node c) (map node dom) -> remove_node (node c) (c :: dom) = dom.
Proof.
  intros H. unfold remove_node. simpl. rewrite Nat.eqb_refl. simpl.
  apply remove_node_fresh. exact H.
Qed.

Lemma remove_node_last c dom :
  ~ In (node c) (map node dom) -> remove_node (node c) (dom ++ [c]) = dom.
Proof.
  intros H. unfold remove_node. rewrite List.filter_app. simpl.
  rewrite Nat.eqb_refl. simpl. rewrite app_nil_r.
  apply remove_node_fresh. exact H.
Qed.

(** First loop: what is left of the feed is its first [max + 1] cards. *)
Lemma below_loop (max : Z) l pre :
  NoDup (map node (pre ++ l)) ->
  fold_right (below_step max) (pre ++ l)
    (combine (seq (length pre) (length l)) l)
  = pre ++ take (Z.to_nat (max + 1 - Z.of_nat (length pre))) l.
Proof.
  revert pre. induction l as [|c l IH]; intros pre Hnd; simpl.
  - rewrite take_nil. reflexivity.
  - assert (Hnd' : NoDup (map node ((pre ++ [c]) ++ l)))
      by (rewrite <- app_assoc; exact Hnd).
    specialize (IH (pre ++ [c]) Hnd').
    rewrite length_app in IH. simpl in IH.
    replace (length pre + 1)%nat with (S (length pre)) in IH by lia.
    rewrite <- app_assoc in IH. simpl in IH. rewrite IH.
    unfold below_step. simpl.
    destruct (Z.gtb_spec (Z.of_nat (length pre)) max) as [Hgt|Hle].
    + replace (Z.to_nat (max + 1 - Z.of_nat (S (length pre)))) with 0%nat by lia.
      replace (Z.to_nat (max + 1 - Z.of_nat (length pre))) with 0%nat by lia.
      simpl. rewrite !app_nil_r. apply remove_node_last.
      rewrite map_app in Hnd. apply NoDup_app in Hnd.
      destruct Hnd as (_ & Hdis & _). intros Hin.
      apply (Hdis (node c)).
      * apply list_elem_of_In. exact Hin.
      * simpl. left.
    + replace (Z.to_nat (max + 1 - Z.of_nat (length pre)))
        with (S (Z.to_nat (max + 1 - Z.of_nat (S (length pre))))) by lia.
      simpl. rewrite <- app_assoc. reflexivity.
Qed.

Lemma above_loop_noop (min : Z) es acc :
  (forall e, In e es -> min <= Z.of_nat (fst e)) ->
  fold_left (above_step min) es acc = acc.
Proof.
  revert acc. induction es as [|e es IH]; simpl; intros acc H; auto.
  rewrite IH by auto.
  unfold above_step. destruct acc as [[dom ls] r].
  destruct (Z.ltb_spec (Z.of_nat (fst e)) min) as [Hlt|]; auto.
  specialize (H e (or_introl eq_refl)). lia.
Qed.

(** Second loop: the first [min] cards go, with their handlers, and their
    heights add up in [removedAboveHeight]. *)
Lemma above_loop (min : Z) l k ls r :
  NoDup (map node l) ->
  fold_left (above_step min) (combine (seq k (length l)) l) (l, ls, r)
  = (drop (Z.to_nat (min - Z.of_nat k)) l,
     unregister (take (Z.to_nat (min - Z.of_nat k)) l) ls,
     r + heights (take (Z.to_nat (min - Z.of_nat k)) l)).
Proof.
  revert k ls r. induction l as [|c l IH]; intros k ls r Hnd.
  - simpl. rewrite drop_nil, take_nil. simpl. f_equal. lia.
  - simpl combine. simpl fold_left.
    destruct (Z.ltb_spec (Z.of_nat k) min) as [Hlt|Hge].
    + apply NoDup_cons in Hnd. destruct Hnd as [Hc Hnd].
      rewrite Nat.eqb_refl. simpl negb. cbv iota.
      rewrite remove_node_fresh
        by (intros Hin; apply Hc, list_elem_of_In; exact Hin).
      rewrite IH by exact Hnd.
      replace (Z.to_nat (min - Z.of_nat k))
        with (S (Z.to_nat (min - Z.of_nat (S k)))) by lia.
      simpl. f_equal. lia.
    + rewrite above_loop_noop.
      * replace (Z.to_nat (min - Z.of_nat k)) with 0%nat by lia.
        simpl. f_equal. lia.
      * intros [i x] Hin. apply in_combine_l in Hin. apply in_seq in Hin.
        simpl. lia.
Qed.

(** ** One prune *)

Lemma window_bounds st :
  cards st <> [] ->
  0 <= window_min st <= Z.of_nat (getCurrentIndexInFeed st)
  /\ Z.of_nat (getCurrentIndexInFeed st) <= window_max st
  /\ window_max st < Z.of_nat (length (cards st))
  /\ window_max st - window_min st <= 15.
Proof.
  intros Hne. pose proof (getCurrentIndexInFeed_lt st Hne) as Hidx.
  unfold window_min, window_max, KEEP_BEHIND, PRELOAD_AHEAD. lia.
Qed.

Lemma cards_split st : cards st = above st ++ kept st ++ below st.
Proof.
  unfold above, kept, below.
  destruct (cards st) as [|c cs] eqn:E.
  - rewrite !take_nil, !drop_nil. reflexivity.
  - rewrite <- E.
    assert (Hne : cards st <> []) by (rewrite E; discriminate).
    pose proof (window_bounds st Hne) as (Hmin & Hidx & Hmax & _).
    rewrite <- (take_drop (Z.to_nat (window_max st + 1)) (cards st)) at 1.
    rewrite app_assoc. f_equal.
    rewrite <- (take_drop (Z.to_nat (window_min st))
                  (take (Z.to_nat (window_max st + 1)) (cards st))) at 1.
    f_equal. rewrite take_take. f_equal. lia.
Qed.

Lemma kept_length st : (length (kept st) <= 16)%nat.
Proof.
  unfold kept. rewrite length_drop, length_take.
  destruct (cards st) as [|c cs] eqn:E; [simpl; lia|].
  assert (Hne : cards st <> []) by (rewrite E; discriminate).
  pose proof (window_bounds st Hne) as (Hmin & Hidx & Hmax & Hw). lia.
Qed.

Lemma current_in_window st :
  cards st <> [] ->
  (length (above st) <= getCurrentIndexInFeed st
   < length (above st) + length (kept st))%nat.
Proof.
  intros Hne.
  pose proof (window_bounds st Hne) as (Hmin & Hidx & Hmax & Hw).
  unfold above, kept. rewrite length_drop, !length_take. lia.
Qed.

Lemma NoDup_take_nodes n (cs : list card) :
  NoDup (map node cs) -> NoDup (map node (take n cs)).
Proof.
  intros H. rewrite <- (take_drop n cs), map_app in H.
  apply NoDup_app in H. tauto.
Qed.

Lemma pruneAroundCurrent_pruned st :
  NoDup (map node (cards st)) -> cards st <> [] ->
  pruneAroundCurrent st = pruned st.
Proof.
  intros Hnd Hne. unfold pruneAroundCurrent, pruned, getCards. cbv zeta.
  destruct (length (cards st) =? 0)%nat eqn:E.
  { apply Nat.eqb_eq in E. destruct (cards st); [congruence|discriminate]. }
  fold (window_min st). fold (window_max st).
  pose proof (window_bounds st Hne) as (Hmin & Hidx & Hmax & _).
  pose proof (below_loop (window_max st) (cards st) [] Hnd) as H1.
  simpl in H1. unfold indexed. rewrite !H1.
  replace (window_max st + 1 - Z.of_nat 0) with (window_max st + 1) by lia.
  rewrite above_loop by (apply NoDup_take_nodes; exact Hnd).
  replace (Z.to_nat (window_min st - Z.of_nat 0))
    with (Z.to_nat (window_min st)) by lia.
  rewrite take_take.
  replace (Z.to_nat (window_min st) `min` Z.to_nat (window_max st + 1))%nat
    with (Z.to_nat (window_min st)) by lia.
  fold (above st). fold (kept st). simpl. reflexivity.
Qed.

Lemma pruneAroundCurrent_empty st : cards st = [] -> pruneAroundCurrent st = st.
Proof.
  intros H. unfold pruneAroundCurrent, getCards. rewrite H. reflexivity.
Qed.

(** Cards, scroll offset and listeners after a prune, on any feed whose
    elements are distinct. *)
Lemma prune_shape st :
  NoDup (map node (cards st)) ->
  cards (pruneAroundCurrent st) = kept st
  /\ listeners (pruneAroundCurrent st) = unregister (above st) (listeners st)
  /\ scrollTop (pruneAroundCurrent st)
     = (if heights (above st) >? 0
        then Z.max 0 (scrollTop_after st (kept st) - heights (above st))
        else scrollTop_after st (kept st))
  /\ fresh (pruneAroundCurrent st) = fresh st
  /\ loading (pruneAroundCurrent st) = loading st
  /\ clientHeight (pruneAroundCurrent st) = clientHeight st.
Proof.
  intros Hnd. destruct (cards st) as [|c cs] eqn:E.
  - rewrite pruneAroundCurrent_empty by exact E.
    unfold scrollTop_after, kept, above.
    rewrite E, !take_nil, drop_nil. simpl.
    repeat split; auto.
  - rewrite pruneAroundCurrent_pruned;
      [|rewrite E; exact Hnd|rewrite E; discriminate].
    unfold pruned. destruct (heights (above st) >? 0); simpl;
      repeat split; auto.
Qed.

(** ** Sessions: what every reachable feed satisfies *)

Variable js_minus : value -> value -> value.

Local Abbreviation addPost := (Feed.addPost js_minus).
Local Abbreviation render_posts := (Feed.render_posts js_minus).
Local Abbreviation fetchPosts := (Feed.fetchPosts js_minus).
Local Abbreviation step := (Feed.step js_minus).
Local Abbreviation run := (Feed.run js_minus).

Lemma addPost_Ok h p st st' :
  addPost h p st = Ok st' ->
  exists c,
    cards st' = cards st ++ [c]
    /\ node c = fresh st /\ post c = p
    /\ postId c = value_to_string (prop p "id")
    /\ fresh st' = S (fresh st)
    /\ listeners st' = listeners st /\ scrollTop st' = scrollTop st
    /\ loading st' = loading st.
Proof.
  intros H. apply addPost_appends in H.
  destruct H as (c & -> & Hn & Hp & Hi & _). exists c. simpl.
  repeat split; auto.
Qed.

Lemma render_posts_cons h p posts st :
  render_posts h (p :: posts) st
  = match lower_or_empty (opt_get (opt_get (Some p) "file") "ext") with
    | Throw e => (st, Some e)
    | Ok ext =>
        if String.eqb ext "swf" then render_posts h posts st
        else
          match addPost h p st with
          | Throw e => (st, Some e)
          | Ok st' => render_posts h posts st'
          end
    end.
Proof. reflexivity. Qed.

Lemma render_posts_spec h posts st :
  exists new,
    cards (fst (render_posts h posts st)) = cards st ++ new
    /\ sublist (map post new) posts
    /\ Forall (fun c => swf_post (post c) = false) new
    /\ map node new = seq (fresh st) (length new)
    /\ fresh (fst (render_posts h posts st)) = (fresh st + length new)%nat
    /\ listeners (fst (render_posts h posts st)) = listeners st
    /\ scrollTop (fst (render_posts h posts st)) = scrollTop st
    /\ loading (fst (render_posts h posts st)) = loading st.
Proof.
  revert st. induction posts as [|p posts IH]; intros st.
  - exists []. rewrite app_nil_r. simpl. repeat split; auto.
  - rewrite render_posts_cons.
    destruct (lower_or_empty (opt_get (opt_get (Some p) "file") "ext"))
      as [ext|e] eqn:Hext.
    + destruct (String.eqb ext "swf") eqn:Hswf.
      * destruct (IH st) as (new & H1 & H2 & H3).
        exists new. repeat split; try tauto. apply sublist_cons. exact H2.
      * destruct (addPost h p st) as [st1|e] eqn:Hadd.
        -- apply addPost_Ok in Hadd.
           destruct Hadd as (c & Hc & Hn & Hp & _ & Hf & Hl & Hs & Hld).
           destruct (IH st1) as (new & H1 & H2 & H3 & H4 & H5 & H6 & H7 & H8).
           exists (c :: new).
           split; [rewrite H1, Hc, <- app_assoc; reflexivity|].
           split; [simpl; rewrite Hp; apply sublist_skip; exact H2|].
           split; [constructor;
                   [unfold swf_post; rewrite Hp, Hext; exact Hswf|exact H3]|].
           split; [simpl; rewrite Hn, H4, Hf; reflexivity|].
           split; [simpl; rewrite H5, Hf; lia|].
           split; [congruence|]. split; congruence.
        -- exists []. rewrite app_nil_r. simpl. repeat split; auto;
             try apply sublist_nil_l.
    + exists []. rewrite app_nil_r. simpl. repeat split; auto;
        try apply sublist_nil_l.
Qed.

Ltac none_case :=
  exists []; rewrite app_nil_r; simpl; repeat split; auto;
  try apply sublist_nil_l; lia.

Lemma fetchPosts_spec data h st :
  exists new,
    cards (fetchPosts data h st) = cards st ++ new
    /\ sublist (map post new) (page_posts data)
    /\ Forall (fun c => swf_post (post c) = false) new
    /\ map node new = seq (fresh st) (length new)
    /\ fresh (fetchPosts data h st) = (fresh st + length new)%nat
    /\ listeners (fetchPosts data h st) = listeners st
    /\ scrollTop (fetchPosts data h st) = scrollTop st.
Proof.
  unfold Feed.fetchPosts, page_posts.
  destruct (loading st); [none_case|].
  destruct data as [d|e]; [|none_case].
  destruct (Js.or (opt_get (Some d) "posts") (Some (JArr [])))
    as [[| | | |[|p ps]|]|] eqn:Hp; try none_case.
  destruct (render_posts_spec h (p :: ps) (set_loading true st))
    as (new & H1 & H2 & H3 & H4 & H5 & H6 & H7 & _).
  destruct (Feed.render_posts js_minus h (p :: ps) (set_loading true st))
    as [st' [e|]]; simpl in *; exists new; auto 10.
Qed.

Lemma wf_append st new (st' : feed_state) :
  wf st ->
  cards st' = cards st ++ new ->
  map node new = seq (fresh st) (length new) ->
  fresh st' = (fresh st + length new)%nat ->
  wf st'.
Proof.
  intros [Hnd Hlt] Hc Hn Hf. unfold wf. rewrite Hc, Hf, map_app, Hn. split.
  - apply NoDup_app. split; [exact Hnd|]. split; [|apply NoDup_seq].
    intros n Hold Hnew. apply list_elem_of_In in Hold, Hnew.
    apply in_seq in Hnew. apply List.in_map_iff in Hold.
    destruct Hold as (c & <- & Hcin).
    rewrite List.Forall_forall in Hlt. specialize (Hlt c Hcin). lia.
  - apply List.Forall_app. split.
    + eapply List.Forall_impl; [|exact Hlt]. simpl. intros; lia.
    + rewrite List.Forall_forall. intros c Hcin.
      assert (Hin : In (node c) (map node new)) by (apply List.in_map; exact Hcin).
      rewrite Hn in Hin. apply in_seq in Hin. lia.
Qed.

Lemma update_card_nodes n f cs :
  (forall c, node (f c) = node c) -> map node (update_card n f cs) = map node cs.
Proof.
  intros Hf. unfold update_card. rewrite List.map_map. apply List.map_ext.
  intros c. destruct (node c =? n)%nat; auto.
Qed.

Lemma update_card_posts n f cs :
  (forall c, post (f c) = post c) -> map post (update_card n f cs) = map post cs.
Proof.
  intros Hf. unfold update_card. rewrite List.map_map. apply List.map_ext.
  intros c. destruct (node c =? n)%nat; auto.
Qed.

Lemma wf_same_nodes st (st' : feed_state) :
  wf st -> map node (cards st') = map node (cards st) ->
  (fresh st <= fresh st')%nat -> wf st'.
Proof.
  intros [Hnd Hlt] Hn Hf. unfold wf. rewrite Hn. split; [exact Hnd|].
  rewrite List.Forall_forall in *. intros c Hc.
  assert (Hin : In (node c) (map node (cards st)))
    by (rewrite <- Hn; apply List.in_map; exact Hc).
  apply List.in_map_iff in Hin. destruct Hin as (c0 & Hc0 & Hin).
  specialize (Hlt c0 Hin). lia.
Qed.

Lemma toggleComments_cards n st :
  map node (cards (toggleComments n st)) = map node (cards st)
  /\ map post (cards (toggleComments n st)) = map post (cards st)
  /\ (fresh st <= fresh (toggleComments n st))%nat.
Proof.
  unfold toggleComments.
  destruct (List.find _ (cards st)) as [c|]; [|auto].
  destruct (panel c) as [[|]|]; [destruct (outsideTapHandler c)| |];
    try destruct (isMobile st); simpl;
    rewrite ?update_card_nodes, ?update_card_posts by reflexivity; auto.
Qed.

Lemma kept_sublist st : sublist (kept st) (cards st).
Proof.
  unfold kept. etransitivity; [apply sublist_drop|apply sublist_take].
Qed.

Lemma sublist_map {A B} (f : A -> B) l k :
  sublist l k -> sublist (map f l) (map f k).
Proof. induction 1; simpl; constructor; auto. Qed.

Lemma wf_prune st : wf st -> wf (pruneAroundCurrent st).
Proof.
  intros [Hnd Hlt]. destruct (prune_shape st Hnd) as (Hc & _ & _ & Hf & _).
  unfold wf. rewrite Hc, Hf. split.
  - eapply sublist_NoDup; [exact Hnd|apply sublist_map, kept_sublist].
  - rewrite List.Forall_forall in *. intros c Hc'. apply Hlt.
    apply list_elem_of_In. eapply elem_of_sublist; [|apply kept_sublist].
    apply list_elem_of_In. exact Hc'.
Qed.

Lemma wf_step st ev : wf st -> wf (step st ev).
Proof.
  intros Hwf. destruct ev as [data h|top|viewport|h|n|]; simpl.
  - destruct (fetchPosts_spec data h st) as (new & H1 & _ & _ & H4 & H5 & _).
    eapply wf_append; eauto.
  - exact Hwf.
  - exact Hwf.
  - eapply wf_same_nodes; [exact Hwf| |simpl; lia].
    simpl. rewrite List.map_map. reflexivity.
  - destruct (toggleComments_cards n st) as (Hn & _ & Hf).
    eapply wf_same_nodes; eauto.
  - apply wf_prune. exact Hwf.
Qed.

Lemma run_snoc st evs ev : run st (evs ++ [ev]) = step (run st evs) ev.
Proof. unfold Feed.run. rewrite fold_left_app. reflexivity. Qed.

Lemma wf_boot mobile viewport : wf (boot mobile viewport).
Proof. split; simpl; constructor. Qed.

Lemma wf_run mobile viewport evs : wf (run (boot mobile viewport) evs).
Proof.
  induction evs as [|ev evs IH] using rev_ind; [apply wf_boot|].
  rewrite run_snoc. apply wf_step. exact IH.
Qed.

(** The cards of a session are, in order, among the posts fetched. *)
Lemma run_sublist mobile viewport evs :
  sublist (map post (cards (run (boot mobile viewport) evs)))
          (fetched_posts evs).
Proof.
  induction evs as [|ev evs IH] using rev_ind; [simpl; constructor|].
  rewrite run_snoc. unfold fetched_posts. rewrite flat_map_app. simpl.
  rewrite app_nil_r. fold (fetched_posts evs).
  pose proof (wf_run mobile viewport evs) as Hwf.
  destruct ev as [data h|top|viewport'|h|n|]; simpl;
    rewrite ?app_nil_r; try exact IH.
  - destruct (fetchPosts_spec data h (run (boot mobile viewport) evs))
      as (new & H1 & H2 & _).
    rewrite H1, map_app. apply sublist_app; assumption.
  - rewrite List.map_map. exact IH.
  - destruct (toggleComments_cards n (run (boot mobile viewport) evs))
      as (_ & Hp & _).
    rewrite Hp. exact IH.
  - destruct Hwf as [Hnd _]. destruct (prune_shape _ Hnd) as (Hc & _).
    rewrite Hc. etransitivity; [apply sublist_map, kept_sublist|exact IH].
Qed.

(** ** Cards as tall as the viewport

    The header of the script gives the layout it relies on: the feed is the
    scroll container and every card is as tall as the viewport. With that
    layout the offset is never smaller than the height removed above the
    window. *)

Lemma heights_app a b : heights (a ++ b) = heights a + heights b.
Proof. induction a as [|c a IH]; simpl; [reflexivity|]. rewrite IH. lia. Qed.

Lemma heights_nonneg cs : 0 <= heights cs.
Proof. induction cs as [|c cs IH]; simpl; lia. Qed.

Lemma offsetTop_shift before window after i :
  (i <= length window)%nat ->
  offsetTop (before ++ window ++ after) (length before + i)
  = heights before + offsetTop window i.
Proof.
  intros Hi. unfold offsetTop.
  rewrite take_app_add, heights_app. f_equal.
  rewrite take_app_le by exact Hi. reflexivity.
Qed.

Lemma visit_eq cs mid acc e :
  visit cs mid acc e
  = if closer (entry_dist cs mid e) (snd acc)
    then (fst e, Some (entry_dist cs mid e)) else acc.
Proof. destruct e. reflexivity. Qed.

Lemma visit_fold_nearest cs mid es best d0 :
  exists d,
    snd (fold_left (visit cs mid) es (best, Some d0)) = Some d
    /\ (forall e, In e es -> (d <= entry_dist cs mid e)%Q)
    /\ (d <= d0)%Q
    /\ ((fst (fold_left (visit cs mid) es (best, Some d0)) = best /\ d = d0)
        \/ exists e, In e es
             /\ fst e = fst (fold_left (visit cs mid) es (best, Some d0))
             /\ d = entry_dist cs mid e).
Proof.
  revert best d0. induction es as [|e es IH]; intros best d0.
  - exists d0. simpl. split; [reflexivity|]. split; [tauto|].
    split; [apply Qle_refl|]. left. auto.
  - cbn [fold_left]. rewrite visit_eq. destruct e as [i c].
    cbn [fst snd]. unfold closer.
    destruct (Qle_bool d0 (entry_dist cs mid (i, c))) eqn:Hle; cbn [negb].
    + apply Qle_bool_iff in Hle.
      destruct (IH best d0) as (d & Hd & Hall & Hd0 & Hwho).
      exists d. split; [exact Hd|]. split; [|split; [exact Hd0|]].
      * intros e [<-|He]; [|auto]. eapply Qle_trans; eauto.
      * destruct Hwho as [?|(e & He & ? & ?)]; [left; assumption|].
        right. exists e. simpl. auto.
    + assert (Hlt : (entry_dist cs mid (i, c) < d0)%Q).
      { apply Qnot_le_lt. intros H. apply Qle_bool_iff in H. congruence. }
      destruct (IH i (entry_dist cs mid (i, c))) as (d & Hd & Hall & Hd0 & Hwho).
      exists d. split; [exact Hd|]. split; [|split].
      * intros e [<-|He]; [exact Hd0|auto].
      * eapply Qle_trans; [exact Hd0|]. apply Qlt_le_weak. exact Hlt.
      * right. destruct Hwho as [[Hi Hdd]|(e & He & ? & ?)].
        -- exists (i, c). simpl. rewrite Hi, Hdd. auto.
        -- exists e. simpl. auto.
Qed.

(** The current card is a card whose centre is nearest to the centre of the
    viewport. *)
Lemma getCurrentIndexInFeed_nearest st :
  cards st <> [] ->
  let mid := (inject_Z (scrollTop st) + inject_Z (clientHeight st) / 2)%Q in
  exists c,
    In (getCurrentIndexInFeed st, c) (indexed (cards st))
    /\ forall e, In e (indexed (cards st)) ->
         (entry_dist (cards st) mid (getCurrentIndexInFeed st, c)
          <= entry_dist (cards st) mid e)%Q.
Proof.
  intros Hne. cbv zeta. unfold getCurrentIndexInFeed, getCards.
  destruct (cards st) as [|c0 cs] eqn:E; [congruence|].
  change (length (c0 :: cs) =? 0)%nat with false. cbv iota.
  set (mid := (inject_Z (scrollTop st) + inject_Z (clientHeight st) / 2)%Q).
  unfold indexed. cbn [length seq combine fold_left].
  rewrite visit_eq. cbn [fst snd closer].
  destruct (visit_fold_nearest (c0 :: cs) mid (combine (seq 1 (length cs)) cs)
              0%nat (entry_dist (c0 :: cs) mid (0%nat, c0)))
    as (d & Hd & Hall & Hd0 & Hwho).
  destruct Hwho as [[Hi Hdd]|(e & He & Hi & Hdd)].
  - exists c0. rewrite Hi. split; [left; reflexivity|].
    intros e [<-|He]; [apply Qle_refl|]. rewrite <- Hdd. auto.
  - destruct e as [i c]. simpl in Hi. exists c. rewrite <- Hi.
    split; [right; exact He|].
    intros e' [<-|He']; rewrite <- Hdd; auto.
Qed.

Lemma combine_seq_lookup {A} (l : list A) k i :
  (i < length l)%nat -> exists x, In ((k + i)%nat, x) (combine (seq k (length l)) l).
Proof.
  revert k i. induction l as [|a l IH]; simpl; intros k i Hi; [lia|].
  destruct i as [|i].
  - exists a. left. f_equal. lia.
  - destruct (IH (S k) i) as [x Hx]; [lia|]. exists x. right.
    replace (k + S i)%nat with (S k + i)%nat by lia. exact Hx.
Qed.

Lemma indexed_lookup {A} (l : list A) i :
  (i < length l)%nat -> exists x, In (i, x) (indexed l).
Proof. intros Hi. exact (combine_seq_lookup l 0 i Hi). Qed.

Lemma heights_uniform cs H n :
  Forall (fun c => Z.of_nat (offsetHeight c) = H) cs ->
  (n <= length cs)%nat ->
  heights (take n cs) = Z.of_nat n * H.
Proof.
  intros Hall. revert n. induction Hall as [|c cs Hc _ IH]; intros [|n] Hn;
    simpl in *; try lia.
  rewrite IH by lia. lia.
Qed.

Lemma entry_dist_uniform st e :
  Forall (fun c => Z.of_nat (offsetHeight c) = clientHeight st) (cards st) ->
  In e (indexed (cards st)) ->
  (entry_dist (cards st)
     (inject_Z (scrollTop st) + inject_Z (clientHeight st) / 2) e
   == inject_Z (Z.abs (Z.of_nat (fst e) * clientHeight st - scrollTop st)))%Q.
Proof.
  intros Hall He. destruct e as [i c]. unfold entry_dist. cbn [fst snd].
  assert (Hi : (i < length (cards st))%nat) by (eapply indexed_In; eauto).
  assert (Hc : Z.of_nat (offsetHeight c) = clientHeight st).
  { unfold indexed in He. apply in_combine_r in He.
    rewrite List.Forall_forall in Hall. auto. }
  unfold offsetTop. rewrite (heights_uniform _ _ _ Hall) by lia. rewrite Hc.
  transitivity
    (Qabs (inject_Z (Z.of_nat i * clientHeight st - scrollTop st)));
    [|symmetry; apply (Zabs_Qabs _ 1)].
  apply Qabs_wd.
  unfold Z.sub. rewrite inject_Z_plus, inject_Z_opp. field.
Qed.

(** With cards as tall as the viewport, the height removed above the window
    never exceeds the scroll offset. *)
Lemma full_viewport_offset st :
  Forall (fun c => Z.of_nat (offsetHeight c) = clientHeight st) (cards st) ->
  0 < clientHeight st -> 0 <= scrollTop st ->
  heights (above st) <= scrollTop st.
Proof.
  intros Hall HH Hs. unfold above.
  destruct (cards st) as [|c0 cs0] eqn:E; [rewrite take_nil; simpl; lia|].
  rewrite <- E in *.
  assert (Hne : cards st <> []) by (rewrite E; discriminate).
  pose proof (window_bounds st Hne) as (Hmin & Hidx & Hmax & _).
  rewrite (heights_uniform _ _ _ Hall) by lia.
  rewrite Z2Nat.id by lia.
  unfold window_min, KEEP_BEHIND in *.
  destruct (Z.le_gt_cases (Z.of_nat (getCurrentIndexInFeed st)) 10) as [Hle|Hgt].
  - rewrite Z.max_l by lia. lia.
  - rewrite Z.max_r by lia.
    destruct (getCurrentIndexInFeed_nearest st Hne) as (c & Hc & Hnear).
    cbv zeta in Hnear.
    destruct (indexed_lookup (cards st) (getCurrentIndexInFeed st - 1))
      as [c' Hc']; [lia|].
    specialize (Hnear _ Hc').
    rewrite (entry_dist_uniform st _ Hall Hc),
      (entry_dist_uniform st _ Hall Hc') in Hnear.
    rewrite <- Zle_Qle in Hnear. cbn [fst] in Hnear.
    rewrite Nat2Z.inj_sub in Hnear by lia.
    set (a := Z.of_nat (getCurrentIndexInFeed st) * clientHeight st) in *.
    replace ((Z.of_nat (getCurrentIndexInFeed st) - Z.of_nat 1) * clientHeight st)
      with (a - clientHeight st) in Hnear by (unfold a; ring).
    replace ((Z.of_nat (getCurrentIndexInFeed st) - 10) * clientHeight st)
      with (a - 10 * clientHeight st) by (unfold a; ring).
    lia.
Qed.

(** ** The window and the scroll offset *)

(** C3 (as the code has it). After a prune at most
    [KEEP_BEHIND + 1 + PRELOAD_AHEAD] cards are rendered; they are a
    contiguous run of the cards rendered before the prune, and, in fetch
    order, a subsequence of the posts fetched so far. *)
Theorem prune_window (mobile : bool) (viewport : Z) (evs : list event) :
  let st := run (boot mobile viewport) evs in
  let st' := pruneAroundCurrent st in
  Z.of_nat (length (cards st')) <= KEEP_BEHIND + 1 + PRELOAD_AHEAD
  /\ cards st = above st ++ cards st' ++ below st
  /\ sublist (map post (cards st')) (fetched_posts evs).
Proof.
  cbv zeta.
  pose proof (wf_run mobile viewport evs) as [Hnd _].
  destruct (prune_shape _ Hnd) as (Hc & _). rewrite Hc.
  split; [|split].
  - pose proof (kept_length (run (boot mobile viewport) evs)).
    unfold KEEP_BEHIND, PRELOAD_AHEAD. lia.
  - apply cards_split.
  - etransitivity; [apply sublist_map, kept_sublist|apply run_sublist].
Qed.

Lemma heights_positive cs : 0 < heights cs -> cs <> [].
Proof. intros H ->. simpl in H. lia. Qed.

Lemma scrollTop_after_within st dom :
  scrollTop st <= Z.max 0 (heights dom - clientHeight st) ->
  scrollTop_after st dom = scrollTop st.
Proof.
  intros H. unfold scrollTop_after.
  destruct (length dom <? length (cards st))%nat; lia.
Qed.

Lemma scrollTop_after_held st dom :
  (length dom < length (cards st))%nat ->
  Z.max 0 (heights dom - clientHeight st) < scrollTop st ->
  scrollTop_after st dom = Z.max 0 (heights dom - clientHeight st).
Proof.
  intros Hlen H. unfold scrollTop_after.
  destruct (Nat.ltb_spec (length dom) (length (cards st))); lia.
Qed.

(** The scroll offset after a prune. The offset the assignment reads is the
    one the browser holds once the cards are removed: the old offset, kept
    within what is left to scroll. The height removed above the window is
    subtracted from it. When the old offset is at least that height and is
    within what the kept cards leave to scroll, the decrement is exact and
    every remaining card, the current one among them, keeps its position
    relative to the viewport. When cards were removed above and the old
    offset is beyond what the kept cards leave to scroll, the height is
    subtracted from that smaller offset. With cards as tall as the viewport
    the old offset is at least the height removed. *)
Lemma prune_scroll_offset (mobile : bool) (viewport : Z) (evs : list event) :
  let st := run (boot mobile viewport) evs in
  let st' := pruneAroundCurrent st in
  let removed := heights (above st) in
  let room := Z.max 0 (heights (cards st') - clientHeight st) in
  cards st = above st ++ cards st' ++ below st
  /\ (cards st <> [] ->
      (length (above st) <= getCurrentIndexInFeed st
       < length (above st) + length (cards st'))%nat)
  /\ scrollTop st'
     = (if removed >? 0
        then Z.max 0 (scrollTop_after st (cards st') - removed)
        else scrollTop_after st (cards st'))
  /\ (removed <= scrollTop st -> scrollTop st <= room ->
      scrollTop st' = scrollTop st - removed
      /\ forall i, (i < length (cards st'))%nat ->
           offsetTop (cards st') i - scrollTop st'
           = offsetTop (cards st) (length (above st) + i) - scrollTop st)
  /\ (0 < removed -> room < scrollTop st ->
      scrollTop st' = Z.max 0 (room - removed))
  /\ (Forall (fun c => Z.of_nat (offsetHeight c) = clientHeight st) (cards st) ->
      0 < clientHeight st -> 0 <= scrollTop st -> removed <= scrollTop st).
Proof.
  cbv zeta. set (st := run (boot mobile viewport) evs).
  pose proof (wf_run mobile viewport evs) as [Hnd _]. fold st in Hnd.
  destruct (prune_shape _ Hnd) as (Hc & _ & Hs & _). rewrite Hc, Hs.
  pose proof (heights_nonneg (above st)) as Hpos.
  split; [apply cards_split|].
  split; [apply current_in_window|].
  split; [reflexivity|].
  split; [|split].
  - intros Hle Hroom. rewrite (scrollTop_after_within _ _ Hroom).
    assert (Htop : (if heights (above st) >? 0
                    then Z.max 0 (scrollTop st - heights (above st))
                    else scrollTop st) = scrollTop st - heights (above st))
      by (destruct (Z.gtb_spec (heights (above st)) 0); lia).
    rewrite Htop. split; [reflexivity|].
    intros i Hi. rewrite (cards_split st).
    rewrite offsetTop_shift by lia. lia.
  - intros Hrem Hroom.
    assert (Hlen : (length (kept st) < length (cards st))%nat).
    { pose proof (heights_positive _ Hrem) as Hne.
      rewrite (cards_split st). rewrite !length_app.
      destruct (above st); [congruence|simpl; lia]. }
    rewrite (scrollTop_after_held _ _ Hlen Hroom).
    destruct (Z.gtb_spec (heights (above st)) 0); [reflexivity|lia].
  - apply full_viewport_offset.
Qed.

(** ** Listeners *)

Lemma removeEventListener_In hd x ls :
  In x (removeEventListener hd ls) <-> In x ls /\ x <> hd.
Proof.
  unfold removeEventListener. rewrite List.filter_In.
  destruct (Nat.eqb_spec x hd); simpl; intuition congruence.
Qed.

Lemma unregister_In removed ls x : In x (unregister removed ls) -> In x ls.
Proof.
  revert ls. induction removed as [|c removed IH]; simpl; intros ls H; auto.
  apply IH in H. destruct (outsideTapHandler c); auto.
  apply removeEventListener_In in H. tauto.
Qed.

Lemma unregister_removed removed ls c hd :
  In c removed -> outsideTapHandler c = Some hd ->
  ~ In hd (unregister removed ls).
Proof.
  revert ls. induction removed as [|c' removed IH]; simpl; intros ls [].
  - subst c'. intros Hhd. rewrite Hhd. intros Hin.
    apply unregister_In, removeEventListener_In in Hin. tauto.
  - intros Hhd. apply IH; assumption.
Qed.

(** The handler of a card removed above the window is unregistered. *)
Lemma prune_unregisters_above st c hd :
  NoDup (map node (cards st)) ->
  In c (above st) -> outsideTapHandler c = Some hd ->
  ~ In hd (listeners (pruneAroundCurrent st)).
Proof.
  intros Hnd Hc Hhd. destruct (prune_shape _ Hnd) as (_ & Hl & _).
  rewrite Hl. eapply unregister_removed; eauto.
Qed.

(** The prune drops no listener but those of the cards above the window:
    what a card below the window registered stays registered. *)
Lemma prune_keeps_other_listeners st x :
  NoDup (map node (cards st)) ->
  In x (listeners st) ->
  (forall c, In c (above st) -> outsideTapHandler c <> Some x) ->
  In x (listeners (pruneAroundCurrent st)).
Proof.
  intros Hnd Hx Hab. destruct (prune_shape _ Hnd) as (_ & Hl & _).
  rewrite Hl. clear Hl. revert Hx Hab. generalize (listeners st) (above st).
  intros ls removed. revert ls.
  induction removed as [|c removed IH]; simpl; intros ls Hx Hab; auto.
  apply IH; [|intros c' Hc'; apply Hab; auto].
  destruct (outsideTapHandler c) as [hd|] eqn:Hhd; auto.
  apply removeEventListener_In. split; [exact Hx|].
  intros ->. apply (Hab c); auto.
Qed.

(** The feed never renders a post whose extension is swf. *)
Lemma fetchPosts_skips_swf data h st c :
  In c (cards (fetchPosts data h st)) ->
  In c (cards st) \/ (swf_post (post c) = false /\ In (post c) (page_posts data)).
Proof.
  destruct (fetchPosts_spec data h st) as (new & H1 & H2 & H3 & _).
  rewrite H1, List.in_app_iff. intros [H|H]; [auto|right].
  rewrite List.Forall_forall in H3. split; [auto|].
  apply list_elem_of_In. eapply elem_of_sublist; [|exact H2].
  apply list_elem_of_In, List.in_map. exact H.
Qed.

End PruneFacts.

(* ===================================================================== *)
(** * The swf filter, on both sides *)
(* ===================================================================== *)

Lemma not_swf_swf_post p b :
  Proxy.not_swf p = Ok b -> swf_post p = negb b.
Proof.
  unfold Proxy.not_swf, swf_post.
  destruct (lower_or_empty _) as [e|]; simpl; [|discriminate].
  intros H. inversion H. rewrite Bool.negb_involutive. reflexivity.
Qed.

Lemma filter_posts_spec ps kept :
  Proxy.filter_posts ps = Ok kept ->
  kept = List.filter (fun p => negb (swf_post p)) ps
  /\ Forall (fun p => swf_post p = false) kept.
Proof.
  revert kept. induction ps as [|p ps IH]; simpl; intros kept H.
  - inversion H. split; [reflexivity|constructor].
  - destruct (Proxy.not_swf p) as [b|] eqn:Hp; simpl in H; [|discriminate].
    destruct (Proxy.filter_posts ps) as [rest|]; simpl in H; [|discriminate].
    inversion H; subst; clear H.
    destruct (IH rest eq_refl) as [Hrest Hall].
    apply not_swf_swf_post in Hp. rewrite Hp, Bool.negb_involutive.
    destruct b; simpl in *.
    + split; [congruence|]. constructor; assumption.
    + split; assumption.
Qed.

Lemma filter_posts_total ps :
  Forall (fun p => exists b, Proxy.not_swf p = Ok b) ps ->
  exists kept, Proxy.filter_posts ps = Ok kept.
Proof.
  induction 1 as [|p ps [b Hb] _ [kept IH]]; simpl; [eauto|].
  rewrite Hb, IH. simpl. eauto.
Qed.

Lemma assoc_set_field k v fs : assoc k (Proxy.set_field k v fs) = Some v.
Proof.
  induction fs as [|[k' v'] fs IH]; simpl.
  - rewrite String.eqb_refl. reflexivity.
  - destruct (String.eqb k k') eqn:E; simpl; rewrite ?String.eqb_refl, ?E; auto.
Qed.

Lemma posts_handler_no_swf cfg fetch JSON_parse encodeURIComponent base64 q ps :
  prop (Proxy.res_body
          (Proxy.posts_handler cfg fetch JSON_parse encodeURIComponent base64 q))
       "posts" = Some (JArr ps) ->
  Forall (fun p => swf_post p = false) ps.
Proof.
  unfold Proxy.posts_handler, Proxy.posts_try.
  destruct (fetch _) as [r|msg]; simpl; [|discriminate].
  destruct (JSON_parse (Proxy.text r)) as [data|]; simpl; [|discriminate].
  destruct data as [| b | n | s | items | fs]; simpl;
    try (destruct b); try (destruct (negb _)); try discriminate.
  destruct (assoc "posts" fs) as [[| | | |upstream|]|] eqn:Ha; simpl;
    try (rewrite Ha; discriminate).
  destruct (Proxy.filter_posts upstream) as [kept|] eqn:Hf; simpl;
    [|discriminate].
  rewrite assoc_set_field. intros H. inversion H; subst.
  apply filter_posts_spec in Hf. tauto.
Qed.

Lemma posts_handler_filters cfg fetch JSON_parse encodeURIComponent base64 q
    r fs upstream :
  fetch (Proxy.get_request cfg base64
           (Proxy.posts_url encodeURIComponent q) None) = Proxy.Reply r ->
  JSON_parse (Proxy.text r) = Some (JObj fs) ->
  assoc "posts" fs = Some (JArr upstream) ->
  Forall (fun p => exists b, Proxy.not_swf p = Ok b) upstream ->
  Proxy.posts_handler cfg fetch JSON_parse encodeURIComponent base64 q
  = {| Proxy.res_status := 200;
       Proxy.res_body :=
         JObj (Proxy.set_field "posts"
                 (JArr (List.filter (fun p => negb (swf_post p)) upstream))
                 fs) |}.
Proof.
  intros Hf Hp Ha Hall. unfold Proxy.posts_handler, Proxy.posts_try.
  rewrite Hf, Hp. simpl. rewrite Ha. simpl.
  destruct (filter_posts_total _ Hall) as [kept Hk]. rewrite Hk.
  apply filter_posts_spec in Hk. destruct Hk as [-> _]. reflexivity.
Qed.

(** C8. The proxy asks the upstream for the client's tags followed by
    [-type:swf] and no post with extension swf is left in the posts array
    it returns; the feed, on its own, renders no post with extension swf.
    On the response of the scenario the proxy returns post 1 alone and the
    feed, given the unfiltered response, renders one card, of post 1. *)
Theorem swf_excluded cfg fetch JSON_parse encodeURIComponent base64 js_minus :
  (forall q,
     Proxy.posts_url encodeURIComponent q
     = "https://e621.net/posts.json?tags="
         +:+ encodeURIComponent
               (Proxy.str_or (Proxy.q_tags q) "" +:+ " -type:swf")
         +:+ "&page=" +:+ Proxy.str_or (Proxy.q_page q) "1"
         +:+ "&limit=" +:+ Proxy.str_or (Proxy.q_limit q) "10")
  /\ (forall q ps,
        prop (Proxy.res_body
                (Proxy.posts_handler cfg fetch JSON_parse encodeURIComponent
                   base64 q)) "posts" = Some (JArr ps) ->
        Forall (fun p => swf_post p = false) ps)
  /\ (forall data h st c,
        In c (Feed.cards (Feed.fetchPosts js_minus data h st)) ->
        In c (Feed.cards st)
        \/ (swf_post (Feed.post c) = false /\ In (Feed.post c) (page_posts data)))
  /\ (forall q r,
        fetch (Proxy.get_request cfg base64
                 (Proxy.posts_url encodeURIComponent q) None) = Proxy.Reply r ->
        JSON_parse (Proxy.text r) = Some scenario_posts ->
        Proxy.posts_handler cfg fetch JSON_parse encodeURIComponent base64 q
        = {| Proxy.res_status := 200;
             Proxy.res_body := JObj [("posts", JArr [webm_post])] |})
  /\ (forall h mobile viewport,
        map Feed.postId
          (Feed.cards
             (Feed.fetchPosts js_minus (Ok scenario_posts) h
                (Feed.boot mobile viewport)))
        = ["1"]).
Proof.
  split; [reflexivity|].
  split; [apply posts_handler_no_swf|].
  split; [apply fetchPosts_skips_swf|].
  split.
  - intros q r Hf Hp.
    rewrite (posts_handler_filters _ _ _ _ _ _ r
               [("posts", JArr [webm_post; swf_post_2])]
               [webm_post; swf_post_2] Hf Hp eq_refl).
    + reflexivity.
    + repeat constructor; eexists; reflexivity.
  - intros h mobile viewport. reflexivity.
Qed.

(* ===================================================================== *)
(** * Concrete runs *)
(* ===================================================================== *)

Module Runs.

Import Scenario.
Import Cases.
Import Proxy.

(** ** Runs of the proxy *)

Lemma wrapped_handler :
  comments_handler no_credentials upstream_404_404_wrapped (parse_table texts)
    plain "7"
  = ([candidate url1; candidate url2; candidate url3;
      lookup_request no_credentials plain url3 0 (Some (JNum 5))],
     CommentsOk [comment9]).
Proof. vm_compute. reflexivity. Qed.

Lemma wrapped_attempt :
  attempt no_credentials upstream_404_404_wrapped (parse_table texts) plain
    url3
  = ([candidate url3;
      lookup_request no_credentials plain url3 0 (Some (JNum 5))],
     Accepted [comment9]).
Proof. vm_compute. reflexivity. Qed.

(** C2, counterexample: the first candidate answers 200 with the object
    [{}], which is neither an array nor an object with a "comments" array;
    the handler uses it, as an empty list, and requests no other
    candidate. *)
Lemma fallback_counterexample :
  upstream_empty_object (candidate url1) = Reply empty_object_reply
  /\ claimed_rejected (parse_table texts) empty_object_reply = true
  /\ comments_handler no_credentials upstream_empty_object (parse_table texts)
       plain "7"
     = ([candidate url1], CommentsOk []).
Proof. vm_compute. repeat split; reflexivity. Qed.

(** C2, witness: the first two candidates answer 404 and the third a
    wrapped list; the third is used, after three candidate requests. *)
Lemma comments_fallback_witness :
  snd (comments_handler no_credentials upstream_404_404_wrapped
         (parse_table texts) plain "7")
  = CommentsOk [comment9]
  /\ candidate_requests
       (fst (comments_handler no_credentials upstream_404_404_wrapped
               (parse_table texts) plain "7"))
     = map candidate ([url1; url2] ++ [url3]).
Proof.
  destruct (comments_fallback no_credentials upstream_404_404_wrapped
              (parse_table texts) plain "7") as (_ & _ & _ & Hfirst).
  apply (Hfirst [url1; url2] url3 []
           [candidate url3;
            lookup_request no_credentials plain url3 0 (Some (JNum 5))]
           [comment9] eq_refl).
  - repeat apply List.Forall_cons; try apply List.Forall_nil;
      apply (status_not_ok _ _ _ _ _ not_found); reflexivity.
  - exact wrapped_attempt.
Defined.

(** C4, witness: the response of the run above. *)
Lemma comments_normalized_witness :
  (length [comment9] <= 50)%nat
  /\ exists url r payload cs,
       In url (comment_urls "7")
       /\ upstream_404_404_wrapped (candidate url) = Reply r
       /\ parse_table texts (text r) = Some payload
       /\ comments_of payload = Ok (Some (JArr cs))
       /\ Forall2 normalized_from (take 50 cs) [comment9].
Proof.
  exact (comments_normalized no_credentials upstream_404_404_wrapped
           (parse_table texts) plain "7" _ _ wrapped_handler).
Defined.

(** C6, counterexample: no candidate can be reached; the response is a 502
    whose debug field has the URL and the error, and neither status nor
    content type nor snippet. *)
Lemma exhausted_counterexample :
  comments_handler no_credentials upstream_down (parse_table texts) plain "7"
  = ([candidate url1; candidate url2; candidate url3],
     CommentsBadGateway (ErrThrown url3 (FetchError "ECONNREFUSED")))
  /\ has_http_detail (ErrThrown url3 (FetchError "ECONNREFUSED")) = false.
Proof. vm_compute. split; reflexivity. Qed.

(** C6, witness: the first two candidates answer 404 and the last one 200
    with an object whose "comments" field is a text. *)
Lemma comments_exhausted_witness :
  snd (comments_handler no_credentials upstream_404_404_shape
         (parse_table more_texts) plain "7")
  = CommentsBadGateway (ErrHttp url3 200 "application/json" "SHAPE").
Proof.
  destruct (comments_exhausted no_credentials upstream_404_404_shape
              (parse_table more_texts) plain "7") as (d & Hd & _ & _ & Hlast).
  - repeat apply List.Forall_cons; try apply List.Forall_nil;
      try (apply (status_not_ok _ _ _ _ _ not_found); reflexivity).
    apply (comments_not_array _ _ _ _ _ shape_reply
             (JObj [("comments", JStr "none")])); reflexivity.
  - rewrite Hd. f_equal.
    change (upstream_404_404_shape
              (get_request no_credentials plain (last_url "7") None))
      with (Reply shape_reply) in Hlast.
    destruct Hlast as (_ & _ & Hjson).
    destruct (Hjson (JObj [("comments", JStr "none")]) eq_refl eq_refl)
      as (Hshape & _).
    apply Hshape; reflexivity.
Defined.

(** The same upstream, when its last candidate answers a list with a null
    entry: the debug field has the URL and the error. *)
Lemma exhausted_null_comment :
  snd (comments_handler no_credentials
         (serve [(url3, json_reply 200 "NULLS")])
         (parse_table [("NULLS", JArr [JNull])]) plain "7")
  = CommentsBadGateway (ErrThrown url3 TypeError).
Proof. vm_compute. reflexivity. Qed.

(** C7, witness: no server credentials, and a client that sends
    [{score: 1, login: 'x', api_key: 'y'}]: one request, with the client's
    values, and the upstream's answer relayed. *)
Lemma mutation_credentials_witness :
  exists rq,
    fst (vote_handler no_credentials upstream_votes
           (parse_table [("VOTED", voted)]) plain "7" vote_body) = [rq]
    /\ req_url rq = "https://e621.net/posts/7/votes.json"
    /\ req_method rq = "POST"
    /\ req_body rq
       = Some [("score", Some (JNum 1)); ("login", Some (JStr "x"));
               ("api_key", Some (JStr "y"))]
    /\ snd (vote_handler no_credentials upstream_votes
              (parse_table [("VOTED", voted)]) plain "7" vote_body)
       = {| res_status := 200; res_body := voted |}.
Proof.
  destruct (mutation_credentials no_credentials upstream_votes
              (parse_table [("VOTED", voted)]) plain "7" vote_body)
    as ((rq & Hlog & Hurl & Hm & Hb & Hres) & _).
  exists rq. repeat (split; [assumption|]).
  rewrite Hres. inversion Hlog; subst. reflexivity.
Defined.




(** ** Runs of the feed *)

Import Feed.

Lemma prefixb_app k a : prefixb k (k ++ a) = true.
Proof.
  induction k as [|x k IH]; simpl; [reflexivity|].
  rewrite String.eqb_refl. exact IH.
Qed.

Lemma infixb_prefix k l : prefixb k l = true -> infixb k l = true.
Proof. intros H. destruct l; simpl; rewrite H; reflexivity. Qed.

Lemma infixb_complete k b a : infixb k (b ++ k ++ a) = true.
Proof.
  induction b as [|x b IH].
  - change ([] ++ k ++ a) with (k ++ a). apply infixb_prefix, prefixb_app.
  - simpl. rewrite IH. apply Bool.orb_true_r.
Qed.

(** C1: twelve cards as tall as the viewport; the user, who was on card 9
    when the last page arrived, is on the last card. The prune removes the
    first card, 100 pixels. Once it is gone 1000
    pixels are left to scroll, so the offset the assignment reads is 1000
    and not 1100, and the offset becomes 900 where the decrement by the
    height removed gives 1000: the card under the viewport is no longer
    the current one, post 11, but post 10. *)
Theorem prune_offset_jumps :
  let st := run int_minus (boot false 100) twelve_at_11 in
  let st' := pruneAroundCurrent st in
  map postId (cards st)
  = ["0"; "1"; "2"; "3"; "4"; "5"; "6"; "7"; "8"; "9"; "10"; "11"]
  /\ scrollTop st = 1100
  /\ getCurrentIndexInFeed st = 11%nat
  /\ map postId (above st) = ["0"]
  /\ heights (above st) = 100
  /\ map postId (cards st')
     = ["1"; "2"; "3"; "4"; "5"; "6"; "7"; "8"; "9"; "10"; "11"]
  /\ scrollTop_after st (cards st') = 1000
  /\ scrollTop st' = 900
  /\ scrollTop st' <> scrollTop st - heights (above st)
  /\ offsetTop (cards st) 11 - scrollTop st = 0
  /\ offsetTop (cards st') 10 - scrollTop st' = 100
  /\ map postId (firstn 1 (skipn (getCurrentIndexInFeed st') (cards st')))
     = ["10"].
Proof. vm_compute. repeat split; try reflexivity. discriminate. Qed.

(** The same prune with eight more cards below: nothing holds the offset
    back, and it goes from 1100 to 1000. *)
Lemma prune_offset_exact_run :
  let st := run int_minus (boot false 100) twenty_at_11 in
  let st' := pruneAroundCurrent st in
  heights (above st) = 100
  /\ scrollTop st' = 1000
  /\ map postId (firstn 1 (skipn (getCurrentIndexInFeed st') (cards st')))
     = ["11"].
Proof. vm_compute. repeat split; reflexivity. Qed.

(** C10, counterexample: the total score of the post is the text
    [<b>hi</b>]; it is in the markup of the card as it is, with its markup
    characters. *)
Lemma raw_total_counterexample :
  exists st c,
    addPost int_minus h100 injected_post (boot false 100) = Ok st
    /\ cards st = [c]
    /\ In (Raw "<b>hi</b>") (info c)
    /\ no_markup "<b>hi</b>" = false.
Proof.
  eexists. eexists. split; [vm_compute; reflexivity|].
  split; [reflexivity|]. split; [simpl; tauto|reflexivity].
Qed.

(** C3, counterexample: page 2 arrives while the user is on card 5 and the
    next prune drops its posts 11 to 19; page 3 is appended after post 10.
    After the prune the feed shows posts 0 to 10 and post 20, which is no
    contiguous run of the thirty posts fetched. *)
Lemma window_counterexample :
  let st' := pruneAroundCurrent (run int_minus (boot false 100) three_pages) in
  map postId (cards st')
  = ["0"; "1"; "2"; "3"; "4"; "5"; "6"; "7"; "8"; "9"; "10"; "20"]
  /\ ~ (exists before after,
          fetched_posts three_pages = before ++ map post (cards st') ++ after).
Proof.
  cbv zeta. split; [vm_compute; reflexivity|].
  intros (before & after & H).
  apply (f_equal (map post_number)) in H. rewrite !map_app in H.
  pose proof (infixb_complete
                (map post_number
                   (map post
                      (cards (pruneAroundCurrent
                                (run int_minus (boot false 100) three_pages)))))
                (map post_number before) (map post_number after)) as Hin.
  rewrite <- H in Hin. vm_compute in Hin. discriminate.
Qed.

(** C3, witness: the same session; twelve cards, in fetch order. *)
Lemma prune_window_witness :
  Z.of_nat (length (cards (pruneAroundCurrent
                             (run int_minus (boot false 100) three_pages))))
  <= 16
  /\ sublist
       (map post (cards (pruneAroundCurrent
                           (run int_minus (boot false 100) three_pages))))
       (fetched_posts three_pages).
Proof.
  destruct (prune_window int_minus false 100 three_pages) as (Hlen & _ & Hsub).
  split; [exact Hlen|exact Hsub].
Defined.

(** C9: on a phone the comments of card 7 are open when the user is back on
    card 0; the prune removes cards 6 to 9, which are below the window, and
    the listener of card 7 stays registered on the document. *)
Theorem prune_leaks_listener_below :
  let st := comments_left_open in
  let st' := pruneAroundCurrent st in
  map postId (cards st') = ["0"; "1"; "2"; "3"; "4"; "5"]
  /\ map (fun c => (postId c, outsideTapHandler c)) (below st)
     = [("6", None); ("7", Some 10%nat); ("8", None); ("9", None)]
  /\ listeners st = [10%nat]
  /\ listeners st' = [10%nat].
Proof. vm_compute. repeat split; reflexivity. Qed.

(** The same comments panel, when the user goes on to card 19 instead: card
    7 is removed above the window and its listener is unregistered. *)
Lemma prune_unregisters_above_run :
  let st :=
    run int_minus (boot true 100)
      [PageLoaded (page 0) h100; Scrolled 700; Settled; CommentsTapped 7;
       PageLoaded (page 10) h100; Scrolled 1900] in
  listeners st = [10%nat]
  /\ map (fun c => (postId c, outsideTapHandler c)) (above st)
     = [("0", None); ("1", None); ("2", None); ("3", None); ("4", None);
        ("5", None); ("6", None); ("7", Some 10%nat); ("8", None)]
  /\ listeners (pruneAroundCurrent st) = [].
Proof. vm_compute. repeat split; reflexivity. Qed.

(** C8, witness: the upstream answers the scenario's posts; the proxy
    returns post 1 alone and the feed renders one card from what the proxy
    returns. *)
Lemma swf_excluded_witness :
  Proxy.posts_handler no_credentials upstream_posts
    (parse_table [("POSTS", scenario_posts)]) plain plain first_page
  = {| Proxy.res_status := 200;
       Proxy.res_body := JObj [("posts", JArr [webm_post])] |}
  /\ map postId
       (cards
          (fetchPosts int_minus
             (Ok (Proxy.res_body
                    (Proxy.posts_handler no_credentials upstream_posts
                       (parse_table [("POSTS", scenario_posts)]) plain plain
                       first_page)))
             h100 (boot false 100)))
     = ["1"].
Proof.
  pose proof (swf_excluded no_credentials upstream_posts
                (parse_table [("POSTS", scenario_posts)]) plain plain
                int_minus) as (_ & _ & _ & Hproxy & _).
  rewrite (Hproxy first_page
             {| Proxy.status := 200;
                Proxy.content_type := Some "application/json";
                Proxy.text := "POSTS" |} eq_refl eq_refl).
  split; reflexivity.
Defined.

End Runs.

(* ===================================================================== *)
(** * More properties of the proxy *)
(* ===================================================================== *)

Section MoreProxyFacts.

Import Proxy.

Variable cfg : env.
Variable fetch : request -> fetch_result.
Variable JSON_parse : string -> option json.
Variable encodeURIComponent : string -> string.
Variable base64 : string -> string.

Local Abbreviation get_request := (Proxy.get_request cfg base64).
Local Abbreviation lookup_request := (Proxy.lookup_request cfg base64).
Local Abbreviation attempt := (Proxy.attempt cfg fetch JSON_parse base64).
Local Abbreviation enrich := (Proxy.enrich cfg fetch JSON_parse base64).
Local Abbreviation fallback := (Proxy.fallback cfg fetch JSON_parse base64).
Local Abbreviation rejected := (reject_reason cfg fetch JSON_parse base64).
Local Abbreviation comments_handler :=
  (Proxy.comments_handler cfg fetch JSON_parse base64).
Local Abbreviation posts_handler :=
  (Proxy.posts_handler cfg fetch JSON_parse encodeURIComponent base64).
Local Abbreviation failure :=
  (posts_failure cfg fetch JSON_parse encodeURIComponent base64).

(** ** Posts *)

Lemma filter_posts_Throw ps :
  (exists e, filter_posts ps = Throw e) <-> Exists ext_not_string ps.
Proof.
  induction ps as [|p ps IH]; simpl.
  - split; [intros [e H]; discriminate|intros H; inversion H].
  - destruct (not_swf p) as [b|e] eqn:Hp; simpl.
    + destruct (filter_posts ps) as [rest|e] eqn:Hps; simpl.
      * split; [intros [e H]; discriminate|].
        intros H. inversion H as [? ? [e He]|? ? Hex]; subst.
        -- congruence.
        -- apply IH in Hex. destruct Hex as [e He]. discriminate.
      * split; [|eauto]. intros _. apply Exists_cons_tl, IH. eauto.
    + split; [|eauto]. intros _. apply Exists_cons_hd. exists e. exact Hp.
Qed.

Lemma assoc_set_field_other k k' v fs :
  k <> k' -> assoc k (set_field k' v fs) = assoc k fs.
Proof.
  intros Hne. induction fs as [|[k0 v0] fs IH]; simpl.
  - destruct (String.eqb_spec k k'); [congruence|reflexivity].
  - destruct (String.eqb_spec k' k0) as [->|Hk0]; simpl.
    + destruct (String.eqb_spec k k0); [congruence|reflexivity].
    + destruct (String.eqb_spec k k0); [reflexivity|exact IH].
Qed.

(** X1. The posts handler answers 200 or 500. It answers 500, with its
    fixed message, exactly when the upstream request fails, the body is not
    JSON, or the posts array holds a post whose extension is a truthy value
    that is not a string; the status of the upstream reply plays no part. *)
Theorem posts_handler_status (q : posts_query) :
  (res_status (posts_handler q) = 200
   \/ posts_handler q
      = {| res_status := 500;
           res_body := error_body "Failed to fetch posts." |})
  /\ (res_status (posts_handler q) = 500 <-> failure q).
Proof.
  unfold Proxy.posts_handler, Proxy.posts_try, posts_failure.
  destruct (fetch _) as [r|msg]; [|simpl; split; [right|]; tauto].
  destruct (JSON_parse (text r)) as [data|]; [|simpl; split; [right|]; tauto].
  assert (Hplain : forall d : json,
            (res_status {| res_status := 200; res_body := d |} = 200
             \/ {| res_status := 200; res_body := d |}
                = {| res_status := 500;
                     res_body := error_body "Failed to fetch posts." |})
            /\ (res_status {| res_status := 200; res_body := d |} = 500
                <-> False)).
  { intros d. simpl. split; [left; reflexivity|]. split; [discriminate|tauto]. }
  destruct data as [| b | n | s | items | fs]; simpl;
    try (destruct b); try (destruct (negb _)); try apply Hplain.
  destruct (assoc "posts" fs) as [[| | | |ps|]|] eqn:Ha; simpl;
    try apply Hplain.
  pose proof (filter_posts_Throw ps) as Hthrow.
  destruct (filter_posts ps) as [kept|e]; simpl.
  - split; [left; reflexivity|]. split; [discriminate|].
    intros Hex. apply Hthrow in Hex. destruct Hex as [e He]. discriminate.
  - split; [right; reflexivity|]. split; [|reflexivity].
    intros _. apply Hthrow. eauto.
Qed.

(** X2. When the upstream answers JSON and the handler answers 200, the
    body is the upstream's: an object with a posts array comes back with
    the posts whose extension is not swf, in their order, and with every
    other field as it was; any other value comes back as it is. *)
Theorem posts_handler_preserves (q : posts_query) r data :
  fetch (get_request (posts_url encodeURIComponent q) None) = Reply r ->
  JSON_parse (text r) = Some data ->
  res_status (posts_handler q) = 200 ->
  (forall ps,
     prop data "posts" = Some (JArr ps) ->
     prop (res_body (posts_handler q)) "posts"
     = Some (JArr (List.filter (fun p => negb (swf_post p)) ps))
     /\ forall k, k <> "posts" ->
          prop (res_body (posts_handler q)) k = prop data k)
  /\ (isArray (prop data "posts") = false -> res_body (posts_handler q) = data).
Proof.
  intros Hf Hp. unfold Proxy.posts_handler, Proxy.posts_try. rewrite Hf, Hp.
  destruct data as [| b | n | s | items | fs]; simpl;
    try (destruct b); try (destruct (negb _)); simpl;
    try (intros _; split; [intros ps H; discriminate|reflexivity]).
  destruct (assoc "posts" fs) as [[| | | |ps|]|] eqn:Ha; simpl;
    try (intros _; split; [intros ps' H; discriminate|reflexivity]).
  destruct (filter_posts ps) as [kept|e] eqn:Hk; simpl; [|discriminate].
  intros _. split; [|discriminate].
  intros ps' H. inversion H; subst ps'.
  apply filter_posts_spec in Hk. destruct Hk as [-> _].
  split; [apply assoc_set_field|].
  intros k Hk. apply assoc_set_field_other. exact Hk.
Qed.

(** ** Comments *)

Lemma fallback_cases urls e0 :
  (Forall rejected urls
   /\ fst (fallback urls e0) = concat (map (fun u => fst (attempt u)) urls)
   /\ exists d, snd (fallback urls e0) = CommentsBadGateway d)
  \/ (exists pre u post log rs,
        urls = pre ++ u :: post
        /\ Forall rejected pre
        /\ attempt u = (log, Accepted rs)
        /\ fallback urls e0
           = (concat (map (fun x => fst (attempt x)) pre) ++ log,
              CommentsOk rs)).
Proof.
  revert e0. induction urls as [|u urls IH]; intros e0.
  - left. simpl. split; [constructor|]. split; [reflexivity|eauto].
  - simpl. destruct (attempt u) as [ulog [rs|e]] eqn:Hu.
    + right. exists [], u, urls, ulog, rs. simpl. auto.
    + assert (Hrej : rejected u).
      { apply attempt_rejected_iff. exists e. rewrite Hu. reflexivity. }
      destruct (IH e) as [(Hall & Hfst & d & Hsnd)
                         |(pre & x & post & log & rs & -> & Hpre & Hx & Hfb)].
      * left. destruct (fallback urls e) as [log' resp]. simpl in *. subst.
        split; [constructor; assumption|]. split; [reflexivity|eauto].
      * right. exists (u :: pre), x, post, log, rs. rewrite Hfb. simpl.
        rewrite Hu. simpl. rewrite <- app_assoc.
        split; [reflexivity|]. split; [constructor; assumption|]. auto.
Qed.

Lemma avatar_ids_length results : (length (avatar_ids results) <= 10)%nat.
Proof. unfold avatar_ids, AVATAR_LOOKUP_LIMIT. rewrite length_take. lia. Qed.

Lemma enrich_log_length url ns :
  (length (fst (enrich url ns)) <= 10)%nat.
Proof.
  rewrite enrich_log. pose proof (avatar_ids_length ns) as H.
  revert H. generalize (avatar_ids ns). intros ids.
  assert (Hle : (length (concat (imap (fun i v =>
                    fst (Proxy.lookup_try cfg fetch JSON_parse base64 url i v))
                    ids)) <= length ids)%nat); [|lia].
  induction ids as [|x ids IH] using rev_ind; [simpl; lia|].
  rewrite imap_snoc, concat_app, !length_app. simpl.
  rewrite lookup_try_log. destruct (unprintable_value x); simpl; lia.
Qed.

(** The requests of one candidate: its own, then the lookups. *)
Lemma attempt_requests u :
  exists lookups,
    fst (attempt u) = get_request u None :: lookups
    /\ Forall (fun rq => req_timeout rq = Some 6000) lookups
    /\ (length lookups <= 10)%nat
    /\ (lookups <> [] ->
        (exists rs, snd (attempt u) = Accepted rs)
        \/ snd (attempt u) = Rejected (ErrThrown u TypeError)).
Proof.
  assert (Hnone : forall a,
            exists lookups,
              fst (get_request u None :: [], a) = get_request u None :: lookups
              /\ Forall (fun rq => req_timeout rq = Some 6000) lookups
              /\ (length lookups <= 10)%nat
              /\ (lookups <> [] ->
                  (exists rs, snd (get_request u None :: [], a) = Accepted rs)
                  \/ snd (get_request u None :: [], a)
                     = Rejected (ErrThrown u TypeError))).
  { intros a. exists []. simpl. repeat split; auto; try lia. congruence. }
  unfold Proxy.attempt, Proxy.attempt_try.
  destruct (fetch (get_request u None)) as [r|msg]; simpl; [|apply Hnone].
  destruct (ok r); simpl; [|apply Hnone].
  destruct (JSON_parse (text r)) as [payload|]; simpl; [|apply Hnone].
  destruct (comments_of payload) as [[[| | | |cs|]|]|]; simpl;
    try apply Hnone.
  destruct (map_outcome normalize (take 50 cs)) as [ns|]; simpl;
    [|apply Hnone].
  pose proof (enrich_log_timeouts cfg fetch JSON_parse base64 u ns) as Ht.
  pose proof (enrich_log_length u ns) as Hl.
  pose proof (enrich_outcome cfg fetch JSON_parse base64 u ns) as Ho.
  destruct (Proxy.enrich cfg fetch JSON_parse base64 u ns) as [elog o].
  simpl in *. exists elog. repeat split; auto. intros _.
  destruct (existsb _ ns).
  - right. subst o. reflexivity.
  - left. destruct Ho as [rs ->]. eauto.
Qed.

Lemma attempts_length urls :
  (length (concat (map (fun u => fst (attempt u)) urls))
   <= 11 * length urls)%nat.
Proof.
  induction urls as [|u urls IH]; simpl; [lia|].
  rewrite length_app.
  destruct (attempt_requests u) as (lookups & -> & _ & Hl & _). simpl. lia.
Qed.

(** X3. A comments request sends between one and three candidate requests,
    the first URLs of the list in their order. Each candidate request may
    be followed by avatar lookups of its own, at most ten, so the requests
    are 33 at most; a candidate followed by lookups is the one used, or one
    passed over with a TypeError. The answer is a 502 exactly when all
    three candidates were passed over. *)
Theorem comments_requests (postId : string) :
  exists n,
    (1 <= n <= 3)%nat
    /\ fst (comments_handler postId)
       = concat (map (fun u => fst (attempt u))
                   (take n (comment_urls postId)))
    /\ candidate_requests (fst (comments_handler postId))
       = map (fun u => get_request u None) (take n (comment_urls postId))
    /\ (forall u,
          exists lookups,
            fst (attempt u) = get_request u None :: lookups
            /\ Forall (fun rq => req_timeout rq = Some 6000) lookups
            /\ (length lookups <= 10)%nat
            /\ (lookups <> [] ->
                (exists rs, snd (attempt u) = Accepted rs)
                \/ snd (attempt u) = Rejected (ErrThrown u TypeError)))
    /\ (comments_status (snd (comments_handler postId)) = 502
        <-> Forall rejected (comment_urls postId))
    /\ (length (fst (comments_handler postId)) <= 33)%nat.
Proof.
  unfold Proxy.comments_handler.
  destruct (fallback_cases (comment_urls postId) ErrNull)
    as [(Hall & Hfst & d & Hsnd)
       |(pre & u & post & log & rs & Hurls & Hpre & Hu & Hfb)].
  - exists 3%nat. rewrite Hfst, Hsnd.
    change (take 3 (comment_urls postId)) with (comment_urls postId).
    split; [lia|]. split; [reflexivity|].
    split; [apply candidate_requests_attempts|].
    split; [exact attempt_requests|].
    split; [simpl; tauto|].
    pose proof (attempts_length (comment_urls postId)) as H.
    simpl length in H at 2. lia.
  - assert (Hlen : (length pre + 1 + length post = 3)%nat).
    { apply (f_equal (@length string)) in Hurls. rewrite length_app in Hurls.
      simpl in Hurls. lia. }
    assert (Htake : take (S (length pre)) (comment_urls postId) = pre ++ [u]).
    { rewrite Hurls.
      replace (S (length pre)) with (length pre + 1)%nat by lia.
      rewrite take_app_add. reflexivity. }
    assert (Hlog : concat (map (fun x => fst (attempt x)) (pre ++ [u]))
                   = concat (map (fun x => fst (attempt x)) pre) ++ log).
    { rewrite map_app, concat_app. simpl. rewrite Hu, app_nil_r.
      reflexivity. }
    exists (S (length pre)). rewrite Hfb, Htake. cbn [fst snd].
    rewrite <- Hlog.
    split; [lia|]. split; [reflexivity|].
    split; [apply candidate_requests_attempts|].
    split; [exact attempt_requests|]. split.
    { simpl. split; [discriminate|]. intros Hall. exfalso.
      rewrite Hurls in Hall.
      apply List.Forall_app in Hall. destruct Hall as [_ Hall].
      inversion Hall as [|? ? Hrej _]; subst.
      apply attempt_rejected_iff in Hrej. destruct Hrej as [e He].
      rewrite Hu in He. discriminate. }
    pose proof (attempts_length (pre ++ [u])) as H.
    rewrite length_app in H. simpl in H. lia.
Qed.

Lemma null_or_truthy_or a : null_or_truthy (Js.or a (Some JNull)).
Proof. apply or_null. Qed.

Lemma avatar_ids_nil results :
  Forall (fun c => creator_id c = Some JNull) results -> avatar_ids results = [].
Proof.
  intros H. unfold avatar_ids.
  replace (List.filter truthy (map creator_id results)) with (@nil value);
    [reflexivity|].
  induction H as [|c cs Hc _ IH]; simpl; [reflexivity|].
  rewrite Hc. simpl. exact IH.
Qed.

(** The avatar of an enriched comment that had none. *)
Lemma enriched_avatar url ids c c' :
  avatar_url c = Some JNull ->
  enriched_from cfg fetch JSON_parse base64 url ids c c' ->
  (null_or_truthy (avatar_url c')
   \/ (avatar_url c' = None
       /\ last_with_key ids (value_to_string (creator_id c)) = None
       /\ existsb (String.eqb (value_to_string (creator_id c)))
            object_prototype = true))
  /\ (creator_id c = Some JNull -> avatar_url c' = Some JNull).
Proof.
  intros Hav (_ & Hfalsy & Htruthy).
  destruct (truthy (creator_id c)) eqn:Hc.
  - split; [|intros Hn; rewrite Hn in Hc; discriminate].
    specialize (Htruthy eq_refl). cbv zeta in Htruthy.
    destruct (last_with_key ids (value_to_string (creator_id c))) as [i|].
    + destruct Htruthy as (v & _ & _ & ->). left.
      destruct (truthy (snd (Proxy.lookup cfg fetch JSON_parse base64 url i v)))
        eqn:Ht; [right; exact Ht|left; exact Hav].
    + rewrite Htruthy.
      destruct (existsb _ object_prototype) eqn:Hp; [|left; left; exact Hav].
      unfold inherited_json.
      destruct (String.eqb _ "__proto__"); [left; right; reflexivity|].
      right. auto.
  - rewrite (Hfalsy eq_refl). split; [left; left; exact Hav|intros _; exact Hav].
Qed.

(** X4. In a successful comments response the creator_id of a comment is
    null or a truthy value, and a comment whose upstream creator id is
    missing, null, 0 or empty has creator_id null. The avatar_url is null
    or a truthy value, or it is left out; it is left out only for a comment
    whose creator id has the text of no id looked up and of a member of
    Object.prototype. A comment with creator_id null has avatar_url null.
    When no comment has a creator id, no lookup is sent. *)
Theorem comments_without_creator (postId : string) log rs :
  comments_handler postId = (log, CommentsOk rs) ->
  Forall (fun r =>
            null_or_truthy (creator_id r)
            /\ (null_or_truthy (avatar_url r)
                \/ (avatar_url r = None
                    /\ existsb (String.eqb (value_to_string (creator_id r)))
                         object_prototype = true))
            /\ (creator_id r = Some JNull -> avatar_url r = Some JNull)) rs
  /\ (Forall (fun r => creator_id r = Some JNull) rs ->
      exists before u, log = before ++ [get_request u None]).
Proof.
  unfold Proxy.comments_handler. intros H.
  destruct (fallback_cases (comment_urls postId) ErrNull)
    as [(_ & _ & d & Hsnd)
       |(pre & u & post & ulog & rs' & Hurls & Hpre & Hu & Hfb)].
  { rewrite H in Hsnd. discriminate. }
  rewrite Hfb in H. inversion H; subst; clear H.
  pose proof (attempt_enriched cfg fetch JSON_parse base64 _ _ _ Hu)
    as (r & payload & cs & ns & _ & _ & _ & Hn & Hav & Hlog & Hen).
  apply map_outcome_Forall2 in Hn.
  assert (Hns : Forall (fun c => null_or_truthy (creator_id c)) ns).
  { clear - Hn. induction Hn as [|c n l l' Hc _ IH]; constructor; auto.
    apply normalize_Ok in Hc. destruct Hc as (_ & _ & _ & Hid & _).
    rewrite Hid. apply null_or_truthy_or. }
  split.
  - clear - Hns Hav Hen. revert Hns Hav.
    induction Hen as [|c c' l l' Hc _ IH]; intros Hns Hav; constructor.
    + inversion Hns as [|? ? Hid _]; subst.
      inversion Hav as [|? ? Hnull _]; subst.
      destruct (enriched_avatar _ _ _ _ Hnull Hc) as [Hwhich Hkeep].
      destruct Hc as ((_ & _ & Hcid & _) & _).
      rewrite Hcid. split; [exact Hid|]. split; [|exact Hkeep].
      destruct Hwhich as [?|(? & _ & ?)]; auto.
    + apply IH; [inversion Hns|inversion Hav]; assumption.
  - intros Hall.
    assert (Hids : avatar_ids ns = []).
    { apply avatar_ids_nil. clear - Hall Hen. revert Hall.
      induction Hen as [|c c' l l' Hc _ IH]; intros Hall; constructor.
      - inversion Hall; subst. destruct Hc as ((_ & _ & Hcid & _) & _).
        congruence.
      - apply IH. inversion Hall; assumption. }
    rewrite Hlog, Hids. simpl. eauto.
Qed.




End MoreProxyFacts.

(* ===================================================================== *)
(** * More properties of the feed controller *)
(* ===================================================================== *)

Section MoreFeedFacts.

Import Feed.

Variable js_minus : value -> value -> value.

Local Abbreviation addPost := (Feed.addPost js_minus).
Local Abbreviation render_posts := (Feed.render_posts js_minus).
Local Abbreviation fetchPosts := (Feed.fetchPosts js_minus).
Local Abbreviation step := (Feed.step js_minus).
Local Abbreviation run := (Feed.run js_minus).

(** ** The current card *)

Lemma visit_fold_first cs mid es best d0 :
  (fold_left (visit cs mid) es (best, Some d0) = (best, Some d0)
   /\ forall e, In e es -> (d0 <= entry_dist cs mid e)%Q)
  \/ (exists l1 e l2,
        es = l1 ++ e :: l2
        /\ fold_left (visit cs mid) es (best, Some d0)
           = (fst e, Some (entry_dist cs mid e))
        /\ (entry_dist cs mid e < d0)%Q
        /\ (forall e', In e' l1 -> (entry_dist cs mid e < entry_dist cs mid e')%Q)
        /\ (forall e', In e' l2 -> (entry_dist cs mid e <= entry_dist cs mid e')%Q)).
Proof.
  revert best d0. induction es as [|x es IH]; intros best d0.
  - left. split; [reflexivity|intros e []].
  - cbn [fold_left]. rewrite visit_eq. cbn [fst snd]. unfold closer.
    destruct (Qle_bool d0 (entry_dist cs mid x)) eqn:Hle; cbn [negb].
    + apply Qle_bool_iff in Hle.
      destruct (IH best d0) as [[Hsame Hall]
                               |(l1 & e & l2 & -> & Hres & Hlt & H1 & H2)].
      * left. split; [exact Hsame|]. intros e [<-|He]; auto.
      * right. exists (x :: l1), e, l2. split; [reflexivity|].
        split; [exact Hres|]. split; [exact Hlt|]. split; [|exact H2].
        intros e' [<-|He']; [|auto]. eapply Qlt_le_trans; eauto.
    + assert (Hlt : (entry_dist cs mid x < d0)%Q).
      { apply Qnot_le_lt. intros H. apply Qle_bool_iff in H. congruence. }
      destruct (IH (fst x) (entry_dist cs mid x))
        as [[Hsame Hall]|(l1 & e & l2 & -> & Hres & Hlt' & H1 & H2)].
      * right. exists [], x, es. split; [reflexivity|].
        split; [exact Hsame|]. split; [exact Hlt|].
        split; [intros e' []|exact Hall].
      * right. exists (x :: l1), e, l2. split; [reflexivity|].
        split; [exact Hres|]. split; [eapply Qlt_trans; eauto|].
        split; [|exact H2].
        intros e' [<-|He']; [exact Hlt'|auto].
Qed.

Lemma combine_seq_split {A} (l : list A) k l1 e l2 :
  combine (seq k (length l)) l = l1 ++ e :: l2 ->
  fst e = (k + length l1)%nat
  /\ (forall e', In e' l1 -> (fst e' < fst e)%nat)
  /\ (forall e', In e' l2 -> (fst e < fst e')%nat).
Proof.
  revert k l. induction l1 as [|x l1 IH]; intros k l H.
  - destruct l as [|a l]; simpl in H; [discriminate|].
    inversion H; subst. simpl. split; [lia|]. split; [intros e' []|].
    intros [j c] Hin. apply in_combine_l in Hin. apply in_seq in Hin.
    simpl. lia.
  - destruct l as [|a l]; simpl in H; [discriminate|].
    inversion H as [[Hx Hrest]]. destruct (IH _ _ Hrest) as (Hk & Hl1 & Hl2).
    split; [simpl; lia|]. split; [|exact Hl2].
    intros e' [<-|He']; [simpl; lia|auto].
Qed.

Lemma first_nearest st :
  cards st <> [] ->
  exists c,
    In (getCurrentIndexInFeed st, c) (indexed (cards st))
    /\ forall j c', In (j, c') (indexed (cards st)) ->
         (entry_dist (cards st) (viewport_mid st) (getCurrentIndexInFeed st, c)
          <= entry_dist (cards st) (viewport_mid st) (j, c'))%Q
         /\ ((j < getCurrentIndexInFeed st)%nat ->
             (entry_dist (cards st) (viewport_mid st)
                (getCurrentIndexInFeed st, c)
              < entry_dist (cards st) (viewport_mid st) (j, c'))%Q).
Proof.
  intros Hne. unfold getCurrentIndexInFeed, getCards, viewport_mid.
  destruct (cards st) as [|c0 cs] eqn:E; [congruence|].
  change (length (c0 :: cs) =? 0)%nat with false. cbv iota.
  set (mid := (inject_Z (scrollTop st) + inject_Z (clientHeight st) / 2)%Q).
  unfold indexed. cbn [length seq combine fold_left].
  rewrite visit_eq. cbn [fst snd closer].
  destruct (visit_fold_first (c0 :: cs) mid (combine (seq 1 (length cs)) cs)
              0%nat (entry_dist (c0 :: cs) mid (0%nat, c0)))
    as [[Hsame Hall]|(l1 & e & l2 & Hsplit & Hres & Hlt & H1 & H2)].
  - rewrite Hsame. cbn [fst]. exists c0. split; [left; reflexivity|].
    intros j c' [Heq|Hin].
    + inversion Heq; subst. split; [apply Qle_refl|lia].
    + split; [auto|lia].
  - rewrite Hres. cbn [fst]. destruct e as [i c]. cbn [fst] in *.
    exists c. split; [right; rewrite Hsplit; apply in_elt|].
    pose proof (combine_seq_split cs 1 l1 (i, c) l2 Hsplit)
      as (_ & Hbefore & Hafter).
    intros j c' [Heq|Hin].
    + inversion Heq; subst. split; [apply Qlt_le_weak; exact Hlt|].
      intros _. exact Hlt.
    + rewrite Hsplit in Hin. apply in_app_or in Hin.
      destruct Hin as [Hin|[Heq|Hin]].
      * split; [apply Qlt_le_weak|intros _]; auto.
      * inversion Heq; subst. split; [apply Qle_refl|lia].
      * split; [auto|]. specialize (Hafter _ Hin). cbn [fst] in Hafter. lia.
Qed.

(** The index with these two properties is the current index. *)
Lemma current_unique st i c :
  In (i, c) (indexed (cards st)) ->
  (forall j c', In (j, c') (indexed (cards st)) ->
     (entry_dist (cards st) (viewport_mid st) (i, c)
      <= entry_dist (cards st) (viewport_mid st) (j, c'))%Q
     /\ ((j < i)%nat ->
         (entry_dist (cards st) (viewport_mid st) (i, c)
          < entry_dist (cards st) (viewport_mid st) (j, c'))%Q)) ->
  getCurrentIndexInFeed st = i.
Proof.
  intros Hi Hnear.
  assert (Hne : cards st <> []).
  { intros E. rewrite E in Hi. destruct Hi. }
  destruct (first_nearest st Hne) as (c0 & Hc0 & Hcur).
  destruct (Hnear _ _ Hc0) as [Hle1 Hlt1].
  destruct (Hcur _ _ Hi) as [Hle2 Hlt2].
  destruct (Nat.lt_trichotomy (getCurrentIndexInFeed st) i) as [H|[H|H]];
    [|exact H|].
  - exfalso. specialize (Hlt1 H).
    exact (Qlt_irrefl _ (Qlt_le_trans _ _ _ Hlt1 Hle2)).
  - exfalso. specialize (Hlt2 H).
    exact (Qlt_irrefl _ (Qlt_le_trans _ _ _ Hlt2 Hle1)).
Qed.

(** X6. On an empty feed the current index is 0. On any other feed it is
    the index of a card, no card has its centre nearer to the centre of
    the viewport, and every card before it has its centre strictly
    farther: among equally near cards the first one is current. It is the
    only index with these properties. *)
Theorem current_card_first_nearest (st : feed_state) :
  let nearest i c :=
    forall j c', In (j, c') (indexed (cards st)) ->
      (entry_dist (cards st) (viewport_mid st) (i, c)
       <= entry_dist (cards st) (viewport_mid st) (j, c'))%Q
      /\ ((j < i)%nat ->
          (entry_dist (cards st) (viewport_mid st) (i, c)
           < entry_dist (cards st) (viewport_mid st) (j, c'))%Q) in
  (cards st = [] -> getCurrentIndexInFeed st = 0%nat)
  /\ (cards st <> [] ->
      exists c,
        In (getCurrentIndexInFeed st, c) (indexed (cards st))
        /\ nearest (getCurrentIndexInFeed st) c)
  /\ (forall i c, In (i, c) (indexed (cards st)) -> nearest i c ->
                  getCurrentIndexInFeed st = i).
Proof.
  cbv zeta. split; [|split].
  - intros H. unfold getCurrentIndexInFeed, getCards. rewrite H. reflexivity.
  - apply first_nearest.
  - apply current_unique.
Qed.

(** ** The window around the current card *)

Lemma window_nat st :
  cards st <> [] ->
  Z.to_nat (window_min st) = (getCurrentIndexInFeed st - 10)%nat
  /\ Z.to_nat (window_max st + 1)
     = S (Nat.min (length (cards st) - 1) (getCurrentIndexInFeed st + 5)).
Proof.
  intros Hne. pose proof (getCurrentIndexInFeed_lt st Hne).
  unfold window_min, window_max, KEEP_BEHIND, PRELOAD_AHEAD. lia.
Qed.

Lemma kept_around st :
  cards st <> [] ->
  exists before c after,
    kept st = before ++ c :: after
    /\ nth_error (cards st) (getCurrentIndexInFeed st) = Some c
    /\ length before = Nat.min (getCurrentIndexInFeed st) 10
    /\ length after
       = Nat.min (length (cards st) - 1 - getCurrentIndexInFeed st) 5.
Proof.
  intros Hne. pose proof (getCurrentIndexInFeed_lt st Hne) as Hlt.
  destruct (window_nat st Hne) as (Hmin & Hmax).
  unfold kept. rewrite Hmin, Hmax.
  set (idx := getCurrentIndexInFeed st) in *.
  destruct (lookup_lt_is_Some_2 (cards st) idx Hlt) as [c Hc].
  pose proof (take_drop_middle _ _ _ Hc) as Hsplit.
  exists (drop (idx - 10) (take idx (cards st))), c,
    (take (Nat.min (length (cards st) - 1) (idx + 5) - idx)
       (drop (S idx) (cards st))).
  split; [|split; [|split]].
  - assert (Hl : length (take idx (cards st)) = idx)
      by (rewrite length_take; lia).
    transitivity
      (drop (idx - 10)
         (take (S (Nat.min (length (cards st) - 1) (idx + 5)))
            (take idx (cards st) ++ c :: drop (S idx) (cards st))));
      [rewrite Hsplit; reflexivity|].
    rewrite take_app. rewrite Hl.
    rewrite (take_ge (take idx (cards st))) by lia.
    replace (S (Nat.min (length (cards st) - 1) (idx + 5)) - idx)%nat
      with (S (Nat.min (length (cards st) - 1) (idx + 5) - idx)) by lia.
    cbn [take]. rewrite drop_app. rewrite Hl.
    replace (idx - 10 - idx)%nat with 0%nat by lia. reflexivity.
  - rewrite <- Hc. clear. generalize (cards st) as l.
    induction idx as [|i IH]; intros [|x l]; simpl; auto.
  - rewrite length_drop, length_take. lia.
  - rewrite length_take, length_drop. lia.
Qed.

(** X7. In a session with a non-empty feed a prune keeps the current card,
    the [min(idx, 10)] cards just before it and the [min(n - 1 - idx, 5)]
    cards just after it, [idx] being the current index and [n] the number
    of cards; it removes the [idx - 10] cards before and the
    [n - 1 - idx - 5] cards after these, truncated at 0. The current card
    has index [min(idx, 10)] afterwards. *)
Theorem prune_keeps_around_current (mobile : bool) (viewport : Z)
    (evs : list event) :
  let st := run (boot mobile viewport) evs in
  let st' := pruneAroundCurrent st in
  let idx := getCurrentIndexInFeed st in
  let n := length (cards st) in
  cards st <> [] ->
  exists before c after,
    cards st' = before ++ c :: after
    /\ cards st = above st ++ before ++ c :: after ++ below st
    /\ nth_error (cards st) idx = Some c
    /\ nth_error (cards st') (Nat.min idx 10) = Some c
    /\ length before = Nat.min idx 10
    /\ length after = Nat.min (n - 1 - idx) 5
    /\ length (above st) = (idx - 10)%nat
    /\ length (below st) = (n - 1 - idx - 5)%nat.
Proof.
  cbv zeta. set (st := run (boot mobile viewport) evs). intros Hne.
  pose proof (wf_run js_minus mobile viewport evs) as [Hnd _]. fold st in Hnd.
  destruct (prune_shape _ Hnd) as (Hc & _). rewrite Hc.
  destruct (kept_around st Hne) as (before & c & after & Hk & Hcur & Hb & Ha).
  pose proof (getCurrentIndexInFeed_lt st Hne) as Hlt.
  destruct (window_nat st Hne) as (Hmin & Hmax).
  exists before, c, after. split; [exact Hk|].
  split.
  { rewrite (cards_split st) at 1. rewrite Hk, <- !app_assoc. reflexivity. }
  split; [exact Hcur|]. split.
  { rewrite Hk, <- Hb. rewrite nth_error_app2 by lia.
    rewrite Nat.sub_diag. reflexivity. }
  split; [exact Hb|]. split; [exact Ha|].
  unfold above, below. rewrite length_take, length_drop, Hmin, Hmax. lia.
Qed.

Lemma cards_empty_dec st : cards st = [] \/ cards st <> [].
Proof. destruct (cards st); [left; reflexivity|right; discriminate]. Qed.

Lemma set_cards_same st : set_cards (cards st) st = st.
Proof. destruct st; reflexivity. Qed.

Lemma set_listeners_same st : set_listeners (listeners st) st = st.
Proof. destruct st; reflexivity. Qed.

Lemma set_scrollTop_same st : set_scrollTop (scrollTop st) st = st.
Proof. destruct st; reflexivity. Qed.

Lemma scrollTop_after_same st : scrollTop_after st (cards st) = scrollTop st.
Proof. unfold scrollTop_after. rewrite Nat.ltb_irrefl. reflexivity. Qed.

Lemma prune_fixed_iff st :
  NoDup (map node (cards st)) ->
  pruneAroundCurrent st = st
  <-> (getCurrentIndexInFeed st <= 10
       /\ length (cards st) <= getCurrentIndexInFeed st + 6)%nat.
Proof.
  intros Hnd. destruct (cards_empty_dec st) as [E|Hne].
  - rewrite pruneAroundCurrent_empty by exact E.
    unfold getCurrentIndexInFeed, getCards. rewrite E. simpl.
    split; [lia|reflexivity].
  - pose proof (getCurrentIndexInFeed_lt st Hne) as Hlt.
    destruct (window_nat st Hne) as (Hmin & Hmax).
    split.
    + intros Heq. destruct (prune_shape _ Hnd) as (Hc & _).
      rewrite Heq in Hc.
      pose proof (f_equal (@length card) (cards_split st)) as Hlen.
      rewrite !length_app, <- Hc in Hlen.
      unfold above, below in Hlen.
      rewrite length_take, length_drop, Hmin, Hmax in Hlen. lia.
    + intros [H1 H2]. rewrite pruneAroundCurrent_pruned by assumption.
      unfold pruned.
      assert (Ha : above st = []).
      { unfold above. rewrite Hmin.
        replace (getCurrentIndexInFeed st - 10)%nat with 0%nat by lia.
        reflexivity. }
      assert (Hk : kept st = cards st).
      { unfold kept. rewrite Hmin, Hmax.
        replace (getCurrentIndexInFeed st - 10)%nat with 0%nat by lia.
        rewrite drop_0. apply take_ge. lia. }
      rewrite Ha, Hk, scrollTop_after_same. cbn [heights unregister].
      change (heights [] >? 0) with false. cbv iota.
      rewrite set_cards_same.
      change (unregister [] (listeners st)) with (listeners st).
      rewrite set_listeners_same. apply set_scrollTop_same.
Qed.

(** X8. In a session a prune leaves the state as it is exactly when it has
    nothing to remove: at most 10 cards come before the current card and
    at most 5 after it (an empty feed included). In particular a feed of
    at most 6 cards is never pruned. *)
Theorem prune_nothing_to_remove (mobile : bool) (viewport : Z)
    (evs : list event) :
  let st := run (boot mobile viewport) evs in
  let idx := getCurrentIndexInFeed st in
  let n := length (cards st) in
  (pruneAroundCurrent st = st <-> (idx <= 10 /\ n <= idx + 6)%nat)
  /\ ((n <= 6)%nat -> pruneAroundCurrent st = st).
Proof.
  cbv zeta. set (st := run (boot mobile viewport) evs).
  pose proof (wf_run js_minus mobile viewport evs) as [Hnd _]. fold st in Hnd.
  split; [apply prune_fixed_iff; exact Hnd|].
  intros Hn. apply prune_fixed_iff; [exact Hnd|].
  destruct (cards_empty_dec st) as [E|Hne].
  - unfold getCurrentIndexInFeed, getCards. rewrite E. simpl. lia.
  - pose proof (getCurrentIndexInFeed_lt st Hne). lia.
Qed.

(** ** Rendering a page *)

Lemma or_string_nonempty a b s :
  Js.or a b = Some (JStr s) -> (forall t, b <> Some (JStr t)) ->
  (String.length s =? 0)%nat = false.
Proof.
  unfold Js.or. destruct (truthy a) eqn:Ht; intros H Hb; [|congruence].
  subst a. simpl in Ht. destruct s; [discriminate|reflexivity].
Qed.

Lemma succeeds_Ok {A} (o : outcome A) :
  succeeds o = true <-> exists a, o = Ok a.
Proof.
  destruct o; simpl; split; eauto; try discriminate.
  intros [a H]. discriminate.
Qed.

Lemma succeeds_bind {A B} (m : outcome A) (k : A -> outcome B) :
  succeeds (Js.bind m k)
  = match m with Ok a => succeeds (k a) | Throw _ => false end.
Proof. destruct m; reflexivity. Qed.

Lemma succeeds_bind_const {A B} (m : outcome A) (k : A -> outcome B) b :
  (forall a, succeeds (k a) = b) ->
  succeeds (Js.bind m k) = succeeds m && b.
Proof. intros H. destruct m; simpl; auto. Qed.

Lemma succeeds_string_of v : succeeds (string_of v) = negb (unprintable_value v).
Proof. unfold string_of. destruct (unprintable_value v); reflexivity. Qed.

Lemma string_of_bind {B} v (k : string -> outcome B) :
  succeeds (Js.bind (string_of v) k)
  = negb (unprintable_value v) && succeeds (k (value_to_string v)).
Proof. unfold string_of. destruct (unprintable_value v); reflexivity. Qed.

Lemma artist_text_succeeds p : succeeds (artist_text p) = artists_ok p.
Proof.
  unfold artist_text, artists_ok.
  destruct (Js.or (opt_get (opt_get p "tags") "artist") (Some (JArr [])))
    as [[| | |s|l|fs]|] eqn:Ha; try reflexivity.
  - rewrite (or_string_nonempty _ _ _ Ha) by discriminate. reflexivity.
  - destruct l as [|x l]; [reflexivity|].
    change (length (x :: l) =? 0)%nat with false. cbv iota.
    destruct (existsb unprintable (x :: l)); reflexivity.
  - destruct (truthy (assoc "length" fs)); reflexivity.
Qed.

Lemma escapeHtml_call_string {B} s (k : string -> outcome B) :
  Js.bind (escapeHtml_call (Some (JStr s))) k = k (escapeHtml (Some (JStr s))).
Proof. reflexivity. Qed.

Lemma description_succeeds {B} p (k : list segment -> outcome B) :
  (forall l, succeeds (k l) = true) ->
  succeeds
    (Js.bind
       (if truthy (description_of p)
        then
          Js.bind (escapeHtml_call (description_of p))
            (fun html =>
               Ok [Lit ("<div style="
                        +:+ String dquote "margin-top:6px; opacity:0.95;"
                        +:+ String dquote ">");
                   Escaped (slice0 300 html);
                   Lit "</div>"])
        else Ok [Lit ""]) k)
  = negb (truthy (opt_get p "description")
          && unprintable_value (opt_get p "description")).
Proof.
  intros Hk. unfold description_of.
  destruct (truthy (opt_get p "description")) eqn:Ht.
  - rewrite Ht. unfold escapeHtml_call.
    assert (Hn : nullish (opt_get p "description") (Some (JStr ""))
                 = opt_get p "description").
    { destruct (opt_get p "description") as [[]|]; try reflexivity;
        discriminate. }
    rewrite Hn. unfold string_of.
    destruct (unprintable_value (opt_get p "description")); simpl;
      [reflexivity|apply Hk].
  - change (truthy (Some (JStr ""))) with false. cbv iota. simpl. apply Hk.
Qed.

Lemma card_info_succeeds p : succeeds (card_info js_minus p) = info_ok p.
Proof.
  unfold Feed.card_info, info_ok, printed_values.
  rewrite succeeds_bind, <- artist_text_succeeds.
  destruct (artist_text p) as [artistText|]; [|reflexivity].
  rewrite escapeHtml_call_string. cbn [succeeds forallb andb].
  set (up := nullish (opt_get (opt_get p "score") "up") (Some (JNum 0))).
  set (down := nullish (opt_get (opt_get p "score") "down") (Some (JNum 0))).
  set (count := nullish (opt_get p "comment_count") (Some (JNum 0))).
  assert (Hrest : forall totalText,
            succeeds
              (let* upText := string_of up in
               let* downText := string_of down in
               let* countText := string_of count in
               let* descHtml :=
                 if truthy (description_of p)
                 then
                   let* html := escapeHtml_call (description_of p) in
                   Ok [Lit ("<div style="
                            +:+ String dquote "margin-top:6px; opacity:0.95;"
                            +:+ String dquote ">");
                       Escaped (slice0 300 html);
                       Lit "</div>"]
                 else Ok [Lit ""] in
               Ok ([Lit (nl +:+ "    <div><strong>Artist:</strong> ");
                    Escaped (escapeHtml (Some (JStr artistText)));
                    Lit ("</div>" +:+ nl
                         +:+ "    <div><strong>Score:</strong> ");
                    Raw totalText;
                    Lit " (⬆ ";
                    Raw upText;
                    Lit " / ⬇ ";
                    Raw downText;
                    Lit (")</div>" +:+ nl
                         +:+ "    <div><strong>Comments:</strong> ");
                    Raw countText;
                    Lit ("</div>" +:+ nl +:+ "    ")]
                   ++ descHtml
                   ++ [Lit (nl +:+ "  ")]))
            = negb (unprintable_value up) && negb (unprintable_value down)
              && negb (unprintable_value count)
              && negb (truthy (opt_get p "description")
                       && unprintable_value (opt_get p "description"))).
  { intros totalText. rewrite !string_of_bind.
    rewrite description_succeeds by reflexivity.
    rewrite !andb_assoc. reflexivity. }
  rewrite (succeeds_bind_const _ _ _ Hrest). clear Hrest.
  set (D := negb (truthy (opt_get p "description")
                  && unprintable_value (opt_get p "description"))).
  destruct (opt_get (opt_get p "score") "total") as [[| | | | |]|];
    cbn [nullish];
    rewrite ?succeeds_string_of, ?string_of_bind;
    cbn [succeeds unprintable_value unprintable negb andb];
    destruct (unprintable_value up), (unprintable_value down),
      (unprintable_value count), D;
    cbn [negb andb]; rewrite ?andb_true_r, ?andb_false_r; reflexivity.
Qed.

Lemma addPost_succeeds h p st : succeeds (addPost h p st) = renderable p.
Proof.
  unfold Feed.addPost, renderable.
  destruct p as [| b | n | s | l | fs] eqn:Ep; [reflexivity| | | | |];
    rewrite <- Ep; cbn [andb].
  all: replace (get (Some p) "id") with (Ok (prop p "id"))
    by (rewrite Ep; reflexivity).
  all: cbn [Js.bind]; rewrite string_of_bind, <- !andb_assoc; f_equal.
  all: rewrite succeeds_bind; unfold lower_or_empty.
  all: destruct (Js.or (opt_get (opt_get (Some p) "file") "ext")
                   (Some (JStr ""))) as [[| | |e| |]|]; try reflexivity.
  all: cbn [andb].
  all: rewrite (succeeds_bind_const _ _ (info_ok (Some p)))
    by (intros a; rewrite succeeds_bind, <- card_info_succeeds;
        destruct (Feed.card_info js_minus (Some p)); reflexivity).
  all: f_equal.
  all: destruct (truthy (opt_get (opt_get (Some p) "file") "url"));
    [rewrite string_of_bind; cbn [succeeds negb orb];
     apply andb_true_r | reflexivity].
Qed.

Lemma addPost_renderable h p st :
  (exists st', addPost h p st = Ok st') <-> renderable p = true.
Proof. rewrite <- (addPost_succeeds h p st). symmetry. apply succeeds_Ok. Qed.

Lemma addPost_card h p st st' :
  addPost h p st = Ok st' ->
  exists c,
    st' = set_fresh (S (fresh st)) (set_cards (cards st ++ [c]) st)
    /\ node c = fresh st /\ post c = p /\ offsetHeight c = h (fresh st)
    /\ panel c = None /\ outsideTapHandler c = None.
Proof.
  intros H. apply addPost_appends in H.
  destruct H as (c & -> & Hn & Hp & _ & Hh & Hpan & Hhd & _).
  exists c. auto 10.
Qed.

Lemma ext_throw_passes p e :
  lower_or_empty (opt_get (opt_get (Some p) "file") "ext") = Throw e ->
  passes p = false.
Proof.
  unfold passes, swf_post, renderable, lower_or_empty.
  destruct (Js.or (opt_get (opt_get (Some p) "file") "ext") (Some (JStr "")))
    as [[]|]; try discriminate; intros _;
    rewrite ?andb_false_r; reflexivity.
Qed.

Lemma passes_head_false p good bad rest (l : list json) :
  p :: l = good ++ bad :: rest ->
  Forall (fun q => passes q = true) good -> passes p = false ->
  good = [].
Proof.
  intros H Hg Hp. destruct good as [|g good]; [reflexivity|].
  inversion H; subst. inversion Hg; congruence.
Qed.

Lemma passes_head_true p good bad rest (l : list json) :
  p :: l = good ++ bad :: rest ->
  passes bad = false -> passes p = true ->
  exists good', good = p :: good' /\ l = good' ++ bad :: rest.
Proof.
  intros H Hb Hp. destruct good as [|g good].
  - inversion H; subst. congruence.
  - inversion H; subst. eauto.
Qed.

(** The loop of [fetchPosts] on any list of posts. *)
Lemma render_posts_run h ps st :
  exists new,
    fst (render_posts h ps st)
    = set_fresh (fresh st + length new) (set_cards (cards st ++ new) st)
    /\ Forall (fun c => panel c = None /\ outsideTapHandler c = None) new
    /\ (Forall (fun p => passes p = true) ps ->
        snd (render_posts h ps st) = None
        /\ map post new = List.filter (fun p => negb (swf_post p)) ps)
    /\ (forall good bad rest,
          ps = good ++ bad :: rest ->
          Forall (fun p => passes p = true) good -> passes bad = false ->
          snd (render_posts h ps st) <> None
          /\ map post new = List.filter (fun p => negb (swf_post p)) good).
Proof.
  assert (Hnil : forall st0 : feed_state,
             st0 = set_fresh (fresh st0 + length (@nil card))
                     (set_cards (cards st0 ++ []) st0)).
  { intros st0. rewrite app_nil_r. simpl. rewrite Nat.add_0_r.
    destruct st0; reflexivity. }
  revert st. induction ps as [|p ps IH]; intros st.
  - exists []. simpl. split; [apply Hnil|]. split; [constructor|].
    split; [auto|]. intros [|] ? ? H; discriminate.
  - rewrite render_posts_cons.
    destruct (lower_or_empty (opt_get (opt_get (Some p) "file") "ext"))
      as [ext|e] eqn:Hext.
    + assert (Hswf : swf_post p = String.eqb ext "swf")
        by (unfold swf_post; rewrite Hext; reflexivity).
      destruct (String.eqb ext "swf") eqn:Eswf.
      * destruct (IH st) as (new & H1 & H2 & H3 & H4).
        exists new. split; [exact H1|]. split; [exact H2|].
        cbn [List.filter]. rewrite Hswf. cbn [negb].
        split.
        -- intros Hall. inversion Hall; subst. auto.
        -- intros good bad rest Hsplit Hg Hb.
           destruct (passes_head_true _ _ _ _ _ Hsplit Hb)
             as (good' & -> & ->).
           { unfold passes. rewrite Hswf. reflexivity. }
           inversion Hg; subst. cbn [List.filter]. rewrite Hswf. cbn [negb].
           eapply H4; eauto.
      * destruct (addPost h p st) as [st1|e] eqn:Hadd.
        -- assert (Hp : passes p = true).
           { unfold passes. rewrite Hswf. simpl.
             apply (addPost_renderable h p st). eauto. }
           destruct (addPost_card _ _ _ _ Hadd)
             as (c & -> & Hn & Hpost & _ & Hpan & Hhd).
           destruct (IH (set_fresh (S (fresh st))
                           (set_cards (cards st ++ [c]) st)))
             as (new & H1 & H2 & H3 & H4).
           exists (c :: new). split.
           { rewrite H1. unfold set_fresh, set_cards. simpl.
             rewrite <- app_assoc. simpl. f_equal. lia. }
           split; [constructor; auto|].
           cbn [List.filter map]. rewrite Hswf, Hpost. cbn [negb].
           split.
           ++ intros Hall. inversion Hall; subst.
              destruct (H3 ltac:(assumption)) as [Hs Hm].
              split; [exact Hs|]. rewrite Hm. reflexivity.
           ++ intros good bad rest Hsplit Hg Hb.
              destruct (passes_head_true _ _ _ _ _ Hsplit Hb Hp)
                as (good' & -> & ->).
              inversion Hg; subst.
              destruct (H4 good' bad rest eq_refl ltac:(assumption) Hb)
                as [Hs Hm].
              split; [exact Hs|]. cbn [List.filter]. rewrite Hswf.
              cbn [negb]. rewrite Hm. reflexivity.
        -- assert (Hp : passes p = false).
           { unfold passes. rewrite Hswf. simpl.
             destruct (renderable p) eqn:Hr; [|reflexivity].
             apply (addPost_renderable h p st) in Hr.
             destruct Hr as [st' Hr]. congruence. }
           exists []. split; [apply Hnil|]. split; [constructor|].
           split.
           ++ intros Hall. inversion Hall; congruence.
           ++ intros good bad rest Hsplit Hg Hb.
              rewrite (passes_head_false _ _ _ _ _ Hsplit Hg Hp).
              split; [discriminate|reflexivity].
    + pose proof (ext_throw_passes _ _ Hext) as Hp.
      exists []. split; [apply Hnil|]. split; [constructor|].
      split.
      * intros Hall. inversion Hall; congruence.
      * intros good bad rest Hsplit Hg Hb.
        rewrite (passes_head_false _ _ _ _ _ Hsplit Hg Hp).
        split; [discriminate|reflexivity].
Qed.

(** X9. [addPost] appends a card exactly when the post is not null; its
    id, its URL when it has one, its scores, its comment count and its
    description when it has one can be converted to strings; its file
    extension is a string or falsy; and its artists are an array of
    elements that can be converted to strings, or anything that is neither
    a non-empty string nor an object with a truthy [length]. Otherwise it
    throws before the feed is touched. The card appended is the last one,
    carries the post, has no comments panel and no handler, and nothing
    else of the state changes but the element counter. *)
Theorem addPost_appends_or_throws (h : nat -> nat) (p : json)
    (st : feed_state) :
  (renderable p = true ->
   exists c,
     addPost h p st
     = Ok (set_fresh (S (fresh st)) (set_cards (cards st ++ [c]) st))
     /\ node c = fresh st /\ post c = p
     /\ postId c = value_to_string (prop p "id")
     /\ offsetHeight c = h (fresh st)
     /\ panel c = None /\ outsideTapHandler c = None)
  /\ (renderable p = false -> exists e, addPost h p st = Throw e).
Proof.
  split; intros Hr.
  - apply (addPost_renderable h p st) in Hr. destruct Hr as [st' Hadd].
    destruct (addPost_Ok js_minus _ _ _ _ Hadd) as (c0 & _ & _ & _ & Hid0 & _).
    destruct (addPost_card _ _ _ _ Hadd) as (c & Hst & Hn & Hp & Hh & H1 & H2).
    exists c. rewrite Hadd, Hst. repeat split; auto.
    destruct (addPost_Ok js_minus _ _ _ _ Hadd)
      as (c1 & Hc1 & _ & _ & Hid & _).
    rewrite Hst in Hc1. simpl in Hc1. apply app_inj_tail in Hc1.
    destruct Hc1 as [_ <-]. exact Hid.
  - destruct (addPost h p st) as [st'|e] eqn:Hadd; [|eauto].
    assert (Hex : exists st', addPost h p st = Ok st') by eauto.
    apply addPost_renderable in Hex. congruence.
Qed.

Lemma page_posts_or (d : json) :
  match Js.or (opt_get (Some d) "posts") (Some (JArr [])) with
  | Some (JArr l) => page_posts (Ok d) = l
  | _ => page_posts (Ok d) = []
  end.
Proof.
  unfold page_posts.
  destruct (Js.or (opt_get (Some d) "posts") (Some (JArr [])))
    as [[]|]; reflexivity.
Qed.

Lemma fetchPosts_run data h st :
  loading st = false ->
  exists new advance,
    fetchPosts data h st
    = set_currentPage (if advance : bool then currentPage st + 1
                       else currentPage st)
        (set_fresh (fresh st + length new)
           (set_cards (cards st ++ new) st))
    /\ Forall (fun c => panel c = None /\ outsideTapHandler c = None) new
    /\ (Forall (fun p => passes p = true) (page_posts data) ->
        advance = negb (length (page_posts data) =? 0)%nat
        /\ map post new
           = List.filter (fun p => negb (swf_post p)) (page_posts data))
    /\ (forall good bad rest,
          page_posts data = good ++ bad :: rest ->
          Forall (fun p => passes p = true) good -> passes bad = false ->
          advance = false
          /\ map post new = List.filter (fun p => negb (swf_post p)) good).
Proof.
  intros Hl.
  assert (Hnone : forall st0 : feed_state, loading st0 = false ->
            set_loading false (set_loading true st0)
            = set_currentPage (currentPage st0)
                (set_fresh (fresh st0 + length (@nil card))
                   (set_cards (cards st0 ++ []) st0))).
  { intros st0 H0. rewrite app_nil_r. simpl. rewrite Nat.add_0_r.
    destruct st0; simpl in *; subst; reflexivity. }
  assert (Hempty :
            page_posts data = [] ->
            fetchPosts data h st = set_loading false (set_loading true st) ->
            exists new advance,
              fetchPosts data h st
              = set_currentPage (if advance : bool then currentPage st + 1
                                 else currentPage st)
                  (set_fresh (fresh st + length new)
                     (set_cards (cards st ++ new) st))
              /\ Forall (fun c => panel c = None /\ outsideTapHandler c = None)
                   new
              /\ (Forall (fun p => passes p = true) (page_posts data) ->
                  advance = negb (length (page_posts data) =? 0)%nat
                  /\ map post new
                     = List.filter (fun p => negb (swf_post p))
                         (page_posts data))
              /\ (forall good bad rest,
                    page_posts data = good ++ bad :: rest ->
                    Forall (fun p => passes p = true) good ->
                    passes bad = false ->
                    advance = false
                    /\ map post new
                       = List.filter (fun p => negb (swf_post p)) good)).
  { intros Hp Hf. exists [], false. rewrite Hf, Hp.
    split; [apply Hnone; exact Hl|]. split; [constructor|].
    split; [auto|]. intros [|] ? ? H; discriminate. }
  unfold Feed.fetchPosts in *. rewrite Hl in *.
  destruct data as [d|e]; [|apply Hempty; reflexivity].
  pose proof (page_posts_or d) as Hpp.
  destruct (Js.or (opt_get (Some d) "posts") (Some (JArr [])))
    as [[| | | |[|p ps]|]|]; try (apply Hempty; [exact Hpp|reflexivity]).
  rewrite Hpp. clear Hempty.
  destruct (render_posts_run h (p :: ps) (set_loading true st))
    as (new & H1 & H2 & H3 & H4).
  destruct (Feed.render_posts js_minus h (p :: ps) (set_loading true st))
    as [st' [e|]] eqn:Hr; simpl in H1, H3, H4; subst st'.
  - exists new, false. split; [destruct st; simpl in *; subst; reflexivity|].
    split; [exact H2|]. split.
    + intros Hall. destruct (H3 Hall); discriminate.
    + intros good bad rest Hs Hg Hb. split; [reflexivity|].
      eapply H4; eauto.
  - exists new, true. split; [destruct st; simpl in *; subst; reflexivity|].
    split; [exact H2|]. split.
    + intros Hall. split; [reflexivity|]. apply H3. exact Hall.
    + intros good bad rest Hs Hg Hb. destruct (H4 _ _ _ Hs Hg Hb) as [Hn _].
      congruence.
Qed.

(** X10. A page fetched while no fetch is pending. When every post of the
    page gets through the loop, the feed grows by one card per post that is
    not swf, in page order, and the page counter advances by one unless the
    page is empty. When a post throws, the cards of the posts before it are
    already appended and stay, the posts after it are not rendered, and the
    page counter does not advance: the next fetch asks for the same page
    again. In both cases nothing else of the state changes, and [loading]
    is false afterwards. *)
Theorem fetchPosts_page (data : outcome json) (h : nat -> nat)
    (st : feed_state) :
  loading st = false ->
  let st' := fetchPosts data h st in
  let not_swf := fun p => negb (swf_post p) in
  loading st' = false
  /\ (Forall (fun p => passes p = true) (page_posts data) ->
      exists new,
        st' = set_currentPage
                (if (length (page_posts data) =? 0)%nat then currentPage st
                 else currentPage st + 1)
                (set_fresh (fresh st + length new)
                   (set_cards (cards st ++ new) st))
        /\ map post new = List.filter not_swf (page_posts data))
  /\ (forall good bad rest,
        page_posts data = good ++ bad :: rest ->
        Forall (fun p => passes p = true) good -> passes bad = false ->
        exists new,
          st' = set_fresh (fresh st + length new)
                  (set_cards (cards st ++ new) st)
          /\ map post new = List.filter not_swf good).
Proof.
  intros Hl. cbv zeta.
  destruct (fetchPosts_run data h st Hl) as (new & adv & Hst & _ & H3 & H4).
  rewrite Hst. split; [simpl; exact Hl|]. split.
  - intros Hall. destruct (H3 Hall) as [-> Hm]. exists new.
    split; [|exact Hm].
    destruct (length (page_posts data) =? 0)%nat; reflexivity.
  - intros good bad rest Hs Hg Hb. destruct (H4 _ _ _ Hs Hg Hb) as [-> Hm].
    exists new. split; [destruct st; reflexivity|exact Hm].
Qed.

(** X11. [fetchPosts] under any response. While a fetch is pending it does
    nothing. It never moves the scroll offset, never changes the viewport
    or the listeners, keeps every card of the feed where it is and only
    appends cards without panel and handler after them; the page counter
    stays or advances by one; [loading] has the value it had before. *)
Theorem fetchPosts_frame (data : outcome json) (h : nat -> nat)
    (st : feed_state) :
  let st' := fetchPosts data h st in
  (loading st = true -> st' = st)
  /\ loading st' = loading st
  /\ scrollTop st' = scrollTop st
  /\ clientHeight st' = clientHeight st
  /\ listeners st' = listeners st
  /\ isMobile st' = isMobile st
  /\ (currentPage st' = currentPage st \/ currentPage st' = currentPage st + 1)
  /\ exists new,
       cards st' = cards st ++ new
       /\ (fresh st' = fresh st + length new)%nat
       /\ Forall (fun c => panel c = None /\ outsideTapHandler c = None) new.
Proof.
  cbv zeta. destruct (loading st) eqn:Hl.
  - assert (Hst : fetchPosts data h st = st)
      by (unfold Feed.fetchPosts; rewrite Hl; reflexivity).
    rewrite Hst. repeat split; auto.
    exists []. rewrite app_nil_r. split; [reflexivity|].
    split; [simpl; lia|constructor].
  - destruct (fetchPosts_run data h st Hl) as (new & adv & Hst & H2 & _).
    rewrite Hst. simpl. split; [discriminate|]. repeat split; auto.
    + destruct adv; auto.
    + exists new. auto.
Qed.

End MoreFeedFacts.

(* ===================================================================== *)
(** * The click listeners of the document along a session *)
(* ===================================================================== *)

Section ListenerFacts.

Import Feed.

Variable js_minus : value -> value -> value.

Local Abbreviation fetchPosts := (Feed.fetchPosts js_minus).
Local Abbreviation step := (Feed.step js_minus).
Local Abbreviation run := (Feed.run js_minus).

Lemma handlers_In hd cs :
  In hd (handlers cs) <-> exists c, In c cs /\ outsideTapHandler c = Some hd.
Proof.
  unfold handlers. rewrite in_flat_map. split.
  - intros (c & Hc & Hin). exists c. split; [exact Hc|].
    destruct (outsideTapHandler c); simpl in Hin; [|tauto].
    destruct Hin as [->|[]]. reflexivity.
  - intros (c & Hc & Hhd). exists c. split; [exact Hc|].
    rewrite Hhd. left. reflexivity.
Qed.

Lemma handlers_app l1 l2 : handlers (l1 ++ l2) = handlers l1 ++ handlers l2.
Proof. apply flat_map_app. Qed.

Lemma handlers_none cs :
  Forall (fun c => panel c = None /\ outsideTapHandler c = None) cs ->
  handlers cs = [].
Proof.
  induction 1 as [|c cs [_ Hc] _ IH]; [reflexivity|].
  unfold handlers in *. simpl. rewrite Hc, IH. reflexivity.
Qed.

Lemma handlers_set_height h cs : handlers (map (set_height h) cs) = handlers cs.
Proof. induction cs as [|c cs IH]; simpl; [|rewrite IH]; reflexivity. Qed.

Lemma find_node_split n cs c :
  List.find (fun c => (node c =? n)%nat) cs = Some c ->
  NoDup (map node cs) ->
  exists l1 l2,
    cs = l1 ++ c :: l2 /\ node c = n
    /\ ~ In n (map node l1) /\ ~ In n (map node l2).
Proof.
  induction cs as [|x cs IH]; simpl; [discriminate|].
  intros Hf Hnd. apply NoDup_cons in Hnd. destruct Hnd as [Hx Hnd].
  destruct (Nat.eqb_spec (node x) n) as [Heq|Hne].
  - inversion Hf; subst x. exists [], cs. split; [reflexivity|].
    split; [exact Heq|]. split; [intros []|].
    rewrite <- Heq. intros Hin. apply Hx, list_elem_of_In. exact Hin.
  - destruct (IH Hf Hnd) as (l1 & l2 & -> & Hn & H1 & H2).
    exists (x :: l1), l2. split; [reflexivity|]. split; [exact Hn|].
    split; [|exact H2]. simpl. intros [H|H]; [congruence|tauto].
Qed.

Lemma update_card_notin n f cs :
  ~ In n (map node cs) -> update_card n f cs = cs.
Proof.
  induction cs as [|x cs IH]; simpl; intros H; [reflexivity|].
  destruct (Nat.eqb_spec (node x) n) as [Heq|Hne]; [tauto|].
  f_equal. apply IH. tauto.
Qed.

Lemma update_card_at n f l1 c l2 :
  node c = n -> ~ In n (map node l1) -> ~ In n (map node l2) ->
  update_card n f (l1 ++ c :: l2) = l1 ++ f c :: l2.
Proof.
  intros Hn H1 H2. unfold update_card. rewrite map_app. simpl.
  fold (update_card n f l1). fold (update_card n f l2).
  rewrite !update_card_notin by assumption.
  rewrite <- Hn, Nat.eqb_refl. reflexivity.
Qed.

Lemma removeEventListener_NoDup hd ls :
  NoDup ls -> NoDup (removeEventListener hd ls).
Proof.
  intros H. apply NoDup_ListNoDup, List.NoDup_filter, NoDup_ListNoDup, H.
Qed.

Lemma removeEventListener_notin hd ls :
  ~ In hd ls -> removeEventListener hd ls = ls.
Proof.
  induction ls as [|x ls IH]; simpl; intros H; [reflexivity|].
  destruct (Nat.eqb_spec x hd) as [Heq|Hne]; [tauto|]. simpl.
  f_equal. apply IH. tauto.
Qed.

Lemma removeEventListener_last hd ls :
  ~ In hd ls -> removeEventListener hd (ls ++ [hd]) = ls.
Proof.
  intros H. unfold removeEventListener. rewrite List.filter_app. simpl.
  rewrite Nat.eqb_refl. simpl. rewrite app_nil_r.
  apply removeEventListener_notin. exact H.
Qed.

Lemma unregister_NoDup removed ls : NoDup ls -> NoDup (unregister removed ls).
Proof.
  revert ls. induction removed as [|c removed IH]; simpl; intros ls H; auto.
  apply IH. destruct (outsideTapHandler c); auto.
  apply removeEventListener_NoDup. exact H.
Qed.

(** The listeners a prune leaves are those whose closure no removed card
    above the window holds. *)
Lemma unregister_spec removed ls x :
  In x (unregister removed ls) <-> In x ls /\ ~ In x (handlers removed).
Proof.
  revert ls. induction removed as [|c removed IH]; simpl; intros ls.
  - tauto.
  - rewrite IH. unfold handlers. simpl. fold (handlers removed).
    destruct (outsideTapHandler c) as [hd|]; simpl.
    + rewrite removeEventListener_In. intuition congruence.
    + tauto.
Qed.

Lemma isMobile_pruneAroundCurrent st :
  isMobile (pruneAroundCurrent st) = isMobile st.
Proof.
  unfold pruneAroundCurrent. cbv zeta.
  destruct (length (getCards st) =? 0)%nat; [reflexivity|].
  destruct (fold_left _ _ _) as [[dom ls] r].
  destruct (r >? 0); reflexivity.
Qed.

(** ** The invariant is kept by every step *)

Lemma listeners_ok_boot mobile viewport : listeners_ok (boot mobile viewport).
Proof.
  unfold listeners_ok. simpl. repeat split; constructor.
Qed.

Lemma listeners_ok_append st new (st' : feed_state) :
  listeners_ok st ->
  cards st' = cards st ++ new -> (fresh st <= fresh st')%nat ->
  listeners st' = listeners st -> isMobile st' = isMobile st ->
  Forall (fun c => panel c = None /\ outsideTapHandler c = None) new ->
  listeners_ok st'.
Proof.
  intros (H1 & H2 & H3 & H4 & H5) Hc Hf Hl Hm Hnew.
  unfold listeners_ok. rewrite Hc, Hl, Hm, handlers_app.
  rewrite (handlers_none new Hnew), app_nil_r.
  split; [exact H1|]. split.
  { eapply List.Forall_impl; [|exact H2]. simpl. intros; lia. }
  split; [exact H3|]. split; [|exact H5].
  apply List.Forall_app. split; [exact H4|].
  eapply List.Forall_impl; [|exact Hnew]. simpl.
  intros c [_ Hnone] hd Hhd. congruence.
Qed.

Lemma listeners_ok_fetchPosts data h st :
  listeners_ok st -> listeners_ok (fetchPosts data h st).
Proof.
  intros Hok. destruct (loading st) eqn:Hl.
  - unfold Feed.fetchPosts. rewrite Hl. exact Hok.
  - destruct (fetchPosts_run js_minus data h st Hl)
      as (new & adv & Hst & Hnew & _).
    eapply (listeners_ok_append st new); eauto; rewrite Hst; simpl; auto; lia.
Qed.

Lemma listeners_ok_relayout h st :
  listeners_ok st ->
  listeners_ok (set_cards (map (set_height h) (cards st)) st).
Proof.
  intros (H1 & H2 & H3 & H4 & H5). unfold listeners_ok. simpl.
  rewrite handlers_set_height. repeat split; auto; try (apply H5; auto).
  rewrite List.Forall_map. eapply List.Forall_impl; [|exact H4].
  simpl. auto.
Qed.

Lemma listeners_ok_prune st :
  wf st -> listeners_ok st -> listeners_ok (pruneAroundCurrent st).
Proof.
  intros [Hnd _] (H1 & H2 & H3 & H4 & H5).
  destruct (prune_shape st Hnd) as (Hc & Hl & _ & Hf & _).
  unfold listeners_ok.
  rewrite Hc, Hl, Hf, isMobile_pruneAroundCurrent.
  rewrite (cards_split st), !handlers_app in H3.
  rewrite (cards_split st), !List.Forall_app in H4.
  destruct H4 as (_ & H4 & _).
  apply NoDup_app in H3. destruct H3 as (_ & Hdis & H3).
  apply NoDup_app in H3. destruct H3 as (H3 & _ & _).
  split; [apply unregister_NoDup; exact H1|]. split.
  { rewrite List.Forall_forall in *. intros x Hx. apply H2.
    eapply unregister_In; eauto. }
  split; [exact H3|]. split.
  { rewrite List.Forall_forall in *. intros c Hin hd Hhd.
    destruct (H4 c Hin hd Hhd) as [Hreg Hopen]. split; [|exact Hopen].
    apply unregister_spec. split; [exact Hreg|]. intros Habove.
    apply (Hdis hd); [apply list_elem_of_In; exact Habove|].
    apply list_elem_of_In, in_or_app. left.
    apply handlers_In. eauto. }
  intros Hm. destruct (H5 Hm) as [Hls Hhs]. split.
  - destruct (unregister (above st) (listeners st)) as [|x l] eqn:E; auto.
    assert (Hin : In x (listeners st)).
    { eapply unregister_In. rewrite E. left. reflexivity. }
    rewrite Hls in Hin. destruct Hin.
  - rewrite (cards_split st), !handlers_app in Hhs.
    apply app_eq_nil in Hhs. destruct Hhs as [_ Hhs].
    apply app_eq_nil in Hhs. tauto.
Qed.

Lemma listeners_ok_toggleComments n st :
  wf st -> listeners_ok st -> listeners_ok (toggleComments n st).
Proof.
  intros [Hnd _] (H1 & H2 & H3 & H4 & H5). unfold toggleComments.
  destruct (List.find _ (cards st)) as [c|] eqn:Hfind;
    [|repeat split; auto; apply H5; auto].
  destruct (find_node_split _ _ _ Hfind Hnd) as (l1 & l2 & Hcs & Hn & Hl1 & Hl2).
  assert (Hupd : forall f, update_card n f (cards st) = l1 ++ f c :: l2)
    by (intros f; rewrite Hcs; apply update_card_at; assumption).
  rewrite Hcs in H3, H4.
  rewrite handlers_app in H3. unfold handlers in H3. simpl in H3.
  fold (handlers l1) in H3. fold (handlers l2) in H3.
  apply List.Forall_app in H4. destruct H4 as [H41 H4].
  apply List.Forall_cons_iff in H4. destruct H4 as [H4c H42].
  assert (Hh : forall f, handlers (l1 ++ f c :: l2)
                         = handlers l1
                           ++ match outsideTapHandler (f c) with
                              | Some hd => [hd]
                              | None => []
                              end ++ handlers l2).
  { intros f. rewrite handlers_app. reflexivity. }
  assert (Hdrop : NoDup (handlers l1 ++ handlers l2)).
  { destruct (outsideTapHandler c); simpl in H3; auto.
    apply NoDup_app in H3. destruct H3 as (A & B & C).
    apply NoDup_cons in C. destruct C as [C D].
    apply NoDup_app. split; [exact A|]. split; [|exact D].
    intros x Hx Hx2. apply (B x Hx). right. exact Hx2. }
  assert (Hmob : isMobile st = false ->
                 handlers l1 = [] /\ handlers l2 = []
                 /\ outsideTapHandler c = None).
  { intros Hm. destruct (H5 Hm) as [_ Hhs]. rewrite Hcs, handlers_app in Hhs.
    apply app_eq_nil in Hhs. destruct Hhs as [Ha Hb].
    unfold handlers in Hb. simpl in Hb. fold (handlers l2) in Hb.
    destruct (outsideTapHandler c); [discriminate|]. auto. }
  assert (Hclosed : panel c <> Some true -> outsideTapHandler c = None).
  { intros Hp. destruct (outsideTapHandler c) as [hd|] eqn:Hhd; auto.
    destruct (H4c hd eq_refl). congruence. }
  assert (Hopen :
    panel c <> Some true ->
    listeners_ok
      (if isMobile st then
         set_fresh (S (fresh st))
           (set_listeners (listeners st ++ [fresh st])
              (set_cards
                 (update_card n (set_panel true (Some (fresh st))) (cards st))
                 st))
       else
         set_cards
           (update_card n (set_panel true (outsideTapHandler c)) (cards st))
           st)).
  { intros Hp. specialize (Hclosed Hp).
    assert (Hfresh : ~ In (fresh st) (listeners st)).
    { intros Hin. rewrite List.Forall_forall in H2.
      specialize (H2 _ Hin). lia. }
    destruct (isMobile st) eqn:Hm; unfold listeners_ok; simpl;
      rewrite Hupd, Hh; simpl.
    - split.
      { apply NoDup_app. split; [exact H1|]. split; [|apply NoDup_singleton].
        intros x Hx Hx2. apply list_elem_of_In in Hx, Hx2.
        destruct Hx2 as [<-|[]]. tauto. }
      split.
      { apply List.Forall_app. split.
        - eapply List.Forall_impl; [|exact H2]. simpl. intros; lia.
        - constructor; [lia|constructor]. }
      split.
      { apply NoDup_app. apply NoDup_app in Hdrop.
        destruct Hdrop as (A & B & C).
        assert (Hold : forall x, In x (handlers l1) \/ In x (handlers l2) ->
                                 In x (listeners st)).
        { intros x Hx. rewrite List.Forall_forall in H41, H42.
          destruct Hx as [Hx|Hx]; apply handlers_In in Hx;
            destruct Hx as (c' & Hc' & Hhd');
            [apply (H41 c' Hc' x Hhd')|apply (H42 c' Hc' x Hhd')]. }
        split; [exact A|]. split.
        - intros x Hx Hx2. apply list_elem_of_In in Hx.
          apply elem_of_cons in Hx2. destruct Hx2 as [->|Hx2].
          + apply Hfresh, Hold. auto.
          + apply (B x); [apply list_elem_of_In; exact Hx|exact Hx2].
        - apply NoDup_cons. split; [|exact C].
          intros Hx. apply Hfresh, Hold. right.
          apply list_elem_of_In. exact Hx. }
      split; [|rewrite Hm; discriminate].
      apply List.Forall_app. split.
      { eapply List.Forall_impl; [|exact H41]. simpl.
        intros c' Hc' hd Hhd. destruct (Hc' hd Hhd).
        split; [apply in_or_app; auto|assumption]. }
      constructor.
      { simpl. intros hd Hhd. inversion Hhd; subst.
        split; [apply in_or_app; right; left; reflexivity|reflexivity]. }
      eapply List.Forall_impl; [|exact H42]. simpl.
      intros c' Hc' hd Hhd. destruct (Hc' hd Hhd).
      split; [apply in_or_app; auto|assumption].
    - rewrite Hclosed. simpl.
      split; [exact H1|]. split; [exact H2|]. split; [exact Hdrop|].
      split.
      { apply List.Forall_app. split; [exact H41|].
        constructor; [simpl; intros hd Hhd; congruence|exact H42]. }
      intros _. destruct (H5 eq_refl) as [Hls _].
      destruct (Hmob eq_refl) as (-> & -> & _). auto. }
  assert (Hclose :
    forall ls,
      (ls = listeners st \/ exists hd, outsideTapHandler c = Some hd
                                      /\ ls = removeEventListener hd (listeners st)) ->
      (outsideTapHandler c = None -> ls = listeners st) ->
      listeners_ok
        (set_listeners ls
           (set_cards (update_card n (set_panel false None) (cards st)) st))).
  { intros ls Hls Hnone. unfold listeners_ok. simpl. rewrite Hupd, Hh. simpl.
    assert (Hsub : forall x, In x ls -> In x (listeners st)).
    { intros x Hx. destruct Hls as [->|(hd & _ & ->)]; auto.
      apply removeEventListener_In in Hx. tauto. }
    split.
    { destruct Hls as [->|(hd & _ & ->)]; auto.
      apply removeEventListener_NoDup. exact H1. }
    split.
    { rewrite List.Forall_forall in *. intros x Hx. apply H2, Hsub, Hx. }
    split; [exact Hdrop|].
    assert (Hother : forall c' hd, outsideTapHandler c' = Some hd ->
              In hd (handlers l1) \/ In hd (handlers l2) ->
              In hd (listeners st) -> In hd ls).
    { intros c' hd Hhd Hin Hreg.
      destruct Hls as [->|(hd0 & Hhd0 & ->)]; auto.
      apply removeEventListener_In. split; [exact Hreg|].
      intros ->. rewrite Hhd0 in H3. simpl in H3.
      apply NoDup_app in H3. destruct H3 as (A & B & C).
      apply NoDup_cons in C. destruct C as [C D].
      destruct Hin as [Hin|Hin].
      - apply (B hd0); [apply list_elem_of_In; exact Hin|left].
      - apply C, list_elem_of_In. exact Hin. }
    split.
    { apply List.Forall_app. split.
      - rewrite List.Forall_forall in *. intros c' Hc' hd Hhd.
        destruct (H41 c' Hc' hd Hhd) as [Hreg Hp]. split; [|exact Hp].
        apply (Hother c' hd Hhd); auto. left. apply handlers_In. eauto.
      - constructor; [simpl; intros hd Hhd; discriminate|].
        rewrite List.Forall_forall in *. intros c' Hc' hd Hhd.
        destruct (H42 c' Hc' hd Hhd) as [Hreg Hp]. split; [|exact Hp].
        apply (Hother c' hd Hhd); auto. right. apply handlers_In. eauto. }
    intros Hm. destruct (H5 Hm) as [Hl0 _].
    destruct (Hmob Hm) as (-> & -> & Hc0). rewrite (Hnone Hc0). auto. }
  destruct (panel c) as [[|]|] eqn:Hp.
  - destruct (outsideTapHandler c) as [hd|] eqn:Hhd.
    + apply Hclose; [right; eauto|discriminate].
    + specialize (Hclose (listeners st) (or_introl eq_refl) (fun _ => eq_refl)).
      pose proof (set_listeners_same
                    (set_cards (update_card n (set_panel false None) (cards st))
                       st)) as E.
      simpl in E. rewrite E in Hclose. exact Hclose.
  - apply Hopen. discriminate.
  - apply Hopen. discriminate.
Qed.

Lemma listeners_ok_step st ev :
  wf st -> listeners_ok st -> listeners_ok (step st ev).
Proof.
  intros Hwf Hok. destruct ev as [data h|top|viewport|h|n|]; simpl.
  - apply listeners_ok_fetchPosts. exact Hok.
  - exact Hok.
  - exact Hok.
  - apply listeners_ok_relayout. exact Hok.
  - apply listeners_ok_toggleComments; assumption.
  - apply listeners_ok_prune; assumption.
Qed.

Lemma listeners_ok_run mobile viewport evs :
  listeners_ok (run (boot mobile viewport) evs).
Proof.
  induction evs as [|ev evs IH] using rev_ind; [apply listeners_ok_boot|].
  rewrite run_snoc. apply listeners_ok_step; [apply wf_run|exact IH].
Qed.

Lemma isMobile_toggleComments n st :
  isMobile (toggleComments n st) = isMobile st.
Proof.
  unfold toggleComments.
  destruct (List.find _ (cards st)) as [c|]; [|reflexivity].
  destruct (panel c) as [[|]|]; [destruct (outsideTapHandler c)| |];
    try destruct (isMobile st) eqn:E; simpl; auto.
Qed.

Lemma isMobile_run mobile viewport evs :
  isMobile (run (boot mobile viewport) evs) = mobile.
Proof.
  induction evs as [|ev evs IH] using rev_ind; [reflexivity|].
  rewrite run_snoc. rewrite <- IH at 2.
  destruct ev as [data h|top|viewport'|h|n|]; simpl; auto.
  - destruct (loading (run (boot mobile viewport) evs)) eqn:Hl.
    + unfold Feed.fetchPosts. rewrite Hl. reflexivity.
    + destruct (fetchPosts_run js_minus data h _ Hl) as (new & adv & -> & _).
      reflexivity.
  - apply isMobile_toggleComments.
  - apply isMobile_pruneAroundCurrent.
Qed.

Lemma handlers_owner cs c c' hd :
  NoDup (handlers cs) -> In c cs -> In c' cs ->
  outsideTapHandler c = Some hd -> outsideTapHandler c' = Some hd ->
  NoDup (map node cs) -> node c = node c'.
Proof.
  induction cs as [|x cs IH]; [intros _ []|].
  intros Hnd Hc Hc' Hhd Hhd' Hnodes.
  change (handlers (x :: cs))
    with (match outsideTapHandler x with Some h => [h] | None => [] end
          ++ handlers cs) in Hnd.
  assert (Htail : NoDup (handlers cs)).
  { apply NoDup_app in Hnd. tauto. }
  assert (Hhead : outsideTapHandler x = Some hd -> ~ In hd (handlers cs)).
  { intros Hx Hin. rewrite Hx in Hnd. simpl in Hnd.
    apply NoDup_cons in Hnd. apply (proj1 Hnd), list_elem_of_In, Hin. }
  simpl in Hnodes. apply NoDup_cons in Hnodes.
  destruct Hc as [<-|Hc], Hc' as [<-|Hc']; auto.
  - exfalso. apply (Hhead Hhd), handlers_In. eauto.
  - exfalso. apply (Hhead Hhd'), handlers_In. eauto.
  - apply IH; tauto.
Qed.

(** X12. Along a session [isMobile] keeps the value it got at boot; the
    click listeners registered on the document are distinct; off a phone
    none is ever registered and no card holds a handler. A card of the feed
    that holds a handler has it registered, has its comments panel open,
    and is the only card of the feed holding that handler. *)
Theorem session_listeners (mobile : bool) (viewport : Z) (evs : list event) :
  let st := run (boot mobile viewport) evs in
  isMobile st = mobile
  /\ NoDup (listeners st)
  /\ (mobile = false ->
      listeners st = []
      /\ Forall (fun c => outsideTapHandler c = None) (cards st))
  /\ forall c hd,
       In c (cards st) -> outsideTapHandler c = Some hd ->
       In hd (listeners st)
       /\ panel c = Some true
       /\ forall c', In c' (cards st) -> outsideTapHandler c' = Some hd ->
                     node c' = node c.
Proof.
  cbv zeta. set (st := run (boot mobile viewport) evs).
  pose proof (listeners_ok_run mobile viewport evs) as (H1 & H2 & H3 & H4 & H5).
  pose proof (wf_run js_minus mobile viewport evs) as [Hnd _].
  pose proof (isMobile_run mobile viewport evs) as Hm.
  fold st in H1, H2, H3, H4, H5, Hnd, Hm.
  split; [exact Hm|]. split; [exact H1|]. split.
  - intros ->. destruct (H5 Hm) as [Hls Hhs]. split; [exact Hls|].
    rewrite List.Forall_forall. intros c Hc.
    destruct (outsideTapHandler c) as [hd|] eqn:Hhd; [|reflexivity].
    assert (Hin : In hd (handlers (cards st))) by (apply handlers_In; eauto).
    rewrite Hhs in Hin. destruct Hin.
  - intros c hd Hc Hhd. rewrite List.Forall_forall in H4.
    destruct (H4 c Hc hd Hhd) as [Hreg Hopen].
    split; [exact Hreg|]. split; [exact Hopen|].
    intros c' Hc' Hhd'. eapply handlers_owner; eauto.
Qed.

Lemma find_node_In cs c :
  NoDup (map node cs) -> In c cs ->
  List.find (fun x => (node x =? node c)%nat) cs = Some c.
Proof.
  induction cs as [|x cs IH]; [intros _ []|].
  simpl. intros Hnd Hin. apply NoDup_cons in Hnd. destruct Hnd as [Hx Hnd].
  destruct (Nat.eqb_spec (node x) (node c)) as [Heq|Hne].
  - destruct Hin as [->|Hin]; [reflexivity|].
    exfalso. apply Hx. rewrite Heq. apply list_elem_of_In, List.in_map, Hin.
  - destruct Hin as [->|Hin]; [congruence|]. apply IH; assumption.
Qed.

Lemma find_node_at n l1 c l2 :
  node c = n -> ~ In n (map node l1) ->
  List.find (fun x => (node x =? n)%nat) (l1 ++ c :: l2) = Some c.
Proof.
  intros Hn. induction l1 as [|x l1 IH]; simpl; intros H1.
  - rewrite Hn, Nat.eqb_refl. reflexivity.
  - destruct (Nat.eqb_spec (node x) n) as [Heq|Hne]; [tauto|].
    apply IH. tauto.
Qed.

(** X13. In a session, tapping the comments button of a card of the feed
    whose panel is not open opens the panel and, on a phone only, registers
    one new listener held by that card; tapping it again closes the panel
    and unregisters that listener: the listeners are those of before, and
    the feed differs from the one before only in that the card now has a
    closed panel and no handler. *)
Theorem toggleComments_twice (mobile : bool) (viewport : Z)
    (evs : list event) (c : card) :
  let st := run (boot mobile viewport) evs in
  let st1 := toggleComments (node c) st in
  let st2 := toggleComments (node c) st1 in
  In c (cards st) -> panel c <> Some true ->
  cards st1
  = update_card (node c)
      (set_panel true (if mobile then Some (fresh st) else None)) (cards st)
  /\ listeners st1 = listeners st ++ (if mobile then [fresh st] else [])
  /\ st2 = set_fresh (fresh st1)
             (set_cards (update_card (node c) (set_panel false None) (cards st))
                st).
Proof.
  cbv zeta. set (st := run (boot mobile viewport) evs). intros Hc Hp.
  pose proof (listeners_ok_run mobile viewport evs) as (H1 & H2 & H3 & H4 & H5).
  pose proof (wf_run js_minus mobile viewport evs) as [Hnd _].
  pose proof (isMobile_run mobile viewport evs) as Hm.
  fold st in H1, H2, H3, H4, H5, Hnd, Hm.
  pose proof (find_node_In _ _ Hnd Hc) as Hfind.
  destruct (find_node_split _ _ _ Hfind Hnd) as (l1 & l2 & Hcs & _ & Hl1 & Hl2).
  assert (Hupd : forall f, update_card (node c) f (cards st) = l1 ++ f c :: l2)
    by (intros f; rewrite Hcs; apply update_card_at; auto).
  assert (Hnone : outsideTapHandler c = None).
  { destruct (outsideTapHandler c) as [hd|] eqn:Hhd; auto.
    rewrite List.Forall_forall in H4. destruct (H4 c Hc hd Hhd). congruence. }
  assert (Hfresh : ~ In (fresh st) (listeners st)).
  { intros Hin. rewrite List.Forall_forall in H2. specialize (H2 _ Hin). lia. }
  assert (Hst1 :
    toggleComments (node c) st
    = if mobile then
        set_fresh (S (fresh st))
          (set_listeners (listeners st ++ [fresh st])
             (set_cards
                (update_card (node c) (set_panel true (Some (fresh st)))
                   (cards st)) st))
      else
        set_cards (update_card (node c) (set_panel true None) (cards st)) st).
  { unfold toggleComments. rewrite Hfind, Hm, Hnone.
    destruct (panel c) as [[|]|]; [congruence| |]; reflexivity. }
  rewrite Hst1. split; [destruct mobile; reflexivity|].
  split; [destruct mobile; simpl; rewrite ?app_nil_r; reflexivity|].
  unfold toggleComments.
  destruct mobile; simpl; rewrite !Hupd;
    rewrite find_node_at by auto; simpl;
    rewrite update_card_at by auto; simpl.
  - rewrite removeEventListener_last by exact Hfresh. reflexivity.
  - reflexivity.
Qed.

(** X14. In a session the listeners registered after a prune are exactly
    those registered before whose closure no card removed above the window
    holds. The handler of a card removed below the window therefore stays
    registered on the document, and no card left in the feed holds it. *)
Theorem prune_listeners (mobile : bool) (viewport : Z) (evs : list event) :
  let st := run (boot mobile viewport) evs in
  let st' := pruneAroundCurrent st in
  (forall x, In x (listeners st')
             <-> In x (listeners st) /\ ~ In x (handlers (above st)))
  /\ (forall c hd,
        In c (below st) -> outsideTapHandler c = Some hd ->
        In hd (listeners st') /\ ~ In hd (handlers (cards st'))).
Proof.
  cbv zeta. set (st := run (boot mobile viewport) evs).
  pose proof (listeners_ok_run mobile viewport evs) as (H1 & H2 & H3 & H4 & H5).
  pose proof (wf_run js_minus mobile viewport evs) as [Hnd _].
  fold st in H1, H2, H3, H4, H5, Hnd.
  destruct (prune_shape st Hnd) as (Hc & Hl & _). rewrite Hc, Hl.
  split; [intros x; apply unregister_spec|].
  intros c hd Hin Hhd.
  assert (Hb : In hd (handlers (below st))) by (apply handlers_In; eauto).
  rewrite (cards_split st), !handlers_app in H3.
  apply NoDup_app in H3. destruct H3 as (_ & Hdis1 & H3).
  apply NoDup_app in H3. destruct H3 as (_ & Hdis2 & _).
  assert (Habove : ~ In hd (handlers (above st))).
  { intros Ha. apply (Hdis1 hd); [apply list_elem_of_In; exact Ha|].
    apply list_elem_of_In, in_or_app. right. exact Hb. }
  split.
  - apply unregister_spec. split; [|exact Habove].
    rewrite List.Forall_forall in H4. apply (H4 c); [|exact Hhd].
    rewrite (cards_split st). apply in_or_app. right.
    apply in_or_app. right. exact Hin.
  - intros Hk. apply (Hdis2 hd); apply list_elem_of_In; assumption.
Qed.

End ListenerFacts.

(* ===================================================================== *)
(** * The current card across a prune and across a gesture *)
(* ===================================================================== *)

Section CurrentFacts.

Import Feed.

Variable js_minus : value -> value -> value.

Local Abbreviation run := (Feed.run js_minus).

Lemma combine_seq_nth {A} (l : list A) k i x :
  In (i, x) (combine (seq k (length l)) l)
  <-> (k <= i)%nat /\ nth_error l (i - k) = Some x.
Proof.
  revert k. induction l as [|a l IH]; intros k; simpl.
  - split; [intros []|]. intros [_ H]. destruct (i - k)%nat; discriminate.
  - rewrite IH. split.
    + intros [H|[Hk H]].
      * inversion H; subst. rewrite Nat.sub_diag. auto.
      * split; [lia|]. replace (i - k)%nat with (S (i - S k)) by lia.
        exact H.
    + intros [Hk H]. destruct (i - k)%nat as [|m] eqn:E.
      * left. inversion H; subst. f_equal. lia.
      * right. split; [lia|]. replace (i - S k)%nat with m by lia. exact H.
Qed.

Lemma indexed_nth {A} (l : list A) i x :
  In (i, x) (indexed l) <-> nth_error l i = Some x.
Proof.
  unfold indexed. rewrite combine_seq_nth, Nat.sub_0_r.
  split; [tauto|]. split; [lia|assumption].
Qed.

Lemma indexed_middle {A} (a b c : list A) j x :
  In (j, x) (indexed b) -> In ((length a + j)%nat, x) (indexed (a ++ b ++ c)).
Proof.
  rewrite !indexed_nth. intros H.
  rewrite nth_error_app2 by lia.
  replace (length a + j - length a)%nat with j by lia.
  rewrite nth_error_app1; [exact H|].
  apply nth_error_Some. congruence.
Qed.

(** Distances to the centre of the viewport do not change when the cards
    before a run of cards go and the scroll offset is decreased by their
    height. *)
Lemma entry_dist_shift before window after top viewport j c :
  (j <= length window)%nat ->
  (entry_dist window
     (inject_Z (top - heights before) + inject_Z viewport / 2) (j, c)
   == entry_dist (before ++ window ++ after)
        (inject_Z top + inject_Z viewport / 2) ((length before + j)%nat, c))%Q.
Proof.
  intros Hj. unfold entry_dist. cbn [fst snd].
  rewrite offsetTop_shift by exact Hj.
  apply Qabs_wd. unfold Z.sub.
  rewrite !inject_Z_plus, inject_Z_opp. ring.
Qed.

Lemma current_after_prune_gen st :
  NoDup (map node (cards st)) ->
  heights (above st) <= scrollTop st ->
  scrollTop st <= Z.max 0 (heights (kept st) - clientHeight st) ->
  getCurrentIndexInFeed (pruneAroundCurrent st)
  = (getCurrentIndexInFeed st - length (above st))%nat.
Proof.
  intros Hnd Hle Hroom. destruct (cards_empty_dec st) as [E|Hne].
  { rewrite pruneAroundCurrent_empty by exact E.
    unfold above. rewrite E, take_nil. simpl. lia. }
  destruct (prune_shape st Hnd) as (Hc & _ & Hs & _ & _ & Hv).
  destruct (kept_around st Hne) as (before & c & after & Hk & Hcur & Hb & Ha).
  destruct (window_nat st Hne) as (Hmin & _).
  assert (Hm : length (above st) = (getCurrentIndexInFeed st - 10)%nat).
  { unfold above. rewrite length_take, Hmin.
    pose proof (getCurrentIndexInFeed_lt st Hne). lia. }
  assert (Htop : scrollTop (pruneAroundCurrent st)
                 = scrollTop st - heights (above st)).
  { rewrite Hs, (scrollTop_after_within _ _ Hroom).
    pose proof (heights_nonneg (above st)).
    destruct (Z.gtb_spec (heights (above st)) 0); lia. }
  destruct (first_nearest st Hne) as (c0 & Hc0 & Hnear).
  assert (c0 = c).
  { apply indexed_nth in Hc0. congruence. }
  subst c0.
  apply (current_unique _ _ c).
  - rewrite Hc. apply indexed_nth. rewrite Hk.
    rewrite nth_error_app2 by lia.
    replace (getCurrentIndexInFeed st - length (above st) - length before)%nat
      with 0%nat by lia. reflexivity.
  - intros j c' Hin. rewrite Hc in Hin.
    assert (Hj : (j < length (kept st))%nat).
    { apply indexed_nth in Hin. apply nth_error_Some. congruence. }
    pose proof (indexed_middle (above st) (kept st) (below st) j c' Hin) as Hin'.
    rewrite <- (cards_split st) in Hin'.
    destruct (Hnear _ _ Hin') as [Hle1 Hlt1].
    unfold viewport_mid in *. rewrite Hc, Htop, Hv.
    assert (Hidx : (getCurrentIndexInFeed st - length (above st)
                    <= length (kept st))%nat).
    { rewrite Hk, length_app. simpl. lia. }
    rewrite (entry_dist_shift (above st) (kept st) (below st) _ _ _ c Hidx).
    rewrite (entry_dist_shift (above st) (kept st) (below st) _ _ j c')
      by lia.
    rewrite <- (cards_split st).
    replace (length (above st)
             + (getCurrentIndexInFeed st - length (above st)))%nat
      with (getCurrentIndexInFeed st) by lia.
    split; [exact Hle1|]. intros Hlt. apply Hlt1. lia.
Qed.

(** X15. In a session, when the scroll offset is at least the height
    removed above the window and is within what the cards kept leave to
    scroll, the card that is current before a prune is the current card
    after it; pruning again changes nothing; and a preload is due after the
    prune exactly when it was due before. *)
Theorem prune_keeps_current (mobile : bool) (viewport : Z)
    (evs : list event) :
  let st := run (boot mobile viewport) evs in
  let st' := pruneAroundCurrent st in
  heights (above st) <= scrollTop st ->
  scrollTop st <= Z.max 0 (heights (cards st') - clientHeight st) ->
  getCurrentIndexInFeed st'
  = (getCurrentIndexInFeed st - length (above st))%nat
  /\ nth_error (cards st') (getCurrentIndexInFeed st')
     = nth_error (cards st) (getCurrentIndexInFeed st)
  /\ pruneAroundCurrent st' = st'
  /\ ensurePreload st' = ensurePreload st.
Proof.
  cbv zeta. set (st := run (boot mobile viewport) evs). intros Hle Hroom.
  pose proof (wf_run js_minus mobile viewport evs) as Hwf. fold st in Hwf.
  pose proof Hwf as [Hnd _].
  assert (Hroom' : scrollTop st
                   <= Z.max 0 (heights (kept st) - clientHeight st)).
  { destruct (prune_shape st Hnd) as (Hc & _). rewrite <- Hc. exact Hroom. }
  pose proof (current_after_prune_gen st Hnd Hle Hroom') as Hcur.
  destruct (cards_empty_dec st) as [E|Hne].
  { rewrite pruneAroundCurrent_empty by exact E.
    rewrite pruneAroundCurrent_empty by exact E.
    repeat split; auto. unfold above. rewrite E, take_nil. simpl. lia. }
  destruct (prune_shape st Hnd) as (Hc & _).
  destruct (kept_around st Hne) as (before & c & after & Hk & Hc0 & Hb & Ha).
  destruct (window_nat st Hne) as (Hmin & _).
  pose proof (getCurrentIndexInFeed_lt st Hne) as Hlt.
  assert (Hm : length (above st) = (getCurrentIndexInFeed st - 10)%nat).
  { unfold above. rewrite length_take, Hmin. lia. }
  split; [exact Hcur|]. split.
  { rewrite Hcur, Hc, Hk, Hc0. rewrite nth_error_app2 by lia.
    replace (getCurrentIndexInFeed st - length (above st) - length before)%nat
      with 0%nat by lia. reflexivity. }
  split.
  { apply prune_fixed_iff; [apply wf_prune, Hwf|].
    rewrite Hcur, Hc, Hk, length_app. simpl. lia. }
  unfold ensurePreload, getCards. cbv zeta.
  rewrite Hcur, Hc, Hk, length_app. simpl length.
  unfold PRELOAD_AHEAD.
  destruct (Z.ltb_spec (Z.of_nat (length before + S (length after))
                        - Z.of_nat (getCurrentIndexInFeed st - length (above st))
                        - 1) 5);
    destruct (Z.ltb_spec (Z.of_nat (length (cards st))
                          - Z.of_nat (getCurrentIndexInFeed st) - 1) 5);
    try reflexivity; lia.
Qed.

(** ** Landing on a card *)

Lemma heights_take_le (cs : list card) i j :
  (i <= j)%nat -> heights (take i cs) <= heights (take j cs).
Proof.
  intros Hij. replace j with (i + (j - i))%nat by lia.
  rewrite <- (take_drop i cs) at 2.
  destruct (Nat.le_gt_cases (length cs) i) as [Hlen|Hlen].
  - rewrite (take_ge cs i) by lia. rewrite drop_ge by lia.
    rewrite app_nil_r. rewrite take_ge by lia. lia.
  - rewrite take_app_add' by (rewrite length_take; lia).
    rewrite heights_app. pose proof (heights_nonneg (take (j - i) (drop i cs))).
    lia.
Qed.

Lemma offsetTop_next (cs : list card) i c :
  nth_error cs i = Some c ->
  offsetTop cs (S i) = offsetTop cs i + Z.of_nat (offsetHeight c).
Proof.
  unfold offsetTop. revert i. induction cs as [|x cs IH]; intros [|i] H;
    simpl in *; try discriminate.
  - inversion H; subst. rewrite ?take_0. simpl. lia.
  - rewrite (IH _ H). lia.
Qed.

(** With the scroll offset at the top of a card as tall as the viewport,
    that card is the current one. *)
Lemma landing st i c :
  nth_error (cards st) i = Some c ->
  Z.of_nat (offsetHeight c) = clientHeight st -> 0 < clientHeight st ->
  scrollTop st = offsetTop (cards st) i ->
  getCurrentIndexInFeed st = i.
Proof.
  intros Hc Hh Hv Htop.
  assert (Hfar : forall j c', nth_error (cards st) j = Some c' -> j <> i ->
            (0 < entry_dist (cards st) (viewport_mid st) (j, c'))%Q).
  { intros j c' Hj Hne. unfold entry_dist, viewport_mid. cbn [fst snd].
    rewrite Htop.
    set (ti := offsetTop (cards st) i). set (tj := offsetTop (cards st) j).
    set (hj := Z.of_nat (offsetHeight c')).
    assert (H0 : 0 <= hj) by (unfold hj; lia).
    assert (Hcmp : tj + hj <= ti \/ ti + clientHeight st <= tj).
    { destruct (Nat.lt_trichotomy j i) as [H|[H|H]]; [left|tauto|right].
      - unfold tj, hj. rewrite <- (offsetTop_next _ _ _ Hj).
        apply heights_take_le. lia.
      - unfold ti. rewrite <- Hh, <- (offsetTop_next _ _ _ Hc).
        apply heights_take_le. lia. }
    assert (Heq : (inject_Z tj + inject_Z hj / 2
                   - (inject_Z ti + inject_Z (clientHeight st) / 2)
                   == inject_Z (2 * tj + hj - 2 * ti - clientHeight st) / 2)%Q).
    { unfold Z.sub. rewrite !inject_Z_plus, !inject_Z_opp, !inject_Z_mult.
      field. }
    rewrite Heq.
    apply Qlt_alt. destruct Hcmp as [Hcmp|Hcmp].
    - assert (Hneg : 2 * tj + hj - 2 * ti - clientHeight st < 0) by lia.
      revert Hneg. generalize (2 * tj + hj - 2 * ti - clientHeight st).
      intros [|p|p] Hneg; try lia. reflexivity.
    - assert (Hpos : 0 < 2 * tj + hj - 2 * ti - clientHeight st) by lia.
      revert Hpos. generalize (2 * tj + hj - 2 * ti - clientHeight st).
      intros [|p|p] Hpos; try lia. reflexivity. }
  assert (Hzero : (entry_dist (cards st) (viewport_mid st) (i, c) == 0)%Q).
  { unfold entry_dist, viewport_mid. cbn [fst snd]. rewrite Htop, Hh.
    assert (Heq : (inject_Z (offsetTop (cards st) i)
                   + inject_Z (clientHeight st) / 2
                   - (inject_Z (offsetTop (cards st) i)
                      + inject_Z (clientHeight st) / 2) == 0)%Q) by ring.
    rewrite Heq. reflexivity. }
  apply (current_unique _ _ c); [apply indexed_nth; exact Hc|].
  intros j c' Hin. apply indexed_nth in Hin.
  destruct (Nat.eq_dec j i) as [->|Hne].
  - assert (c' = c) by congruence. subst c'.
    split; [apply Qle_refl|lia].
  - specialize (Hfar _ _ Hin Hne). rewrite Hzero.
    split; [apply Qlt_le_weak|intros _]; exact Hfar.
Qed.

End CurrentFacts.

(* ===================================================================== *)
(** * Gestures: one wheel notch, key press or swipe moves one card *)
(* ===================================================================== *)

Section GestureFacts.

Import Feed Gestures.

Lemma clamp_index (i : Z) (n : nat) :
  (0 < n)%nat ->
  (Z.to_nat (Z.max 0 (Z.min i (Z.of_nat n - 1))) < n)%nat.
Proof. lia. Qed.

Lemma scrollToCardIndex_nonempty i st :
  cards st <> [] ->
  scrollToCardIndex i st
  = (set_isForceScrolling true st,
     Some (offsetTop (cards st)
             (Z.to_nat (Z.max 0 (Z.min i (Z.of_nat (length (cards st)) - 1)))))).
Proof.
  intros Hne. unfold scrollToCardIndex, getCards.
  destruct (cards st) as [|c cs]; [congruence|]. reflexivity.
Qed.

Lemma scrollToCardIndex_empty i st :
  cards st = [] -> scrollToCardIndex i st = (st, None).
Proof.
  intros E. unfold scrollToCardIndex, getCards. rewrite E. reflexivity.
Qed.

(** X16. [scrollToCardIndex(i)] requests nothing on an empty feed.
    Otherwise it raises [isForceScrolling] and requests the top of the card
    of index [i] clamped to the feed; nothing else changes. When the scroll
    arrives there and that card is as tall as the viewport, the card is the
    current one. *)
Theorem scrollToCardIndex_lands (i : Z) (st : feed_state) :
  let n := length (cards st) in
  let k := Z.to_nat (Z.max 0 (Z.min i (Z.of_nat n - 1))) in
  (cards st = [] -> scrollToCardIndex i st = (st, None))
  /\ (cards st <> [] ->
      (k < n)%nat
      /\ (0 <= i < Z.of_nat n -> k = Z.to_nat i)
      /\ scrollToCardIndex i st
         = (set_isForceScrolling true st, Some (offsetTop (cards st) k))
      /\ forall c,
           nth_error (cards st) k = Some c ->
           Z.of_nat (offsetHeight c) = clientHeight st ->
           0 < clientHeight st ->
           getCurrentIndexInFeed
             (set_scrollTop (offsetTop (cards st) k)
                (set_isForceScrolling true st)) = k).
Proof.
  cbv zeta. split; [apply scrollToCardIndex_empty|].
  intros Hne.
  assert (Hn : (0 < length (cards st))%nat).
  { destruct (cards st); [congruence|simpl; lia]. }
  split; [apply clamp_index; exact Hn|].
  split; [intros Hi; f_equal; lia|].
  split; [apply scrollToCardIndex_nonempty; exact Hne|].
  intros c Hc Hh Hv. apply (landing _ _ c); simpl; auto.
Qed.

Lemma scroll_one_card st d :
  d = -1 \/ d = 0 \/ d = 1 ->
  scrollToCardIndex (Z.of_nat (getCurrentIndexInFeed st) + d) st = (st, None)
  \/ exists k,
       (k < length (cards st))%nat
       /\ (k = getCurrentIndexInFeed st \/ k = S (getCurrentIndexInFeed st)
           \/ S k = getCurrentIndexInFeed st)
       /\ scrollToCardIndex (Z.of_nat (getCurrentIndexInFeed st) + d) st
          = (set_isForceScrolling true st, Some (offsetTop (cards st) k)).
Proof.
  intros Hd. destruct (cards_empty_dec st) as [E|Hne].
  - left. apply scrollToCardIndex_empty. exact E.
  - right. pose proof (getCurrentIndexInFeed_lt st Hne) as Hlt.
    eexists. split; [|split; [|apply scrollToCardIndex_nonempty; exact Hne]];
      lia.
Qed.

(** X17. Whatever the wheel, a key or the end of a touch does, it either
    requests nothing or raises [isForceScrolling] and requests the top of a
    card of the feed that is the current card, the one before it or the one
    after it. The wheel is ignored on a phone and while a forced scroll is
    on; touches are ignored off a phone and, on a phone, the end of a touch
    always clears [touchStartY]. On a non-empty feed ArrowDown requests the
    next card, or the current one when it is the last, and ArrowUp the card
    before, or the current one when it is the first. *)
Theorem gestures_one_card (st : feed_state) :
  let idx := getCurrentIndexInFeed st in
  let n := length (cards st) in
  let one_card (r : feed_state * option Z) :=
    r = (st, None)
    \/ exists k,
         (k < n)%nat /\ (k = idx \/ k = S idx \/ S k = idx)
         /\ r = (set_isForceScrolling true st, Some (offsetTop (cards st) k)) in
  (forall dx dy,
     one_card (wheel dx dy st)
     /\ (isMobile st = true \/ isForceScrolling st = true ->
         wheel dx dy st = (st, None)))
  /\ (forall key, one_card (keydown key st))
  /\ (forall changed start,
        one_card (fst (touchend changed st start))
        /\ (isMobile st = true -> snd (touchend changed st start) = None)
        /\ (isMobile st = false ->
            touchend changed st start = (st, None, start)
            /\ forall touch, touchstart touch st start = start))
  /\ (cards st <> [] ->
      keydown "ArrowDown" st
      = (set_isForceScrolling true st,
         Some (offsetTop (cards st) (Nat.min (S idx) (n - 1))))
      /\ keydown "ArrowUp" st
         = (set_isForceScrolling true st,
            Some (offsetTop (cards st) (idx - 1)))).
Proof.
  cbv zeta.
  pose proof (scroll_one_card st (-1) ltac:(auto)) as Hup.
  pose proof (scroll_one_card st 0 ltac:(auto)) as Hstay.
  pose proof (scroll_one_card st 1 ltac:(auto)) as Hdown.
  rewrite Z.add_0_r in Hstay.
  change (Z.of_nat (getCurrentIndexInFeed st) + -1)
    with (Z.of_nat (getCurrentIndexInFeed st) - 1) in Hup.
  split; [|split; [|split]].
  - intros dx dy. split.
    + unfold wheel. cbv zeta.
      destruct (isMobile st); [left; reflexivity|].
      destruct (isForceScrolling st); [left; reflexivity|].
      destruct (Qlt_bool (Qabs dy) (Qabs dx)); [left; reflexivity|].
      destruct (Qlt_bool (Qabs dy) 12); [left; reflexivity|].
      destruct (Qlt_bool 0 dy); assumption.
    + unfold wheel. intros [->| ->]; [reflexivity|].
      destruct (isMobile st); reflexivity.
  - intros key. unfold keydown.
    destruct (String.eqb key "ArrowDown"); [assumption|].
    destruct (String.eqb key "ArrowUp"); [assumption|]. left. reflexivity.
  - intros changed start. unfold touchend. cbv zeta. split; [|split].
    + destruct (isMobile st); simpl; [|left; reflexivity].
      destruct start as [y0|]; simpl; [|left; reflexivity].
      destruct (Qlt_bool _ 6); [assumption|].
      destruct (Qlt_bool _ 0); assumption.
    + intros ->. simpl. destruct start; reflexivity.
    + intros Hm. unfold touchstart. rewrite Hm. simpl. auto.
  - intros Hne. pose proof (getCurrentIndexInFeed_lt st Hne) as Hlt.
    change (keydown "ArrowDown" st)
      with (scrollToCardIndex (Z.of_nat (getCurrentIndexInFeed st) + 1) st).
    change (keydown "ArrowUp" st)
      with (scrollToCardIndex (Z.of_nat (getCurrentIndexInFeed st) - 1) st).
    rewrite !scrollToCardIndex_nonempty by exact Hne.
    split; f_equal; f_equal; f_equal; lia.
Qed.

End GestureFacts.

(* ===================================================================== *)
(** * More on [escapeHtml] *)
(* ===================================================================== *)

Section MoreEscapeFacts.

Import Feed.

Lemma length_append a b :
  String.length (a +:+ b) = (String.length a + String.length b)%nat.
Proof.
  induction a as [|x a IH]; [reflexivity|].
  rewrite append_cons. simpl. rewrite IH. reflexivity.
Qed.

Lemma plain_text_append a b :
  plain_text (a +:+ b) = plain_text a && plain_text b.
Proof.
  induction a as [|x a IH]; [reflexivity|].
  rewrite append_cons. simpl. rewrite IH, andb_assoc. reflexivity.
Qed.

Lemma escape_char_cases c :
  (special_char c = false /\ escape_char c = String c "")
  \/ (special_char c = true
      /\ exists rest, escape_char c = String amp rest
                      /\ (3 <= String.length rest)%nat).
Proof.
  unfold special_char, markup_char, escape_char.
  destruct (Ascii.eqb c amp); [right; split; [reflexivity|]; eexists; split;
    [reflexivity|simpl; lia]|].
  destruct (Ascii.eqb c lt); [right; split; [reflexivity|]; eexists; split;
    [reflexivity|simpl; lia]|].
  destruct (Ascii.eqb c gt); [right; split; [reflexivity|]; eexists; split;
    [reflexivity|simpl; lia]|].
  destruct (Ascii.eqb c dquote); [right; split; [reflexivity|]; eexists; split;
    [reflexivity|simpl; lia]|].
  destruct (Ascii.eqb c squote); [right; split; [reflexivity|]; eexists; split;
    [reflexivity|simpl; lia]|].
  left. split; reflexivity.
Qed.

Lemma special_amp : special_char amp = true.
Proof. reflexivity. Qed.

Lemma escape_chars_length s :
  (String.length s <= String.length (escape_chars s))%nat.
Proof.
  induction s as [|c s IH]; [simpl; lia|].
  simpl escape_chars. rewrite length_append.
  destruct (escape_char_cases c) as [[_ ->]|(_ & rest & -> & Hr)];
    simpl; lia.
Qed.

Lemma escape_chars_fixed s : escape_chars s = s <-> plain_text s = true.
Proof.
  induction s as [|c s IH]; [simpl; tauto|].
  simpl escape_chars. simpl plain_text.
  destruct (escape_char_cases c) as [[Hs ->]|(Hs & rest & -> & Hr)];
    rewrite Hs; simpl negb; rewrite !append_cons.
  - rewrite append_nil. simpl. rewrite <- IH.
    split; [intros H; inversion H; congruence|intros ->; reflexivity].
  - split; [|discriminate]. intros H. exfalso.
    apply (f_equal String.length) in H. simpl in H.
    rewrite length_append in H.
    pose proof (escape_chars_length s). lia.
Qed.

Lemma escape_chars_plain s : plain_text (escape_chars s) = plain_text s.
Proof.
  induction s as [|c s IH]; [reflexivity|].
  simpl escape_chars. rewrite plain_text_append, IH. simpl plain_text.
  destruct (escape_char_cases c) as [[Hs ->]|(Hs & rest & -> & Hr)];
    rewrite Hs; simpl; [rewrite Hs|]; reflexivity.
Qed.

Lemma escape_chars_append a b :
  escape_chars (a +:+ b) = escape_chars a +:+ escape_chars b.
Proof.
  induction a as [|x a IH]; [reflexivity|].
  rewrite append_cons. simpl. rewrite IH. apply append_assoc.
Qed.

(** X18. [escapeHtml] on strings: escaping a concatenation is concatenating
    the escapes; the result is never shorter than the text; the text comes
    back unchanged exactly when it has none of the five characters; and
    escaping twice gives the same as escaping once exactly in that case,
    so a text with one of them is escaped again by a second pass. Null and
    undefined become the empty text. *)
Theorem escapeHtml_strings :
  (forall a b,
     escapeHtml (Some (JStr (a +:+ b)))
     = escapeHtml (Some (JStr a)) +:+ escapeHtml (Some (JStr b)))
  /\ (forall s, (String.length s
                 <= String.length (escapeHtml (Some (JStr s))))%nat)
  /\ (forall s, escapeHtml (Some (JStr s)) = s <-> plain_text s = true)
  /\ (forall s, escapeHtml (Some (JStr (escapeHtml (Some (JStr s)))))
                = escapeHtml (Some (JStr s))
                <-> plain_text s = true)
  /\ escapeHtml None = "" /\ escapeHtml (Some JNull) = "".
Proof.
  assert (H : forall s, escapeHtml (Some (JStr s)) = escape_chars s).
  { intros s. unfold escapeHtml. simpl. apply escape_string_chars. }
  split; [intros a b; rewrite !H; apply escape_chars_append|].
  split; [intros s; rewrite H; apply escape_chars_length|].
  split; [intros s; rewrite H; apply escape_chars_fixed|].
  split; [|split; reflexivity].
  intros s. rewrite !H, escape_chars_fixed. rewrite escape_chars_plain.
  reflexivity.
Qed.

End MoreEscapeFacts.

(* ===================================================================== *)
(** * The comments panel against the proxy's answers *)
(* ===================================================================== *)

Section PanelFacts.

Import Proxy Feed Panel.

Variable cfg : env.
Variable fetch : request -> fetch_result.
Variable JSON_parse : string -> option json.
Variable base64 : string -> string.
Variable describe : exn -> string.

Local Abbreviation get_request := (Proxy.get_request cfg base64).
Local Abbreviation attempt := (Proxy.attempt cfg fetch JSON_parse base64).
Local Abbreviation enrich := (Proxy.enrich cfg fetch JSON_parse base64).
Local Abbreviation fallback := (Proxy.fallback cfg fetch JSON_parse base64).
Local Abbreviation rejected := (reject_reason cfg fetch JSON_parse base64).
Local Abbreviation comments_handler :=
  (Proxy.comments_handler cfg fetch JSON_parse base64).
Local Abbreviation comments_panel := (Panel.comments_panel describe).

Lemma occurrences_append c a b :
  occurrences c (a +:+ b) = (occurrences c a + occurrences c b)%nat.
Proof.
  induction a as [|x a IH]; [reflexivity|].
  rewrite append_cons. simpl. rewrite IH. lia.
Qed.

Lemma occurrences_quote_char c x :
  In c text_markup ->
  occurrences c (quote_char x) = occurrences c (String x "").
Proof.
  intros Hc. unfold text_markup in Hc. simpl in Hc.
  destruct Hc as [<-|[<-|[<-|[<-|[]]]]];
    destruct x as [[] [] [] [] [] [] [] []]; reflexivity.
Qed.

Lemma occurrences_quote_chars c s :
  In c text_markup -> occurrences c (quote_chars s) = occurrences c s.
Proof.
  intros Hc. induction s as [|x s IH]; [reflexivity|].
  simpl quote_chars. rewrite occurrences_append, IH.
  rewrite occurrences_quote_char by exact Hc. simpl. lia.
Qed.

Lemma occurrences_quote c s :
  In c text_markup -> occurrences c (quote s) = occurrences c s.
Proof.
  intros Hc. unfold quote.
  change (String dquote (quote_chars s +:+ String dquote ""))
    with (String dquote "" +:+ (quote_chars s +:+ String dquote "")).
  rewrite !occurrences_append, occurrences_quote_chars by exact Hc.
  unfold text_markup in Hc. simpl in Hc.
  destruct Hc as [<-|[<-|[<-|[<-|[]]]]]; simpl; lia.
Qed.

Lemma occurrences_uint c d :
  In c text_markup -> occurrences c (NilEmpty.string_of_uint d) = 0%nat.
Proof.
  intros Hc. unfold text_markup in Hc. simpl in Hc.
  induction d; simpl; try rewrite IHd;
    destruct Hc as [<-|[<-|[<-|[<-|[]]]]]; reflexivity.
Qed.

Lemma occurrences_Z_to_string c n :
  In c text_markup -> occurrences c (Z_to_string n) = 0%nat.
Proof.
  intros Hc. unfold Z_to_string, NilZero.string_of_int, NilZero.string_of_uint.
  pose proof (occurrences_uint c) as Hu.
  assert (Hminus : occurrences c "-" = 0%nat).
  { unfold text_markup in Hc. simpl in Hc.
    destruct Hc as [<-|[<-|[<-|[<-|[]]]]]; reflexivity. }
  assert (Hzero : occurrences c "0" = 0%nat).
  { unfold text_markup in Hc. simpl in Hc.
    destruct Hc as [<-|[<-|[<-|[<-|[]]]]]; reflexivity. }
  destruct (Z.to_int n) as [d|d]; destruct d; try exact Hzero;
    try (apply Hu; exact Hc);
    change (String "-" ?s) with ("-" +:+ s);
    rewrite ?occurrences_append, ?Hminus, ?Hzero; try reflexivity;
    simpl; rewrite ?Hu by exact Hc; try reflexivity;
    unfold text_markup in Hc; simpl in Hc;
    destruct Hc as [<-|[<-|[<-|[<-|[]]]]]; simpl; rewrite ?Hu; auto;
    unfold text_markup; simpl; auto.
Qed.

Lemma occurrences_dbg_http c url st ct snippet :
  In c text_markup ->
  occurrences c (dbg_of describe (ErrHttp url st ct snippet))
  = (occurrences c url + occurrences c ct + occurrences c snippet)%nat.
Proof.
  intros Hc. unfold dbg_of, debug_text.
  rewrite !occurrences_append, !occurrences_quote by exact Hc.
  rewrite occurrences_Z_to_string by exact Hc.
  unfold text_markup in Hc. simpl in Hc.
  destruct Hc as [<-|[<-|[<-|[<-|[]]]]]; simpl; lia.
Qed.

Lemma occurrences_dbg_thrown c url e :
  In c text_markup ->
  occurrences c (dbg_of describe (ErrThrown url e))
  = (occurrences c url + occurrences c (describe e))%nat.
Proof.
  intros Hc. unfold dbg_of, debug_text.
  rewrite !occurrences_append, !occurrences_quote by exact Hc.
  unfold text_markup in Hc. simpl in Hc.
  destruct Hc as [<-|[<-|[<-|[<-|[]]]]]; simpl; lia.
Qed.

Lemma attempt_not_ok url r :
  fetch (get_request url None) = Reply r -> ok r = false ->
  snd (attempt url) = Rejected (http_err url r).
Proof.
  intros Hf Hok. unfold Proxy.attempt, Proxy.attempt_try.
  rewrite Hf, Hok. reflexivity.
Qed.

(** X19. When the three candidates are passed over and the upstream
    answered the last one with a status that is not a success, the panel
    shows the error markup with the debug text interpolated as it is: the
    characters [<], [>], [&] and ['] occur in it exactly as often as in the
    last URL, the content type and the first 250 characters of the
    upstream body together. None of them is escaped on the way into
    [innerHTML]. *)
Theorem upstream_body_reaches_panel (postId : string) (r : reply) :
  Forall rejected (comment_urls postId) ->
  fetch (get_request (last_url postId) None) = Reply r -> ok r = false ->
  exists dbg,
    comments_panel (snd (comments_handler postId)) = error_panel dbg
    /\ forall c, In c text_markup ->
         occurrences c dbg
         = (occurrences c (last_url postId)
            + occurrences c (toLowerCase (str_or (content_type r) ""))
            + occurrences c (slice0 250 (text r)))%nat.
Proof.
  intros Hrej Hf Hok. unfold Proxy.comments_handler.
  change (comment_urls postId)
    with ((["https://e621.net/posts/" +:+ postId +:+ "/comments.json";
            "https://e621.net/comments.json?post_id=" +:+ postId]
           ++ [last_url postId])%list) in *.
  destruct (fallback_exhausted cfg fetch JSON_parse base64 _ _ ErrNull Hrej)
    as (d & Hd & Hfb).
  rewrite Hfb. rewrite (attempt_not_ok _ _ Hf Hok) in Hd.
  inversion Hd; subst d. simpl snd. unfold Panel.comments_panel.
  eexists. split; [reflexivity|].
  intros c Hc. unfold http_err. apply occurrences_dbg_http. exact Hc.
Qed.

Lemma handler_results postId log rs :
  comments_handler postId = (log, CommentsOk rs) ->
  (length rs <= 50)%nat
  /\ Forall (fun c => truthy (creator_name c) = true
                      /\ (truthy (body c) = true \/ body c = Some (JStr "")))
       rs.
Proof.
  unfold Proxy.comments_handler. intros H.
  destruct (fallback_ok cfg fetch JSON_parse base64 _ _ _ _ H)
    as (url & log' & _ & Hat).
  apply attempt_accepted in Hat.
  destruct Hat as (r & payload & cs & ns & _ & _ & _ & _ & Hn & Hrs & _).
  apply map_outcome_Forall2 in Hn.
  pose proof (enrich_same cfg fetch JSON_parse base64 _ _ _ Hrs) as Hsame.
  split.
  - rewrite <- (Forall2_length _ _ _ Hsame), <- (Forall2_length _ _ _ Hn).
    rewrite length_take. lia.
  - assert (Hns : Forall (fun c => truthy (creator_name c) = true
                             /\ (truthy (body c) = true
                                 \/ body c = Some (JStr ""))) ns).
    { clear - Hn. induction Hn as [|c n l l' Hc _ IH]; constructor; auto.
      apply normalize_Ok in Hc. destruct Hc as (_ & _ & Hb & _ & Hname & _).
      rewrite Hb, Hname. split; [apply or_default_truthy; reflexivity|].
      set (X := Js.or (prop c "body") (prop c "body_html")).
      unfold Js.or. destruct (truthy X) eqn:E; auto. }
    clear - Hns Hsame. revert Hns.
    induction Hsame as [|c c' l l' Hc _ IH]; intros Hns; constructor.
    + inversion Hns as [|? ? [H1 H2] _]; subst.
      destruct Hc as (_ & Hb & _ & Hname). rewrite Hb, Hname. auto.
    + apply IH. inversion Hns; assumption.
Qed.

(** One row, on a comment as the proxy sends it. *)
Lemma row_of_cases c :
  truthy (creator_name c) = true ->
  truthy (body c) = true \/ body c = Some (JStr "") ->
  if row_printable c
  then row_of c
       = Ok {| row_avatar :=
                 if truthy (avatar_url c)
                 then Some (value_to_string (avatar_url c)) else None;
               row_author := value_to_string (creator_name c);
               row_message := value_to_string (body c) |}
  else row_of c = Throw TypeError.
Proof.
  intros Hn Hb. unfold row_of, row_printable.
  assert (Hname : Js.or (creator_name c) (Some (JStr "Unknown"))
                  = creator_name c)
    by (unfold Js.or; rewrite Hn; reflexivity).
  assert (Hbody : Js.or (body c) (Some (JStr "")) = body c)
    by (unfold Js.or; destruct Hb as [->| ->]; reflexivity).
  rewrite Hname, Hbody. unfold string_of.
  destruct (truthy (avatar_url c));
    destruct (unprintable_value (avatar_url c));
    destruct (unprintable_value (creator_name c));
    destruct (unprintable_value (body c)); reflexivity.
Qed.

Lemma rows_of_cases rs :
  Forall (fun c => truthy (creator_name c) = true
                   /\ (truthy (body c) = true \/ body c = Some (JStr "")))
    rs ->
  if forallb row_printable rs
  then exists rows,
         map_outcome row_of rs = Ok rows
         /\ Forall2 (fun c row =>
                       row_author row = value_to_string (creator_name c)
                       /\ row_message row = value_to_string (body c)
                       /\ row_avatar row
                          = (if truthy (avatar_url c)
                             then Some (value_to_string (avatar_url c))
                             else None))
              rs rows
  else map_outcome row_of rs = Throw TypeError.
Proof.
  induction 1 as [|c rs [Hn Hb] _ IH]; simpl.
  - exists []. split; [reflexivity|constructor].
  - pose proof (row_of_cases c Hn Hb) as Hc.
    destruct (row_printable c); simpl; rewrite Hc; simpl; [|reflexivity].
    destruct (forallb row_printable rs).
    + destruct IH as (rows & -> & Hrows). simpl. eexists.
      split; [reflexivity|]. constructor; [simpl; auto|exact Hrows].
    + rewrite IH. reflexivity.
Qed.

(** X20. When the proxy answers with comments, the panel shows
    ["No comments."] exactly when the list is empty. Otherwise, when the
    name, the body and the avatar, if any, of every comment can be
    converted to strings, it shows one row per comment, at most 50, in the
    proxy's order: a row shows the creator_name and the body the proxy
    sent, as texts (the client's own defaults never apply, the proxy having
    applied them), and it has an image exactly when the avatar_url the
    proxy sent is truthy, with that value, as a string, for source. When
    some comment has a name, a body or an avatar that cannot be converted,
    the panel shows the error markup with the TypeError, and no row. *)
Theorem comments_panel_rows (postId : string) log rs :
  comments_handler postId = (log, CommentsOk rs) ->
  (rs = [] <-> comments_panel (CommentsOk rs) = empty_panel)
  /\ (rs <> [] -> forallb row_printable rs = true ->
      exists rows,
        comments_panel (CommentsOk rs) = PanelRows rows
        /\ (length rows <= 50)%nat
        /\ Forall2 (fun c row =>
                      row_author row = value_to_string (creator_name c)
                      /\ row_message row = value_to_string (body c)
                      /\ row_avatar row
                         = (if truthy (avatar_url c)
                            then Some (value_to_string (avatar_url c))
                            else None))
             rs rows)
  /\ (forallb row_printable rs = false ->
      comments_panel (CommentsOk rs)
      = error_panel (nl +:+ describe TypeError)).
Proof.
  intros H.
  destruct (handler_results _ _ _ H) as [Hlen Hall].
  pose proof (rows_of_cases rs Hall) as Hrows.
  split; [|split].
  - split; [intros ->; reflexivity|].
    destruct rs as [|c rs]; [reflexivity|]. unfold Panel.comments_panel.
    destruct (map_outcome row_of (c :: rs)); discriminate.
  - intros Hne Hp. rewrite Hp in Hrows. destruct Hrows as (rows & Hr & HF).
    exists rows. split.
    { unfold Panel.comments_panel. destruct rs; [congruence|].
      rewrite Hr. reflexivity. }
    split; [rewrite <- (Forall2_length _ _ _ HF); exact Hlen|exact HF].
  - intros Hp. rewrite Hp in Hrows. unfold Panel.comments_panel.
    destruct rs as [|c rs]; [discriminate|]. rewrite Hrows. reflexivity.
Qed.

End PanelFacts.

(* ===================================================================== *)
(** * The interpolations of a card that are not escaped *)
(* ===================================================================== *)

Section RawFacts.

Import Feed.

Variable js_minus : value -> value -> value.

Local Abbreviation addPost := (Feed.addPost js_minus).
Local Abbreviation card_info := (Feed.card_info js_minus).

Lemma no_markup_uint d : no_markup (NilEmpty.string_of_uint d) = true.
Proof. induction d; simpl; auto. Qed.

Lemma no_markup_Z_to_string n : no_markup (Z_to_string n) = true.
Proof.
  unfold Z_to_string, NilZero.string_of_int, NilZero.string_of_uint.
  destruct (Z.to_int n) as [d|d]; destruct d; try reflexivity;
    try apply no_markup_uint;
    simpl; apply no_markup_uint.
Qed.

(** X21. The markup of a card interpolates four values without escaping
    them, in this order: the total, the up and the down score and the
    comment count, each converted to a string. When all four are numbers
    no markup character comes with them; a value that is a string goes
    into [innerHTML] as it is. *)
Theorem card_raw_interpolations (h : nat -> nat) (p : json)
    (st st' : feed_state) :
  addPost h p st = Ok st' ->
  exists c,
    cards st' = cards st ++ [c]
    /\ raw_texts (info c)
       = map value_to_string (raw_values js_minus (Some p))
    /\ (Forall is_number (raw_values js_minus (Some p)) ->
        Forall (fun t => no_markup t = true) (raw_texts (info c)))
    /\ (forall s, In (Some (JStr s)) (raw_values js_minus (Some p)) ->
                  In s (raw_texts (info c))).
Proof.
  intros Hadd. apply addPost_appends in Hadd.
  destruct Hadd as (c & -> & _ & _ & _ & _ & _ & _ & Hinfo).
  exists c. split; [reflexivity|].
  rewrite (card_info_raw _ _ _ Hinfo).
  split; [reflexivity|]. split.
  - intros Hnum. rewrite List.Forall_map.
    eapply List.Forall_impl; [|exact Hnum].
    intros v [n ->]. simpl. apply no_markup_Z_to_string.
  - intros s Hin. apply List.in_map_iff. exists (Some (JStr s)).
    split; [reflexivity|exact Hin].
Qed.

End RawFacts.

(* ===================================================================== *)
(** * The page counter along a session *)
(* ===================================================================== *)

Section PageFacts.

Import Feed.

Variable js_minus : value -> value -> value.

Local Abbreviation fetchPosts := (Feed.fetchPosts js_minus).
Local Abbreviation step := (Feed.step js_minus).
Local Abbreviation run := (Feed.run js_minus).

Lemma page_pruneAroundCurrent st :
  currentPage (pruneAroundCurrent st) = currentPage st
  /\ loading (pruneAroundCurrent st) = loading st.
Proof.
  unfold pruneAroundCurrent. cbv zeta.
  destruct (length (getCards st) =? 0)%nat; [auto|].
  destruct (fold_left _ _ _) as [[dom ls] r].
  destruct (r >? 0); auto.
Qed.

Lemma page_toggleComments n st :
  currentPage (toggleComments n st) = currentPage st
  /\ loading (toggleComments n st) = loading st.
Proof.
  unfold toggleComments.
  destruct (List.find _ (cards st)) as [c|]; [|auto].
  destruct (panel c) as [[|]|]; [destruct (outsideTapHandler c)| |];
    try destruct (isMobile st); simpl; auto.
Qed.

Lemma page_step st ev :
  loading st = false ->
  loading (step st ev) = false
  /\ currentPage st <= currentPage (step st ev)
     <= currentPage st + Z.of_nat (pages_loaded [ev]).
Proof.
  intros Hl. destruct ev as [data h|top|viewport|h|n|]; simpl.
  - destruct (fetchPosts_run js_minus data h st Hl) as (new & adv & -> & _).
    simpl. split; [exact Hl|]. unfold pages_loaded. simpl.
    destruct adv; lia.
  - split; [exact Hl|]. unfold pages_loaded. simpl. lia.
  - split; [exact Hl|]. unfold pages_loaded. simpl. lia.
  - split; [exact Hl|]. unfold pages_loaded. simpl. lia.
  - destruct (page_toggleComments n st) as [-> ->].
    split; [exact Hl|]. unfold pages_loaded. simpl. lia.
  - destruct (page_pruneAroundCurrent st) as [-> ->].
    split; [exact Hl|]. unfold pages_loaded. simpl. lia.
Qed.

Lemma pages_loaded_cons ev evs :
  pages_loaded (ev :: evs) = (pages_loaded [ev] + pages_loaded evs)%nat.
Proof. unfold pages_loaded. simpl. destruct ev; reflexivity. Qed.

Lemma page_run st evs :
  loading st = false ->
  loading (run st evs) = false
  /\ currentPage st <= currentPage (run st evs)
     <= currentPage st + Z.of_nat (pages_loaded evs).
Proof.
  revert st. induction evs as [|ev evs IH]; intros st Hl.
  - simpl. split; [exact Hl|]. unfold pages_loaded. simpl. lia.
  - destruct (page_step st ev Hl) as [Hl' Hp].
    destruct (IH _ Hl') as [Hl'' Hp'].
    change (run st (ev :: evs)) with (run (step st ev) evs).
    split; [exact Hl''|]. rewrite pages_loaded_cons. lia.
Qed.

(** X22. Along a session the page counter starts at 1 and never goes back:
    it stays or grows as the session goes on, by at most one for each page
    that arrives; scrolling, resizing, layout, comments and pruning never
    change it. *)
Theorem session_page_counter (mobile : bool) (viewport : Z)
    (evs evs' : list event) :
  let st := run (boot mobile viewport) evs in
  let st' := run (boot mobile viewport) (evs ++ evs') in
  1 <= currentPage st <= 1 + Z.of_nat (pages_loaded evs)
  /\ currentPage st <= currentPage st'
     <= currentPage st + Z.of_nat (pages_loaded evs')
  /\ (pages_loaded evs' = 0%nat -> currentPage st' = currentPage st).
Proof.
  cbv zeta.
  destruct (page_run (boot mobile viewport) evs eq_refl) as [Hl Hp].
  simpl currentPage in Hp.
  assert (Hrun : run (boot mobile viewport) (evs ++ evs')
                 = run (run (boot mobile viewport) evs) evs').
  { unfold Feed.run. apply fold_left_app. }
  rewrite Hrun.
  destruct (page_run (run (boot mobile viewport) evs) evs' Hl) as [_ Hp'].
  split; [exact Hp|]. split; [exact Hp'|].
  intros H0. rewrite H0 in Hp'. simpl in Hp'. lia.
Qed.

End PageFacts.

(* ===================================================================== *)
(** * More concrete runs *)
(* ===================================================================== *)

Module MoreRuns.

Import Scenario.
Import Cases.
Import Proxy.
Import Feed.

(** X2, witness: the upstream answers 404 with a JSON body; the proxy
    answers 200 with the posts that are not swf and the other field. *)
Lemma posts_handler_preserves_witness :
  let handler :=
    Proxy.posts_handler no_credentials upstream_posts_404
      (parse_table [("POSTS", posts_with_meta)]) plain plain in
  prop (res_body (handler first_page)) "posts" = Some (JArr [webm_post])
  /\ prop (res_body (handler first_page)) "meta" = Some (JStr "m").
Proof.
  cbv zeta.
  destruct (posts_handler_preserves no_credentials upstream_posts_404
              (parse_table [("POSTS", posts_with_meta)]) plain plain
              first_page posts_404 posts_with_meta
              eq_refl eq_refl eq_refl) as [H _].
  destruct (H [webm_post; swf_post_2] eq_refl) as [Hposts Hother].
  split; [exact Hposts|]. apply Hother. discriminate.
Defined.

(** X4, witness: one comment without creator; the request of the candidate
    is the last one. *)
Lemma comments_without_creator_witness :
  exists before u, [candidate url1] = before ++ [candidate u].
Proof.
  apply (proj2 (comments_without_creator no_credentials upstream_anonymous
                  (parse_table [("ANON", anonymous_payload)]) plain "7"
                  [candidate url1] anonymous_comments eq_refl)).
  repeat constructor.
Defined.

(** X7, witness: twenty cards, the user on the last one: the ten cards
    before it stay, the nine before those go. *)
Lemma prune_keeps_around_current_witness :
  let st := run int_minus (boot false 100) twenty_at_19 in
  exists before c after,
    cards (pruneAroundCurrent st) = before ++ c :: after
    /\ length before = 10%nat /\ length after = 0%nat
    /\ length (above st) = 9%nat.
Proof.
  cbv zeta.
  destruct (prune_keeps_around_current int_minus false 100 twenty_at_19)
    as (before & c & after & H1 & _ & _ & _ & Hb & Ha & Hab & _).
  - vm_compute. discriminate.
  - exists before, c, after. split; [exact H1|].
    split; [exact Hb|]. split; [exact Ha|exact Hab].
Defined.

(** X10, witness: the first page on a fresh feed gives ten cards and the
    page counter advances; a page whose second post is null gives the card
    of its first post, and the page counter stays. *)
Lemma fetchPosts_page_witness :
  (exists new,
     fetchPosts int_minus (page 0) h100 (boot false 100)
     = set_currentPage 2
         (set_fresh (0 + length new)
            (set_cards ([] ++ new) (boot false 100)))
     /\ map post new = map image_post (seq 0 10))
  /\ (exists new,
        fetchPosts int_minus broken_page h100 (boot false 100)
        = set_fresh (0 + length new) (set_cards ([] ++ new) (boot false 100))
        /\ map post new = [image_post 0]).
Proof.
  split.
  - destruct (fetchPosts_page int_minus (page 0) h100 (boot false 100)
                eq_refl) as (_ & Hall & _).
    apply Hall. vm_compute. repeat constructor.
  - destruct (fetchPosts_page int_minus broken_page h100 (boot false 100)
                eq_refl) as (_ & _ & Hbad).
    apply (Hbad [image_post 0] JNull [image_post 2] eq_refl).
    + vm_compute. repeat constructor.
    + reflexivity.
Defined.

(** X13, witness: on a phone, the comments of the fourth card are opened
    and closed again. *)
Lemma toggleComments_twice_witness :
  let st := run int_minus (boot true 100) one_page_phone in
  listeners (toggleComments 3 st) = [10%nat]
  /\ listeners (toggleComments 3 (toggleComments 3 st)) = [].
Proof.
  cbv zeta.
  destruct (toggleComments_twice int_minus true 100 one_page_phone card3)
    as (_ & Hl & Hst).
  - vm_compute. auto 10.
  - vm_compute. discriminate.
  - change (node card3) with 3%nat in Hl, Hst.
    split; [exact Hl|]. rewrite Hst. reflexivity.
Defined.

(** X15, witness: twenty cards, the user on the twelfth: it is the
    eleventh card after the prune, and still the current one. *)
Lemma prune_keeps_current_witness :
  let st := run int_minus (boot false 100) twenty_at_11 in
  getCurrentIndexInFeed (pruneAroundCurrent st) = 10%nat.
Proof.
  cbv zeta.
  destruct (prune_keeps_current int_minus false 100 twenty_at_11)
    as (H & _).
  - vm_compute. discriminate.
  - vm_compute. discriminate.
  - exact H.
Defined.

(** X19, witness: the upstream answers every candidate with an HTML page;
    its two [<] and two [>] are in the text put into the panel. *)
Lemma upstream_body_reaches_panel_witness :
  exists dbg,
    Panel.comments_panel error_text
      (snd (comments_handler no_credentials upstream_html_404
              (parse_table texts) plain "7"))
    = Panel.error_panel dbg
    /\ occurrences lt dbg = 2%nat /\ occurrences gt dbg = 2%nat.
Proof.
  destruct (upstream_body_reaches_panel no_credentials upstream_html_404
              (parse_table texts) plain error_text "7" html_404)
    as (dbg & Hpanel & Hocc).
  - repeat apply List.Forall_cons; try apply List.Forall_nil;
      apply (status_not_ok _ _ _ _ _ html_404); reflexivity.
  - reflexivity.
  - reflexivity.
  - exists dbg. split; [exact Hpanel|]. split.
    + rewrite (Hocc lt) by (left; reflexivity). reflexivity.
    + rewrite (Hocc gt) by (right; left; reflexivity). reflexivity.
Defined.

(** X20, witness: the wrapped list of the third candidate gives one row
    with the avatar the lookup found; a comment whose body is an object
    with a toString field gives the error markup. *)
Lemma comments_panel_rows_witness :
  (exists rows,
     Panel.comments_panel error_text (CommentsOk [comment9])
     = Panel.PanelRows rows
     /\ (length rows <= 50)%nat)
  /\ Panel.comments_panel error_text (CommentsOk [odd_comment])
     = Panel.error_panel (Feed.nl +:+ "TypeError").
Proof.
  split.
  - destruct (comments_panel_rows no_credentials upstream_404_404_wrapped
                (parse_table texts) plain error_text "7"
                [candidate url1; candidate url2; candidate url3;
                 lookup_request no_credentials plain url3 0 (Some (JNum 5))]
                [comment9] eq_refl) as (_ & H & _).
    destruct (H ltac:(discriminate) eq_refl) as (rows & Hrows & Hlen & _).
    exists rows. split; assumption.
  - destruct (comments_panel_rows no_credentials upstream_odd
                (parse_table [("ODD", odd_payload)]) plain error_text "7"
                [candidate url1] [odd_comment] eq_refl) as (_ & _ & H).
    exact (H eq_refl).
Defined.

(** X21, witness: a post whose up score is the text [<b>]. *)
Lemma card_raw_interpolations_witness :
  exists c,
    cards scored_card_state = [c] /\ In "<b>" (raw_texts (info c)).
Proof.
  destruct (card_raw_interpolations int_minus h100 scored_post
              (boot false 100) scored_card_state eq_refl)
    as (c & Hc & _ & _ & Hin).
  exists c. split; [exact Hc|]. apply Hin. vm_compute. auto.
Defined.

End MoreRuns.
